(** * Session-key and modular-permission validator plugins

    A shallow embedding of
      - plugins/session-key/toSessionKeyValidatorPlugin.ts
      - plugins/modularPermission/toModularPermissionValidatorPlugin.ts
      - packages/core/accounts/kernel/utils/plugins/ep0_6/getPluginsEnableTypedData.ts
    together with the parts of their dependencies (viem's hex helpers and the
    merkletreejs tree) that the plugins call.

    Hex values are JavaScript strings and are kept as strings here, prefix
    included, because the plugins pad, concatenate and lower-case them as
    text.  A call that may throw returns a [Result]; promises are
    computations that may reject and that leave a trace of the external calls
    they made, so that what was called before a failure can be told. *)

From Stdlib Require Import ZArith NArith List String Ascii Bool Lia Arith.
From Stdlib Require Import Strings.Byte Strings.HexString.
Import ListNotations.

Local Open Scope string_scope.

(* ===================================================================== *)
(** ** JavaScript values, exceptions and promises *)
(* ===================================================================== *)

Module Js.

(** What a [throw] carries.  [JsError] is [new Error(message)]; the others
    are the error classes of the collaborators. *)
Inductive Error : Type :=
| JsError (message : string)
| SizeExceedsPaddingSizeError
| IntegerOutOfRangeError
| TransportError (reason : string)
| SignerError (reason : string).

Inductive Result (A : Type) : Type :=
| Ok (value : A)
| Err (e : Error).
Arguments Ok {A} value.
Arguments Err {A} e.

Definition rbind {A B} (r : Result A) (k : A -> Result B) : Result B :=
  match r with
  | Ok a => k a
  | Err e => Err e
  end.

Definition isOk {A} (r : Result A) : bool :=
  match r with Ok _ => true | Err _ => false end.

(** The results of [xs.map(f)] when [f] may throw: the first exception
    ends the loop. *)
Fixpoint sequence {A} (l : list (Result A)) : Result (list A) :=
  match l with
  | [] => Ok []
  | r :: rest => rbind r (fun x => rbind (sequence rest) (fun xs => Ok (x :: xs)))
  end.

(** What an external collaborator answers: a value, or a rejection. *)
Inductive Reply (A : Type) : Type :=
| Resolved (value : A)
| Rejected (reason : string).
Arguments Resolved {A} value.
Arguments Rejected {A} reason.

(** A rejection surfaces as an error of the collaborator's kind. *)
Definition settle {A} (failure : string -> Error) (answer : Reply A) : Result A :=
  match answer with
  | Resolved a => Ok a
  | Rejected reason => Err (failure reason)
  end.

(** [s.replace('0x', '')]: the first occurrence is removed, wherever it is. *)
Fixpoint replace0x (s : string) : string :=
  match s with
  | String "0" (String "x" rest) => rest
  | String c rest => String c (replace0x rest)
  | EmptyString => EmptyString
  end.

(** [s.replace(/^0x/, '')]. *)
Definition replaceLeading0x (s : string) : string :=
  match s with
  | String "0" (String "x" rest) => rest
  | _ => s
  end.

Fixpoint repeatChar (n : nat) (c : ascii) : string :=
  match n with
  | O => EmptyString
  | S n' => String c (repeatChar n' c)
  end.

(** [s.padStart(targetLength, c)] for a one-character filler. *)
Definition padStart (s : string) (targetLength : nat) (c : ascii) : string :=
  repeatChar (targetLength - String.length s) c ++ s.

Definition isUpper (c : ascii) : bool :=
  let n := nat_of_ascii c in (65 <=? n)%nat && (n <=? 90)%nat.

Definition lowerChar (c : ascii) : ascii :=
  if isUpper c then ascii_of_nat (nat_of_ascii c + 32) else c.

(** [s.toLowerCase()] on the ASCII strings the plugins handle. *)
Fixpoint toLowerCase (s : string) : string :=
  match s with
  | EmptyString => EmptyString
  | String c rest => String (lowerChar c) (toLowerCase rest)
  end.

Definition isHexDigit (c : ascii) : bool :=
  match HexString.ascii_to_digit c with Some _ => true | None => false end.

Fixpoint allHexDigits (s : string) : bool :=
  match s with
  | EmptyString => true
  | String c rest => isHexDigit c && allHexDigits rest
  end.

(** The two JavaScript numeric types that reach [toHex]. *)
Inductive Numeric : Type :=
| JsNumber (n : Z)
| JsBigInt (n : Z).

Definition numericValue (v : Numeric) : Z :=
  match v with JsNumber n | JsBigInt n => n end.

Definition MAX_SAFE_INTEGER : Z := 2 ^ 53 - 1.

(** A Node.js [Buffer] (also what a [Uint8Array] is here). *)
Definition Buffer := list byte.

(** A value handed to a hash function: text or bytes. *)
Inductive Value : Type :=
| VString (s : string)
| VBuffer (b : Buffer).

Definition startsWith0x (s : string) : bool :=
  match s with
  | String "0" (String "x" _) => true
  | _ => false
  end.

(** [s.slice(2)]. *)
Definition slice2 (s : string) : string :=
  match s with
  | String _ (String _ rest) => rest
  | _ => EmptyString
  end.

End Js.
Export Js.

(* ===================================================================== *)
(** ** viem: pad, toHex, concat, keccak256 *)
(* ===================================================================== *)

(** The helpers the plugins import from the viem package, which is not part
    of the repository, written out on hex text. *)

Module Viem.

Definition Hex := string.
Definition Address := string.
Definition ByteArray := list byte.

Definition zeroAddress : Address := "0x0000000000000000000000000000000000000000".

(** [pad(hex, { size })] with the default direction (left). *)
Definition pad (hex_ : Hex) (size : nat) : Result Hex :=
  let hex := replace0x hex_ in
  if (size * 2 <? String.length hex)%nat
  then Err SizeExceedsPaddingSizeError
  else Ok ("0x" ++ padStart hex (size * 2) "0").

(** [toHex(value)] for a number or a bigint, without a size option: a
    number above [MAX_SAFE_INTEGER] or a negative value is refused. *)
Definition toHex (value_ : Numeric) : Result Hex :=
  let value := numericValue value_ in
  let tooBig :=
    match value_ with
    | JsNumber _ => (MAX_SAFE_INTEGER <? value)%Z
    | JsBigInt _ => false
    end in
  if tooBig || (value <? 0)%Z
  then Err IntegerOutOfRangeError
  else Ok (HexString.of_Z value).

(** [concat(values)] / [concatHex(values)]. *)
Definition concat (values : list Hex) : Hex :=
  "0x" ++ fold_left (fun acc x => acc ++ replace0x x) values "".

(** Strict [isHex]: [/^0x[0-9a-fA-F]*$/]. *)
Definition isHex (value : string) : bool :=
  match value with
  | String "0" (String "x" rest) => allHexDigits rest
  | _ => false
  end.

Definition hexDigits : string := "0123456789abcdef".

Definition nibbleChar (n : N) : ascii :=
  match String.get (N.to_nat n) hexDigits with
  | Some c => c
  | None => "0"%char
  end.

Definition byteHex (b : byte) : string :=
  let n := Byte.to_N b in
  String (nibbleChar (n / 16)) (String (nibbleChar (n mod 16)) EmptyString).

(** The hexadecimal text of a byte sequence, two lower-case digits a byte. *)
Fixpoint hexOfBytes (bs : list byte) : string :=
  match bs with
  | [] => EmptyString
  | b :: rest => byteHex b ++ hexOfBytes rest
  end.

Definition bytesToHex (bs : ByteArray) : Hex := "0x" ++ hexOfBytes bs.

Definition byteOfNibbles (hi lo : N) : byte :=
  match Byte.of_N (hi * 16 + lo) with
  | Some b => b
  | None => x00
  end.

(** Pairs of hexadecimal digits to bytes; decoding stops at the first pair
    that is not one (and at a lone trailing digit). *)
Fixpoint bytesOfHexDigits (s : string) : list byte :=
  match s with
  | String c1 (String c2 rest) =>
      match HexString.ascii_to_digit c1, HexString.ascii_to_digit c2 with
      | Some hi, Some lo => byteOfNibbles hi lo :: bytesOfHexDigits rest
      | _, _ => []
      end
  | _ => []
  end.

(** [hexToBytes(hex)]: an odd number of digits gets a leading zero. *)
Definition hexToBytes (hex : Hex) : ByteArray :=
  let hexString := slice2 hex in
  let hexString :=
    if Nat.odd (String.length hexString) then String "0" hexString else hexString in
  bytesOfHexDigits hexString.

(** [toBytes(value)] on a string: hex is decoded, other text is taken as
    its bytes. *)
Definition toBytes (value : string) : ByteArray :=
  if isHex value then hexToBytes value else list_byte_of_string value.

(** [keccak256(value)] returning hex.  [keccak_256] is the hash primitive
    on bytes; [hashInput] is what it is given: a string that begins with 0x
    goes through [toBytes], any other string is hashed as its bytes, and
    bytes are hashed as they are. *)
Definition hashInput (value : Value) : ByteArray :=
  match value with
  | VString s => if startsWith0x s then toBytes s else list_byte_of_string s
  | VBuffer b => b
  end.

Definition keccak256 (keccak_256 : ByteArray -> ByteArray) (value : Value) : Hex :=
  bytesToHex (keccak_256 (hashInput value)).

(** The digits [toHex] prints after the prefix, for a value it accepts. *)
Definition hexDigitsOf (z : Z) : string :=
  match z with
  | Zpos p => HexString.Raw.of_pos p ""
  | _ => "0"
  end.

(** A number printed and left-padded to [size] bytes: [size * 2] digits. *)
Definition paddedHex (z : Z) (size : nat) : string :=
  padStart (hexDigitsOf z) (size * 2) "0".

(** An address or a hash as text: the prefix, then exactly [size] bytes of
    hexadecimal digits. *)
Definition isHexOfSize (size : nat) (h : string) : bool :=
  isHex h && (String.length h =? 2 + size * 2)%nat.

Definition isAddress (a : string) : bool := isHexOfSize 20 a.

End Viem.
Export Viem.

(* ===================================================================== *)
(** ** merkletreejs: the tree the session-key plugin commits to *)
(* ===================================================================== *)

(** The [MerkleTree] class comes from the merkletreejs package, which is not
    part of the repository.  It is written out here for the options the
    plugin passes ([sortPairs], [hashLeaves], [complete]); the bitcoin and
    duplicate-odd variants are never switched on and are left out. *)

Module MerkleTreeJs.

(** [Buffer.compare]: byte-wise, a proper prefix is smaller. *)
Fixpoint compare (a b : Buffer) : comparison :=
  match a, b with
  | [], [] => Eq
  | [], _ :: _ => Lt
  | _ :: _, [] => Gt
  | x :: a', y :: b' =>
      match N.compare (Byte.to_N x) (Byte.to_N y) with
      | Eq => compare a' b'
      | c => c
      end
  end.

(** [isHexString]: [/^(0x)?[0-9A-Fa-f]*$/]. *)
Definition isHexString (v : string) : bool :=
  allHexDigits (replaceLeading0x v).

(** [bufferify(value)]. *)
Definition bufferify (value : Value) : Buffer :=
  match value with
  | VBuffer b => b
  | VString s =>
      if isHexString s then bytesOfHexDigits (replaceLeading0x s)
      else list_byte_of_string s
  end.

(** [bufferToHex(value)]. *)
Definition bufferToHex (value : Buffer) : string := "0x" ++ hexOfBytes value.

Record Options : Type := mkOptions {
  sortPairs : bool;
  hashLeaves : bool;
  complete : bool
}.

Section Tree.
(** The hash function given to the constructor; it returns text. *)
Variable f : Value -> string.
Variable options : Options.

(** [bufferifyFn(f)]: the hash function as the tree uses it. *)
Definition hashFn (value : Value) : Buffer :=
  let v := f value in
  if isHexString v then bytesOfHexDigits (replace0x v)
  else list_byte_of_string v.

(** [combined.sort(Buffer.compare)] on a pair. *)
Definition sortPair (l r : Buffer) : list Buffer :=
  match compare l r with
  | Gt => [r; l]
  | _ => [l; r]
  end.

(** [Buffer.concat(combined)], after the optional sort. *)
Definition combine (l r : Buffer) : Buffer :=
  List.concat (if sortPairs options then sortPair l r else [l; r]).

(** One pass of the inner [for] loop over a whole layer: neighbours are
    hashed together, a last node without neighbour moves up unchanged. *)
Fixpoint pairLevel (nodes : list Buffer) : list Buffer :=
  match nodes with
  | l :: r :: rest => hashFn (VBuffer (combine l r)) :: pairLevel rest
  | [lone] => [lone]
  | [] => []
  end.

Definition isPowerOfTwo (n : nat) : bool := (2 ^ Nat.log2 n =? n)%nat.

(** [layerLimit]: with [complete], the first pairing of a layer whose
    size is not a power of two stops early and copies the rest. *)
Definition layerLimit (layerIndex n : nat) : nat :=
  if complete options && (layerIndex =? 1)%nat && negb (isPowerOfTwo n)
  then 2 * n - 2 ^ Nat.log2_up n
  else n.

Definition nextLayer (layerIndex : nat) (nodes : list Buffer) : list Buffer :=
  let limit := layerLimit layerIndex (List.length nodes) in
  pairLevel (firstn limit nodes) ++ skipn limit nodes.

(** Modelled from the spec: the tree builder of section 4.2 (the package's
    [createHashes], not under src/): at each level neighbours are paired in
    their order, each pair sorted before hashing, an odd node promoted
    unchanged.  This is its [while (nodes.length > 1)] loop; it returns the
    layers above [nodes].  [fuel] bounds the number of rounds; each round
    shortens the layer, so the number of nodes is enough. *)
Fixpoint createLayers (fuel layerIndex : nat) (nodes : list Buffer)
  : list (list Buffer) :=
  match fuel with
  | O => []
  | S fuel' =>
      if (List.length nodes <=? 1)%nat then []
      else
        let next := nextLayer layerIndex nodes in
        next :: createLayers fuel' (S layerIndex) next
  end.

Definition createHashes (nodes : list Buffer) : list (list Buffer) :=
  nodes :: createLayers (List.length nodes) 1 nodes.

Record MerkleTree : Type := mkMerkleTree {
  leaves : list Buffer;
  layers : list (list Buffer)
}.

(** Modelled from the spec: the constructor's [processLeaves(leaves)] (not
    under src/): each input is hashed when [hashLeaves] is set and kept as it
    is otherwise, which is how the placeholder stays unhashed. *)
Definition processLeaves (input : list Value) : MerkleTree :=
  let hashed :=
    if hashLeaves options then map (fun v => VBuffer (hashFn v)) input else input in
  let bufs := map bufferify hashed in
  mkMerkleTree bufs (createHashes bufs).

(** [getRoot()]: the first node of the last layer, or no bytes. *)
Definition getRoot (t : MerkleTree) : Buffer :=
  match last (layers t) [] with
  | root :: _ => root
  | [] => []
  end.

Definition getHexRoot (t : MerkleTree) : string := bufferToHex (getRoot t).

(** The search loop of [getProof]: [index] starts at -1 (here [None]) and is
    overwritten at every leaf equal to [leaf]; the loop has no [break], so
    the last equal leaf wins. *)
Fixpoint leafIndexFrom (leaf : Buffer) (ls : list Buffer) (i : nat)
    (index : option nat) : option nat :=
  match ls with
  | [] => index
  | x :: rest =>
      leafIndexFrom leaf rest (S i)
        (match compare leaf x with
         | Eq => Some i
         | _ => index
         end)
  end.

Definition leafIndex (leaf : Buffer) (ls : list Buffer) : option nat :=
  leafIndexFrom leaf ls 0 None.

(** Modelled from the spec: [Tree.proof] of section 4.2 (the package's
    [getProof], not under src/), a sequence of sibling hashes.  This is its
    loop: at each layer the neighbour of the current node, when there is
    one, then up to the parent. *)
Fixpoint proofPath (ls : list (list Buffer)) (index : nat) : list Buffer :=
  match ls with
  | [] => []
  | layer :: rest =>
      let pairIndex := if Nat.odd index then index - 1 else index + 1 in
      match nth_error layer pairIndex with
      | Some data => data :: proofPath rest (index / 2)
      | None => proofPath rest (index / 2)
      end
  end.

Definition getProof (t : MerkleTree) (leaf : Value) : list Buffer :=
  match leafIndex (bufferify leaf) (leaves t) with
  | None => []
  | Some index => proofPath (layers t) index
  end.

Definition getHexProof (t : MerkleTree) (leaf : Value) : list string :=
  map bufferToHex (getProof t leaf).

(** One step of [verify]: the running hash and the next proof entry are
    hashed together, the smaller first when pairs are sorted; a proof given
    as bare hashes carries no position and its entries go first. *)
Definition verifyStep (hash data : Buffer) : Buffer :=
  if sortPairs options
  then
    match compare hash data with
    | Lt => hashFn (VBuffer (hash ++ data)%list)
    | _ => hashFn (VBuffer (data ++ hash)%list)
    end
  else hashFn (VBuffer (data ++ hash)%list).

(** Modelled from the spec: "recomputing the root by walking the proof from
    hash(encode(rule)) must equal tree.root()" (the package's
    [verify(proof, targetNode, root)], not under src/). *)
Definition verify (proof : list Buffer) (targetNode root : Buffer) : bool :=
  match compare (fold_left verifyStep proof targetNode) root with
  | Eq => true
  | _ => false
  end.

End Tree.

(** [new MerkleTree(leaves, hashFn, options)]. *)
Definition newMerkleTree (input : list Value) (f : Value -> string)
    (options : Options) : MerkleTree :=
  processLeaves f options input.

End MerkleTreeJs.

(* ===================================================================== *)
(** ** Promises and the external calls they make *)
(* ===================================================================== *)

Module Async.

(** The contract reads the plugins issue through [readContract]. *)
Inductive ReadCall : Type :=
| NoncesCall (validator account : Address)
| GetExecutionCall (account : Address) (selector : Hex)
| SessionDataCall (validator signer account : Address)
| PermissionsCall (validator : Address) (permissionId : Hex) (account : Address).

Inductive Effect : Type :=
| ReadContract (call : ReadCall)
| SignMessage (account : Address) (raw : Hex)
| GetChainId.

Definition Trace := list Effect.

(** An awaited computation: it extends the trace of external calls and
    either resolves or rejects. *)
Definition Promise (A : Type) : Type := Trace -> Result A * Trace.

Definition ret {A} (a : A) : Promise A := fun t => (Ok a, t).

Definition throw {A} (e : Error) : Promise A := fun t => (Err e, t).

Definition bind {A B} (m : Promise A) (k : A -> Promise B) : Promise B :=
  fun t =>
    match m t with
    | (Ok a, t') => k a t'
    | (Err e, t') => (Err e, t')
    end.

(** A synchronous computation that may throw. *)
Definition lift {A} (r : Result A) : Promise A := fun t => (r, t).

(** [try { body } catch (error) { handler }]. *)
Definition tryCatch {A} (body : Promise A) (handler : Error -> Promise A)
  : Promise A :=
  fun t =>
    match body t with
    | (Ok a, t') => (Ok a, t')
    | (Err e, t') => handler e t'
    end.

(** An external call: recorded, then answered by the collaborator. *)
Definition perform {A} (e : Effect) (failure : string -> Error)
    (answer : Reply A) : Promise A :=
  fun t => (settle failure answer, (t ++ [e])%list).

(** The trace a computation adds when started on an empty one. *)
Definition effectsOf {A} (m : Promise A) : Trace := snd (m []).
Definition resultOf {A} (m : Promise A) : Result A := fst (m []).

Definition isReadContract (e : Effect) : bool :=
  match e with ReadContract _ => true | _ => false end.

(** The computation made no contract read. *)
Definition noReads {A} (m : Promise A) : bool :=
  forallb (fun e => negb (isReadContract e)) (effectsOf m).

End Async.
Export Async.

Declare Scope promise_scope.
Delimit Scope promise_scope with promise.
Notation "x <- m ;; k" := (Async.bind m (fun x => k))
  (at level 61, m at next level, right associativity) : promise_scope.
Notation "x <-- r ;; k" := (Js.rbind r (fun x => k))
  (at level 61, r at next level, right associativity) : promise_scope.

(** [a ?? b] *)
Definition nullish {A} (a : option A) (b : A) : A :=
  match a with Some x => x | None => b end.

(** [a ?? b ?? ...] where the fallback may itself be undefined. *)
Definition nullishOpt {A} (a b : option A) : option A :=
  match a with Some x => Some x | None => b end.

(* ===================================================================== *)
(** ** The chain and the signer, as the plugins see them *)
(* ===================================================================== *)

Module Chain.

(** [getExecution(selector)] of the kernel account. *)
Record ExecutionDetail : Type := mkExecutionDetail {
  exec_validAfter : Z;
  exec_validUntil : Z;
  exec_executor : Address;
  exec_validator : Address
}.

(** [sessionData(sessionKey, kernel)] of the session-key validator; the
    plugin reads it by position, [enableData[0]] to [enableData[4]]. *)
Record SessionDataTuple : Type := mkSessionData {
  sd_merkleRoot : Hex;      (* [0] *)
  sd_validAfter : Z;        (* [1], a number *)
  sd_validUntil : Z;        (* [2], a number *)
  sd_paymaster : Address;   (* [3] *)
  sd_nonce : Z              (* [4], a bigint *)
}.

(** [permissions(permissionId, kernel)] of the modular validator; only
    position 3 is read. *)
Record PermissionTuple : Type := mkPermissionTuple {
  perm_0 : Z;
  perm_1 : Hex;
  perm_2 : Address;
  perm_3 : Hex
}.

(** The node behind the [client] and the key behind the signer. *)
Record Client : Type := mkClient {
  chainIdOf : Reply Z;
  nonces : Address -> Address -> Reply (Z * Z);
  getExecution : Address -> Hex -> Reply ExecutionDetail;
  sessionData : Address -> Address -> Address -> Reply SessionDataTuple;
  permissions : Address -> Hex -> Address -> Reply PermissionTuple;
  signRaw : Address -> Hex -> Reply Hex
}.

Definition getChainId (client : Client) : Promise Z :=
  perform GetChainId TransportError (chainIdOf client).

Definition readNonces (client : Client) (validator account : Address)
  : Promise (Z * Z) :=
  perform (ReadContract (NoncesCall validator account)) TransportError
          (nonces client validator account).

Definition readGetExecution (client : Client) (account : Address) (selector : Hex)
  : Promise ExecutionDetail :=
  perform (ReadContract (GetExecutionCall account selector)) TransportError
          (getExecution client account selector).

Definition readSessionData (client : Client) (validator signer account : Address)
  : Promise SessionDataTuple :=
  perform (ReadContract (SessionDataCall validator signer account)) TransportError
          (sessionData client validator signer account).

Definition readPermissions (client : Client) (validator : Address)
    (permissionId : Hex) (account : Address) : Promise PermissionTuple :=
  perform (ReadContract (PermissionsCall validator permissionId account)) TransportError
          (permissions client validator permissionId account).

(** [signMessage(client, { account, message: { raw } })]. *)
Definition signMessage (client : Client) (account : Address) (raw : Hex)
  : Promise Hex :=
  perform (SignMessage account raw) SignerError (signRaw client account raw).

Record EntryPoint : Type := mkEntryPoint {
  ep_address : Address;
  ep_version : string
}.

Record UserOperation : Type := mkUserOperation {
  sender : Address;
  nonce : Z;
  initCode : Hex;
  callData : Hex;
  callGasLimit : Z;
  verificationGasLimit : Z;
  preVerificationGas : Z;
  maxFeePerGas : Z;
  maxPriorityFeePerGas : Z;
  paymasterAndData : Hex;
  signature : Hex
}.

(** [{ ...userOperation, signature: "0x" }]. *)
Definition withEmptySignature (u : UserOperation) : UserOperation :=
  mkUserOperation (sender u) (nonce u) (initCode u) (callData u)
    (callGasLimit u) (verificationGasLimit u) (preVerificationGas u)
    (maxFeePerGas u) (maxPriorityFeePerGas u) (paymasterAndData u) "0x".

End Chain.
Export Chain.

(* ===================================================================== *)
(** ** plugins/session-key/toSessionKeyValidatorPlugin.ts *)
(* ===================================================================== *)

Module SessionKey.

Local Open Scope promise_scope.

Inductive Operation : Type := Call | DelegateCall.

Inductive ParamOperator : Type :=
| EQUAL | GREATER_THAN | LESS_THAN
| GREATER_THAN_OR_EQUAL | LESS_THAN_OR_EQUAL | NOT_EQUAL.

Definition anyPaymaster : Address := "0x0000000000000000000000000000000000000001".

Record ParamRule : Type := mkParamRule {
  offset : Z;
  condition : ParamOperator;
  param : Hex
}.

Record ExecutionRule : Type := mkExecutionRule {
  er_validAfter : Z;
  er_interval : Z;
  er_runs : Z
}.

(** The [abi], [functionName] and [args] of a permission written as a
    call signature. *)
Record AbiCall : Type := mkAbiCall {
  abi : option string;
  functionName : option string;
  args : list string
}.

(** A permission as the caller writes it: most fields may be left out. *)
Record PermissionInput : Type := mkPermissionInput {
  in_target : Address;
  in_valueLimit : option Z;
  in_sig : option Hex;
  in_rules : option (list ParamRule);
  in_executionRule : option ExecutionRule;
  in_operation : option Operation;
  in_abiCall : AbiCall
}.

(** A permission once the plugin has filled the defaults in and stamped
    its index. *)
Record Permission : Type := mkPermission {
  target : Address;
  valueLimit : Z;
  sig : Hex;
  rules : list ParamRule;
  index : nat;
  executionRule : ExecutionRule;
  operation : Operation;
  abiCall : AbiCall
}.

(** [validatorData] as passed in. *)
Record ValidatorData : Type := mkValidatorData {
  vd_validAfter : option Z;
  vd_validUntil : option Z;
  vd_paymaster : option Address;
  vd_permissions : option (list PermissionInput)
}.

(** [sessionKeyData] as the plugin keeps it. *)
Record SessionKeyData : Type := mkSessionKeyData {
  validAfter : option Z;
  validUntil : option Z;
  paymaster : option Address;
  permissions : option (list Permission)
}.

(** The result of [findMatchingPermissions] when it is not [undefined],
    and the first argument of [encodePermissionData]: one permission or an
    array of them. *)
Inductive Matching : Type :=
| One (permission : Permission)
| Many (permissions : list Permission).

(** An entry of [merkleProof]: a sibling hash ([string[]]) or a whole
    proof ([string[][]]). *)
Inductive ProofItem : Type :=
| Sibling (hash : Hex)
| SubProof (proof : list Hex).

Record Signer : Type := mkSigner { signer_address : Address }.

(** What [getPermissionFromABI] returns: [{ sig, rules }], either of which
    may be undefined. *)
Definition Generated : Type := (option Hex * option (list ParamRule))%type.

(** What the plugin imports from files outside this one: [./utils.js],
    [./index.js], [@zerodev/sdk], the hash primitive under viem's
    [keccak256], and viem's [getUserOperationHash].  The helpers that
    encode or decode may throw: [getPermissionFromABI] on a function the ABI
    does not have, [encodePermissionData] on a field it cannot encode,
    [getUserOperationHash] on an operation it cannot encode and
    [fixSignedData] on text that is not a signature.
    [findMatchingPermissions] answers undefined instead. *)
Record Imports : Type := mkImports {
  keccak_256 : ByteArray -> ByteArray;
  encodePermissionData : Matching -> option (list ProofItem) -> Result Hex;
  findMatchingPermissions : Hex -> option (list Permission) -> option Matching;
  fixSignedData : Hex -> Result Hex;
  getPermissionFromABI : AbiCall -> Result Generated;
  getUserOperationHash : UserOperation -> Address -> string -> Z -> Result Hex;
  toSigner : Signer -> Reply Address;
  DUMMY_ECDSA_SIG : Hex;
  SESSION_KEY_VALIDATOR_ADDRESS : Address
}.

Record Params : Type := mkParams {
  signer : Signer;
  entryPoint : EntryPoint;
  validatorData : option ValidatorData;
  validatorAddressParam : option Address
}.

(** What the closures returned by [signerToSessionKeyValidator] capture. *)
Record Plugin : Type := mkPlugin {
  p_signer : Signer;
  p_entryPoint : EntryPoint;
  validatorAddress : Address;
  viemSignerAddress : Address;
  chainId : Z;
  sessionKeyData : SessionKeyData;
  merkleTree : MerkleTreeJs.MerkleTree
}.

Definition noAccountMessage : string := "Kernel account address not provided".
Definition noMatchMessage : string :=
  "SessionKeyValidator: No matching permission found for the userOp".
Definition entryPointMessage : string := "Only EntryPoint 0.6 is supported".

(** Truthiness of an optional string, as in [!kernelAccountAddress]. *)
Definition truthyString (s : option string) : bool :=
  match s with
  | None => false
  | Some EmptyString => false
  | Some _ => true
  end.

(** Truthiness of an optional match: an array is truthy even when empty. *)
Definition truthyMatching (m : option Matching) : bool :=
  match m with None => false | Some _ => true end.

(** [map((x, index) => ...)]. *)
Fixpoint mapi {A B} (g : A -> nat -> B) (i : nat) (l : list A) : list B :=
  match l with
  | [] => []
  | x :: rest => g x i :: mapi g (S i) rest
  end.

(** [xs?.length] used as a condition. *)
Definition hasLength {A} (xs : option (list A)) : bool :=
  match xs with
  | Some (_ :: _) => true
  | _ => false
  end.

Section WithImports.
Variable imp : Imports.
Variable client : Client.

(** Lines 89-95: [generatedPermissionParams], one call of
    [getPermissionFromABI] a configured permission, in order; undefined when
    no permission list is given. *)
Definition generatedPermissionParams (inputs : option (list PermissionInput))
  : Result (option (list Generated)) :=
  match inputs with
  | Some l =>
      generated <-- sequence (map (fun perm => getPermissionFromABI imp (in_abiCall perm)) l) ;;
      Ok (Some generated)
  | None => Ok None
  end.

(** [generatedPermissionParams?.[index]]. *)
Definition generatedAt (generated : option (list Generated)) (idx : nat)
  : option Generated :=
  match generated with
  | Some l => nth_error l idx
  | None => None
  end.

(** Lines 96-113: the defaults of one permission. *)
Definition fillPermission (generated : option (list Generated))
    (perm : PermissionInput) (idx : nat) : Result Permission :=
  let derived := generatedAt generated idx in
  let derivedSig := match derived with Some g => fst g | None => None end in
  let derivedRules := match derived with Some g => snd g | None => None end in
  sig_ <-- match nullishOpt (in_sig perm) derivedSig with
           | Some s => Ok s
           | None => pad "0x" 4
           end ;;
  Ok {| target := in_target perm;
        valueLimit := nullish (in_valueLimit perm) 0%Z;
        sig := sig_;
        rules := nullish (nullishOpt (in_rules perm) derivedRules) [];
        index := idx;
        executionRule :=
          nullish (in_executionRule perm) (mkExecutionRule 0 0 0);
        operation := nullish (in_operation perm) Call;
        abiCall := in_abiCall perm |}.

(** Lines 83-113. *)
Definition buildSessionKeyData (vd : option ValidatorData) : Result SessionKeyData :=
  let inputs :=
    match vd with
    | Some d => vd_permissions d
    | None => None
    end in
  generated <-- generatedPermissionParams inputs ;;
  perms <-- match inputs with
            | Some l => sequence (mapi (fillPermission generated) 0 l)
            | None => Ok []
            end ;;
  Ok {| validAfter := Some (nullish (match vd with Some d => vd_validAfter d | None => None end) 0%Z);
        validUntil := Some (nullish (match vd with Some d => vd_validUntil d | None => None end) 0%Z);
        paymaster := Some (nullish (match vd with Some d => vd_paymaster d | None => None end) zeroAddress);
        permissions := Some perms |}.

(** Lines 140-145: the leaves handed to the tree, one call of
    [encodePermissionData] a permission; a single one is pushed a second
    time. *)
Definition encodedPermissionData (perms : list Permission) : Result (list Hex) :=
  encoded <-- sequence (map (fun permission => encodePermissionData imp (One permission) None)
                            perms) ;;
  Ok match encoded with
     | [only] => [only; only]
     | _ => encoded
     end.

Definition keccak256 (value : Value) : Hex := Viem.keccak256 (keccak_256 imp) value.

(** Lines 149-150 and 153-154: the options of the two trees. *)
Definition configuredOptions : MerkleTreeJs.Options :=
  {| MerkleTreeJs.sortPairs := true;
     MerkleTreeJs.hashLeaves := true;
     MerkleTreeJs.complete := false |}.

Definition placeholderOptions : MerkleTreeJs.Options :=
  {| MerkleTreeJs.sortPairs := false;
     MerkleTreeJs.hashLeaves := false;
     MerkleTreeJs.complete := true |}.

(** Lines 140-155: the permissions are encoded, then the tree is built. *)
Definition buildMerkleTree (data : SessionKeyData) : Result MerkleTreeJs.MerkleTree :=
  encoded <-- encodedPermissionData (nullish (permissions data) []) ;;
  if hasLength (permissions data)
  then Ok (MerkleTreeJs.newMerkleTree (map VString encoded) keccak256 configuredOptions)
  else
    placeholder <-- pad "0x00" 32 ;;
    Ok (MerkleTreeJs.newMerkleTree [VString placeholder] keccak256
          placeholderOptions).

(** [signerToSessionKeyValidator(client, params)] up to the returned
    object. *)
Definition signerToSessionKeyValidator (params : Params) : Promise Plugin :=
  if negb (String.eqb (ep_version (entryPoint params)) "0.6")
  then throw (JsError entryPointMessage)
  else
    data <- lift (buildSessionKeyData (validatorData params)) ;;
    viemSigner <- lift (settle SignerError (toSigner imp (signer params))) ;;
    chain <- getChainId client ;;
    tree <- lift (buildMerkleTree data) ;;
    ret {| p_signer := signer params;
           p_entryPoint := entryPoint params;
           validatorAddress :=
             nullish (validatorAddressParam params) (SESSION_KEY_VALIDATOR_ADDRESS imp);
           viemSignerAddress := viemSigner;
           chainId := chain;
           sessionKeyData := data;
           merkleTree := tree |}.

Variable plugin : Plugin.

(** Lines 181-196; the pair is [(lastNonce, invalidNonce)]. *)
Definition getSessionNonces (kernelAccountAddress : Address) : Promise (Z * Z) :=
  readNonces client (validatorAddress plugin) kernelAccountAddress.

(** Lines 167-178: the returned concatenation, for the resolved nonce. *)
Definition enableDataOf (lastNonce : Z) : Result Hex :=
  root <-- pad (MerkleTreeJs.getHexRoot (merkleTree plugin)) 32 ;;
  va <-- toHex (JsNumber (nullish (validAfter (sessionKeyData plugin)) 0%Z)) ;;
  va <-- pad va 6 ;;
  vu <-- toHex (JsNumber (nullish (validUntil (sessionKeyData plugin)) 0%Z)) ;;
  vu <-- pad vu 6 ;;
  n <-- toHex (JsBigInt lastNonce) ;;
  n <-- pad n 32 ;;
  Ok (concat [ viemSignerAddress plugin; root; va; vu;
               nullish (paymaster (sessionKeyData plugin)) zeroAddress; n ]).

(** Lines 157-179. *)
Definition getEnableData (kernelAccountAddress : option Address)
    (enabledLastNonce : option Z) : Promise Hex :=
  match (if truthyString kernelAccountAddress then kernelAccountAddress else None) with
  | None => throw (JsError noAccountMessage)
  | Some account =>
      lastNonce <- match enabledLastNonce with
                   | Some n => ret n
                   | None =>
                       n <- getSessionNonces account ;;
                       ret (fst n + 1)%Z
                   end ;;
      lift (enableDataOf lastNonce)
  end.

(** Line 203-210: the guard of [getEncodedPermissionProofData]. *)
Definition unmatchedAndGated (matchingPermission : option Matching) : Result bool :=
  if negb (truthyMatching matchingPermission)
  then
    placeholder <-- pad "0x00" 32 ;;
    Ok (negb (String.eqb (MerkleTreeJs.getHexRoot (merkleTree plugin)) placeholder))
  else Ok false.

(** Lines 211-216 and 230-234: [encodePermissionData(matchingPermission,
    merkleProof)] when permissions are configured and something matched,
    "0x" otherwise. *)
Definition encodedOrEmpty (matchingPermission : option Matching)
    (proof : option (list ProofItem)) : Result Hex :=
  match matchingPermission with
  | Some matching =>
      if hasLength (permissions (sessionKeyData plugin))
      then encodePermissionData imp matching proof
      else Ok "0x"
  | None => Ok "0x"
  end.

(** Lines 217-229: [merkleProof], for the leaf text [encoded]: a proof for
    each permission of an array, each encoded again on its own, or the proof
    of the one matching permission. *)
Definition merkleProof (encoded : Hex) (matchingPermission : option Matching)
  : Result (list ProofItem) :=
  match matchingPermission with
  | Some (Many ps) =>
      encodedPerms <-- sequence
                         (map (fun permission =>
                                 e <-- encodePermissionData imp (One permission) None ;;
                                 Ok (keccak256 (VString e)))
                              ps) ;;
      Ok (map (fun perm =>
                 SubProof (MerkleTreeJs.getHexProof (merkleTree plugin) (VString perm)))
              encodedPerms)
  | Some (One _) =>
      Ok (map Sibling
              (MerkleTreeJs.getHexProof (merkleTree plugin)
                 (VString (keccak256 (VString encoded)))))
  | None => Ok []
  end.

(** Lines 198-235. *)
Definition getEncodedPermissionProofData (callData_ : Hex) : Result Hex :=
  let perms := permissions (sessionKeyData plugin) in
  let matchingPermission := findMatchingPermissions imp callData_ perms in
  refuse <-- unmatchedAndGated matchingPermission ;;
  if refuse then Err (JsError noMatchMessage)
  else
    encoded <-- encodedOrEmpty matchingPermission None ;;
    proof <-- merkleProof encoded matchingPermission ;;
    encodedOrEmpty matchingPermission (Some proof).

(** Lines 247-255: the hash that is signed. *)
Definition userOpHashOf (userOperation : UserOperation) : Result Hex :=
  getUserOperationHash imp (withEmptySignature userOperation)
    (ep_address (p_entryPoint plugin)) (ep_version (p_entryPoint plugin))
    (chainId plugin).

(** Lines 246-267: the hash, the signature, its fix-up, then the proof
    lookup, each of which may throw. *)
Definition signUserOperation (userOperation : UserOperation) : Promise Hex :=
  userOpHash <- lift (userOpHashOf userOperation) ;;
  signature_ <- signMessage client (viemSignerAddress plugin) userOpHash ;;
  fixedSignature <- lift (fixSignedData imp signature_) ;;
  proof <- lift (getEncodedPermissionProofData (callData userOperation)) ;;
  ret (concat [viemSignerAddress plugin; fixedSignature; proof]).

(** Lines 269-274; [0n] is falsy. *)
Definition getNonceKey (_accountAddress : option Address) (customNonceKey : option Z)
  : Promise Z :=
  match customNonceKey with
  | Some k => if (k =? 0)%Z then ret 0%Z else ret k
  | None => ret 0%Z
  end.

(** Lines 276-282. *)
Definition getStubSignature (userOperation : UserOperation) : Promise Hex :=
  proof <- lift (getEncodedPermissionProofData (callData userOperation)) ;;
  ret (concat [viemSignerAddress plugin; DUMMY_ECDSA_SIG imp; proof]).

(** Lines 310-317: [enableDataHex], the stored session written out. *)
Definition storedEnableData (enableData : SessionDataTuple) : Result Hex :=
  root <-- pad (sd_merkleRoot enableData) 32 ;;
  va <-- toHex (JsNumber (sd_validAfter enableData)) ;;
  va <-- pad va 6 ;;
  vu <-- toHex (JsNumber (sd_validUntil enableData)) ;;
  vu <-- pad vu 6 ;;
  n <-- toHex (JsBigInt (sd_nonce enableData)) ;;
  n <-- pad n 32 ;;
  Ok (concat [ viemSignerAddress plugin; root; va; vu;
               sd_paymaster enableData; n ]).

(** Lines 285-333. *)
Definition isEnabled (kernelAccountAddress : Address) (selector : Hex)
  : Promise bool :=
  tryCatch
    (execDetail <- readGetExecution client kernelAccountAddress selector ;;
     enableData <- readSessionData client (validatorAddress plugin)
                     (signer_address (p_signer plugin)) kernelAccountAddress ;;
     enableDataHex <- lift (storedEnableData enableData) ;;
     if String.eqb (toLowerCase (exec_validator execDetail))
                   (toLowerCase (validatorAddress plugin))
     then
       if negb (sd_nonce enableData =? 0)%Z
       then
         expected <- getEnableData (Some kernelAccountAddress)
                       (Some (sd_nonce enableData)) ;;
         ret (String.eqb (toLowerCase enableDataHex) (toLowerCase expected))
       else ret false
     else ret false)
    (fun _ => ret false).

End WithImports.

(** The plugin object is one that [signerToSessionKeyValidator] returned. *)
Definition Built (imp : Imports) (client : Client) (params : Params)
    (plugin : Plugin) : Prop :=
  exists t t', signerToSessionKeyValidator imp client params t = (Ok plugin, t').

(** The permissions the caller configured. *)
Definition configuredPermissions (params : Params) : list PermissionInput :=
  match validatorData params with
  | Some d => nullish (vd_permissions d) []
  | None => []
  end.

(** The rule set the plugin holds. *)
Definition ruleSet (plugin : Plugin) : list Permission :=
  nullish (permissions (sessionKeyData plugin)) [].



(** The 32 zero bytes of the placeholder leaf, and their text. *)
Definition zeroBytes32 : Buffer := repeat x00 32.
Definition zeroRoot : Hex :=
  "0x0000000000000000000000000000000000000000000000000000000000000000".

(** The tree of the empty rule set: the placeholder is its only leaf, its
    only layer and its root. *)
Definition emptyTree : MerkleTreeJs.MerkleTree :=
  MerkleTreeJs.mkMerkleTree [zeroBytes32] [[zeroBytes32]].

(** The enable-data layout: the digits of the signer address, then the root
    on 32 bytes, the validity window on 6 bytes each, the digits of the
    paymaster address, and the nonce on 32 bytes. *)
Definition enableDataFields (signerAddress : Address) (root : Buffer)
    (validAfter_ validUntil_ : Z) (paymaster_ : Address) (nonce_ : Z)
  : list string :=
  [ slice2 signerAddress;
    padStart (hexOfBytes root) 64 "0";
    paddedHex validAfter_ 6;
    paddedHex validUntil_ 6;
    slice2 paymaster_;
    paddedHex nonce_ 32 ].

Definition joinFields (fields : list string) : Hex :=
  "0x" ++ fold_right String.append "" fields.

(** [0 <= z < 2^(8 * size)]. *)
Definition fitsBytes (size : nat) (z : Z) : Prop :=
  (0 <= z < 16 ^ Z.of_nat (size * 2))%Z.

(** The proof [getHexProof] gives for the leaf text [leaf]. *)
Definition proofOf (imp : Imports) (plugin : Plugin) (leaf : Hex) : list Hex :=
  MerkleTreeJs.getHexProof (merkleTree plugin) (VString (keccak256 imp (VString leaf))).

(** The permissions a match names. *)
Definition matchedRules (m : option Matching) : list Permission :=
  match m with
  | Some (One p) => [p]
  | Some (Many ps) => ps
  | None => []
  end.

(** The match names permissions of the list that was searched, as the
    result of filtering that list does. *)
Definition selectsFrom (perms : option (list Permission)) (m : option Matching) : Prop :=
  forall p, In p (matchedRules m) -> In p (nullish perms []).

(** The encoder accepts each permission the match names, taken on its
    own. *)
Definition encodesMatched (imp : Imports) (m : option Matching) : Prop :=
  forall p, In p (matchedRules m) ->
    exists leaf, encodePermissionData imp (One p) None = Ok leaf.

(** The parts of [./utils.js] and of the constants of [@zerodev/sdk] that
    decide how long a signature is. *)
Module Utils.

Definition invalidSignedDataMessage : string := "Invalid signed data".

(** Modelled from the spec: the fix-up of "the recovery/parity byte" inside
    [fixSignedData] (not among the sources): the two conventions for that
    byte, 0 or 1 and 27 or 28, are brought to the second. *)
Definition fixRecoveryByte (v : string) : string :=
  if String.eqb v "00" then "1b"
  else if String.eqb v "01" then "1c"
  else v.

(** Modelled from the spec: [fixSignedData] of ./utils.js, which is not
    among the sources.  Section 4.5 has [signOperation] apply "a byte-level
    fix-up" of "the recovery/parity byte" to the signer's signature: the
    signature is r, s and one recovery byte, 65 bytes; a recovery byte of 0
    or 1 is rewritten to 27 or 28 and every other byte is kept.  Text that
    is not a 65-byte signature, with or without its prefix, is refused. *)
Definition fixSignedData (sig_ : Hex) : Result Hex :=
  let signature_ := if isHex sig_ then sig_ else "0x" ++ sig_ in
  if isHexOfSize 65 signature_
  then Ok (substring 0 130 signature_ ++ fixRecoveryByte (substring 130 2 signature_))
  else Err (JsError invalidSignedDataMessage).

(** Modelled from the spec: [constants.DUMMY_ECDSA_SIG] of @zerodev/sdk,
    which is not among the sources.  Section 4.5 has [stubSignature] use "a
    fixed dummy signature of the same byte length" as a real one: 65
    bytes. *)
Definition DUMMY_ECDSA_SIG : Hex :=
  "0xfffffffffffffffffffffffffffffff000000000000000000000000000000007aaaaaaaaaaaaaaaaaaaaaaaaaaaaaaaaaaaaaaaaaaaaaaaaaaaaaaaaaaaaaaaa1c".

End Utils.


End SessionKey.

(* ===================================================================== *)
(** ** plugins/modularPermission/toModularPermissionValidatorPlugin.ts *)
(* ===================================================================== *)

Module ModularPermission.

Local Open Scope promise_scope.

(** A policy object; [getSignaturePolicyData] looks into the operation and
    may throw. *)
Record Policy : Type := mkPolicy {
  getPolicyInfoInBytes : Hex;
  getPolicyData : Hex;
  getSignaturePolicyData : UserOperation -> Result Hex
}.

Record ModularSigner : Type := mkModularSigner {
  signerContractAddress : Address;
  getSignerData : Hex;
  getDummySignature : Hex;
  accountAddress : Address;
  accountSignMessage : Hex -> Reply Hex
}.

Inductive AbiValue : Type :=
| AbiHex (h : Hex)
| AbiHexArray (l : list Hex)
| AbiNumber (n : Z).

Record AbiParameter : Type := mkAbiParameter {
  ap_name : string;
  ap_type : string
}.

(** What the plugin imports from outside this file: the byte layout of
    viem's ABI codec ([abiBytes]) and its hash primitive,
    [getUserOperationHash], which may throw, and [./constants.js]. *)
Record Imports : Type := mkImports {
  keccak_256 : ByteArray -> ByteArray;
  abiBytes : list AbiParameter -> list AbiValue -> Hex;
  getUserOperationHash : UserOperation -> Address -> string -> Z -> Result Hex;
  MAX_FLAG : Hex;
  MODULAR_PERMISSION_VALIDATOR_ADDRESS : Address
}.

(** The value of a run of decimal digits. *)
Fixpoint decimalValue (digits : string) (acc : N) : option N :=
  match digits with
  | EmptyString => Some acc
  | String c rest =>
      let n := N_of_ascii c in
      if (48 <=? n)%N && (n <=? 57)%N
      then decimalValue rest (acc * 10 + (n - 48))%N
      else None
  end.

(** The width of an unsigned integer type: [uint48] has 48 bits, a bare
    [uint] 256. *)
Definition uintBits (type_ : string) : option N :=
  match type_ with
  | String "u" (String "i" (String "n" (String "t" EmptyString))) => Some 256%N
  | String "u" (String "i" (String "n" (String "t" digits))) => decimalValue digits 0
  | _ => None
  end.

(** viem's range check of one argument: a number given for [uintN] lies in
    [0, 2^N - 1]; other arguments are not numbers. *)
Definition integerInRange (parameter : AbiParameter) (value : AbiValue) : bool :=
  match value, uintBits (ap_type parameter) with
  | AbiNumber n, Some bits => (0 <=? n)%Z && (n <? 2 ^ Z.of_N bits)%Z
  | _, _ => true
  end.

Fixpoint integersInRange (parameters : list AbiParameter) (values : list AbiValue)
  : bool :=
  match parameters, values with
  | parameter :: parameters', value :: values' =>
      integerInRange parameter value && integersInRange parameters' values'
  | _, _ => true
  end.

Record Params : Type := mkParams {
  signer : ModularSigner;
  entryPoint : EntryPoint;
  policies : list Policy;
  validUntil : option Z;
  validAfter : option Z;
  validatorAddressParam : option Address
}.

(** What the closures returned by [createPermissionValidator] capture. *)
Record Plugin : Type := mkPlugin {
  p_params : Params;
  validatorAddress : Address;
  chainId : Z
}.

Definition entryPointMessage : string := "Only EntryPoint 0.6 is supported".

Definition zeroBytes32 : Hex :=
  "0x0000000000000000000000000000000000000000000000000000000000000000".

Section WithImports.
Variable imp : Imports.
Variable client : Client.

(** viem's [encodeAbiParameters(params, values)]: every integer argument
    is checked against the range of its type and refused with
    [IntegerOutOfRangeError] before anything is written.  The byte strings
    the plugin hands over (the flag, the signer contract, what the policies
    and the signer return) are laid out as they are, by [abiBytes]. *)
Definition encodeAbiParameters (parameters : list AbiParameter) (values : list AbiValue)
  : Result Hex :=
  if integersInRange parameters values
  then Ok (abiBytes imp parameters values)
  else Err IntegerOutOfRangeError.


Variable plugin : Plugin.

(** Lines 58-73; the pair is [(lastNonce, revoked)]. *)
Definition getNonces (kernelAccountAddress : Address) : Promise (Z * Z) :=
  readNonces client (validatorAddress plugin) kernelAccountAddress.

Definition enableDataParameters : list AbiParameter :=
  [ mkAbiParameter "policies" "bytes32[]";
    mkAbiParameter "signerData" "bytes";
    mkAbiParameter "policyData" "bytes[]" ].

(** Lines 93-97: the values handed to the codec. *)
Definition enableDataValues : list AbiValue :=
  [ AbiHexArray (map getPolicyInfoInBytes (policies (p_params plugin)));
    AbiHex (getSignerData (signer (p_params plugin)));
    AbiHexArray (map getPolicyData (policies (p_params plugin))) ].

(** The bytes of the ABI-encoded policies and signer data. *)
Definition encodedPolicies : Hex := abiBytes imp enableDataParameters enableDataValues.

(** Lines 75-101. *)
Definition getEnableData (kernelAccountAddress : option Address) : Promise Hex :=
  nonce_ <- match kernelAccountAddress with
            | Some (String c rest) =>
                n <- getNonces (String c rest) ;;
                ret (fst n + 1)%Z
            | _ => ret 0%Z
            end ;;
  lift (
    n <-- toHex (JsBigInt nonce_) ;;
    n <-- pad n 16 ;;
    va <-- toHex (JsNumber (nullish (validAfter (p_params plugin)) 0%Z)) ;;
    va <-- pad va 6 ;;
    vu <-- toHex (JsNumber (nullish (validUntil (p_params plugin)) 0%Z)) ;;
    vu <-- pad vu 6 ;;
    encoded <-- encodeAbiParameters enableDataParameters enableDataValues ;;
    Ok (concat [ n; MAX_FLAG imp; va; vu;
                 signerContractAddress (signer (p_params plugin));
                 encoded ])).

Definition permissionIdParameters : list AbiParameter :=
  [ mkAbiParameter "flag" "bytes12";
    mkAbiParameter "signer" "address";
    mkAbiParameter "validAfter" "uint48";
    mkAbiParameter "validUntil" "uint48";
    mkAbiParameter "policies" "bytes32[]";
    mkAbiParameter "signerData" "bytes";
    mkAbiParameter "policyData" "bytes[]" ].

(** Lines 114-122: the values handed to the codec. *)
Definition permissionIdValues : list AbiValue :=
  [ AbiHex (MAX_FLAG imp);
    AbiHex (signerContractAddress (signer (p_params plugin)));
    AbiNumber (nullish (validAfter (p_params plugin)) 0%Z);
    AbiNumber (nullish (validUntil (p_params plugin)) 0%Z);
    AbiHexArray (map getPolicyInfoInBytes (policies (p_params plugin)));
    AbiHex (getSignerData (signer (p_params plugin)));
    AbiHexArray (map getPolicyData (policies (p_params plugin))) ].

(** Lines 103-125: the validity window goes in as two [uint48], so a bound
    of 2^48 or more makes the codec throw. *)
Definition getPermissionId : Result Hex :=
  pIdData <-- encodeAbiParameters permissionIdParameters permissionIdValues ;;
  Ok (Viem.keccak256 (keccak_256 imp) (VString pIdData)).

(** Lines 165-171 and 182-188: the concatenation both signatures end in:
    the permission id, the signature data of every policy in order, then
    [last_]. *)
Definition signatureFrame (userOperation : UserOperation) (last_ : Hex) : Result Hex :=
  permissionId <-- getPermissionId ;;
  policyData <-- sequence (map (fun policy => getSignaturePolicyData policy userOperation)
                               (policies (p_params plugin))) ;;
  Ok (concat ([permissionId] ++ policyData ++ [last_])%list).

Definition signerSignMessage (raw : Hex) : Promise Hex :=
  perform (SignMessage (accountAddress (signer (p_params plugin))) raw) SignerError
          (accountSignMessage (signer (p_params plugin)) raw).

(** Lines 151-172: the hash is computed and signed before the permission
    id and the policy data are looked at. *)
Definition signUserOperation (userOperation : UserOperation) : Promise Hex :=
  userOpHash <- lift (getUserOperationHash imp (withEmptySignature userOperation)
                        (ep_address (entryPoint (p_params plugin)))
                        (ep_version (entryPoint (p_params plugin)))
                        (chainId plugin)) ;;
  signature_ <- signerSignMessage userOpHash ;;
  lift (signatureFrame userOperation signature_).

(** Lines 174-179; [0n] is falsy. *)
Definition getNonceKey (_accountAddress : option Address) (customNonceKey : option Z)
  : Promise Z :=
  match customNonceKey with
  | Some k => if (k =? 0)%Z then ret 0%Z else ret k
  | None => ret 0%Z
  end.

(** Lines 181-189. *)
Definition getStubSignature (userOperation : UserOperation) : Promise Hex :=
  lift (signatureFrame userOperation (getDummySignature (signer (p_params plugin)))).

(** Lines 197-231; [getPermissionId()] is evaluated with the arguments of
    the second read, before the read is issued. *)
Definition isEnabled (kernelAccountAddress : Address) (selector : Hex)
  : Promise bool :=
  tryCatch
    (execDetail <- readGetExecution client kernelAccountAddress selector ;;
     permissionId <- lift getPermissionId ;;
     permission <- readPermissions client (validatorAddress plugin)
                     permissionId kernelAccountAddress ;;
     ret (String.eqb (toLowerCase (exec_validator execDetail))
                     (toLowerCase (validatorAddress plugin))
          && negb (String.eqb (perm_3 permission) zeroBytes32)))
    (fun _ => ret false).

End WithImports.

(** [0 <= z < 2^(8 * size)]. *)
Definition fitsBytes (size : nat) (z : Z) : Prop :=
  (0 <= z < 16 ^ Z.of_nat (size * 2))%Z.

(** The permission id of a plugin whose validity window is in range: the
    hash of the encoded flag, signer contract, window, policies and signer
    data. *)
Definition permissionIdOf (imp : Imports) (plugin : Plugin) : Hex :=
  Viem.keccak256 (keccak_256 imp)
    (VString (abiBytes imp
       [ mkAbiParameter "flag" "bytes12";
         mkAbiParameter "signer" "address";
         mkAbiParameter "validAfter" "uint48";
         mkAbiParameter "validUntil" "uint48";
         mkAbiParameter "policies" "bytes32[]";
         mkAbiParameter "signerData" "bytes";
         mkAbiParameter "policyData" "bytes[]" ]
       [ AbiHex (MAX_FLAG imp);
         AbiHex (signerContractAddress (signer (p_params plugin)));
         AbiNumber (nullish (validAfter (p_params plugin)) 0%Z);
         AbiNumber (nullish (validUntil (p_params plugin)) 0%Z);
         AbiHexArray (map getPolicyInfoInBytes (policies (p_params plugin)));
         AbiHex (getSignerData (signer (p_params plugin)));
         AbiHexArray (map getPolicyData (policies (p_params plugin))) ])).

(** What follows the 16-byte nonce in the enable data: flag, validity
    window, signer contract and the encoded policies. *)
Definition enableDataTail (imp : Imports) (plugin : Plugin) : string :=
  replace0x (MAX_FLAG imp)
  ++ paddedHex (nullish (validAfter (p_params plugin)) 0%Z) 6
  ++ paddedHex (nullish (validUntil (p_params plugin)) 0%Z) 6
  ++ replace0x (signerContractAddress (signer (p_params plugin)))
  ++ replace0x (encodedPolicies imp plugin).

End ModularPermission.

(* ===================================================================== *)
(** ** packages/core/accounts/kernel/utils/plugins/ep0_6/getPluginsEnableTypedData.ts *)
(* ===================================================================== *)

Module EnableTypedData.

Local Open Scope promise_scope.

(** What viem's [SizeOverflowError] and a failed [BigInt(text)] carry. *)
Definition sizeOverflowMessage : string := "Size cannot exceed 32 bytes.".
Definition bigIntMessage : string := "Cannot convert the text to a BigInt".

(** viem's [size(hex)]: [Math.ceil((hex.length - 2) / 2)]. *)
Definition size (h : Hex) : nat := Nat.div2 (String.length h - 2 + 1).

(** The number a run of hexadecimal digits stands for. *)
Definition hexValue (digits : string) : Z := Z.of_N (HexString.Raw.to_N digits 0).

(** [BigInt(hex)] on text that begins with 0x: at least one digit, and
    digits only. *)
Definition toBigInt (hex : Hex) : Result Z :=
  match hex with
  | String "0" (String "x" (String c rest)) =>
      if allHexDigits (String c rest)
      then Ok (hexValue (String c rest))
      else Err (JsError bigIntMessage)
  | _ => Err (JsError bigIntMessage)
  end.

(** viem's [hexToBigInt(hex, { size })], unsigned. *)
Definition hexToBigInt (hex : Hex) (size_ : nat) : Result Z :=
  if (size_ <? size hex)%nat
  then Err (JsError sizeOverflowMessage)
  else toBigInt hex.

Record Action : Type := mkAction {
  action_selector : Hex;
  action_address : Address
}.

(** The part of a [KernelValidator] the function uses: its address and its
    [getEnableData(accountAddress)]. *)
Record KernelValidator : Type := mkKernelValidator {
  kv_address : Address;
  kv_getEnableData : option Address -> Promise Hex
}.

Record Domain : Type := mkDomain {
  domain_name : string;
  domain_version : string;
  domain_chainId : Z;
  domain_verifyingContract : Address
}.

Record Message : Type := mkMessage {
  msg_sig : Hex;
  msg_validatorData : Z;
  msg_executor : Address;
  msg_enableData : Hex
}.

Record TypedData : Type := mkTypedData {
  td_domain : Domain;
  td_types : list (string * list (string * string));
  td_message : Message;
  td_primaryType : string
}.

Record Args : Type := mkArgs {
  accountAddress : Address;
  chainId : Z;
  kernelVersion : string;
  action : Action;
  validator : KernelValidator;
  validUntil : option Z;
  validAfter : option Z
}.

(** Lines 52-63: [validatorData], the validity window and the validator
    address packed into one 32-byte number. *)
Definition validatorDataOf (args : Args) : Result Z :=
  vu <-- toHex (JsNumber (nullish (validUntil args) 0%Z)) ;;
  vu <-- pad vu 6 ;;
  va <-- toHex (JsNumber (nullish (validAfter args) 0%Z)) ;;
  va <-- pad va 6 ;;
  hexToBigInt (concat [vu; va; kv_address (validator args)]) 32.

(** Lines 19-69. *)
Definition getPluginsEnableTypedData (args : Args) : Promise TypedData :=
  validatorData <- lift (validatorDataOf args) ;;
  enableData <- kv_getEnableData (validator args) (Some (accountAddress args)) ;;
  ret {| td_domain :=
           {| domain_name := "Kernel";
              domain_version := kernelVersion args;
              domain_chainId := chainId args;
              domain_verifyingContract := accountAddress args |};
         td_types :=
           [ ("ValidatorApproved",
              [ ("sig", "bytes4");
                ("validatorData", "uint256");
                ("executor", "address");
                ("enableData", "bytes") ]) ];
         td_message :=
           {| msg_sig := action_selector (action args);
              msg_validatorData := validatorData;
              msg_executor := action_address (action args);
              msg_enableData := enableData |};
         td_primaryType := "ValidatorApproved" |}.

(** The session-key plugin as a validator: the [address] and
    [getEnableData] of the object [signerToSessionKeyValidator] returns
    (lines 241 and 244); the caller passes the account address only. *)
Definition sessionKeyValidator (client : Client) (plugin : SessionKey.Plugin)
  : KernelValidator :=
  {| kv_address := SessionKey.validatorAddress plugin;
     kv_getEnableData := fun account => SessionKey.getEnableData client plugin account None |}.

(** The modular plugin as a validator (lines 131 and 133 of its file). *)
Definition modularValidator (imp : ModularPermission.Imports) (client : Client)
    (plugin : ModularPermission.Plugin) : KernelValidator :=
  {| kv_address := ModularPermission.validatorAddress plugin;
     kv_getEnableData := ModularPermission.getEnableData imp client plugin |}.

(** [0 <= z < 2^(8 * size)]. *)
Definition fitsBytes (size_ : nat) (z : Z) : Prop :=
  (0 <= z < 16 ^ Z.of_nat (size_ * 2))%Z.

End EnableTypedData.

(* ===================================================================== *)
(** ** Layout helpers *)
(* ===================================================================== *)

Module Layouts.


(** [{ ...userOperation, signature }]. *)
Definition withSignature (u : UserOperation) (signature_ : Hex) : UserOperation :=
  mkUserOperation (sender u) (nonce u) (initCode u) (callData u)
    (callGasLimit u) (verificationGasLimit u) (preVerificationGas u)
    (maxFeePerGas u) (maxPriorityFeePerGas u) (paymasterAndData u) signature_.

(** The leaves a rule set of [n] permissions gives the tree: the
    placeholder alone, a leaf and its duplicate, or one leaf a permission. *)
Definition leafCount (n : nat) : nat :=
  match n with
  | 0 => 1
  | 1 => 2
  | _ => n
  end.

End Layouts.

(* ===================================================================== *)
(** ** A sample configuration, to run the plugins on *)
(* ===================================================================== *)

Module Sample.
Import SessionKey.

(** A stand-in for the hash primitive with its output width: the byte 1,
    then the first 31 bytes of the input, zero-filled. *)
Definition sampleHash (bs : ByteArray) : ByteArray :=
  x01 :: firstn 31 (bs ++ repeat x00 31).

Definition proofHashes (proof : option (list ProofItem)) : list Hex :=
  match proof with
  | None => []
  | Some items =>
      flat_map (fun item =>
                  match item with
                  | Sibling h => [h]
                  | SubProof hs => hs
                  end) items
  end.

(** A stand-in for [encodePermissionData]: target, selector, then the
    hashes of the proof. *)
Definition sampleEncode (m : Matching) (proof : option (list ProofItem)) : Hex :=
  let body :=
    match m with
    | One p => [target p; sig p]
    | Many ps => flat_map (fun p => [target p; sig p]) ps
    end in
  concat (body ++ proofHashes proof).

(** A stand-in for [findMatchingPermissions]: the first permission whose
    selector opens the call data. *)
Definition sampleFind (callData_ : Hex) (perms : option (list Permission))
  : option Matching :=
  match find (fun p => String.eqb (substring 0 10 callData_) (sig p)) (nullish perms []) with
  | Some p => Some (One p)
  | None => None
  end.

Definition sampleDummySignature : Hex := Utils.DUMMY_ECDSA_SIG.

(** What the sample signer answers, with the recovery byte 1, and the same
    signature with the recovery byte fixed to 28. *)
Definition sampleSignature : Hex :=
  "0x1b5fa2c9d0e874631b5fa2c9d0e874631b5fa2c9d0e874631b5fa2c9d0e874632a6eb3d8c1f795742a6eb3d8c1f795742a6eb3d8c1f795742a6eb3d8c1f7957401".

Definition sampleFixedSignature : Hex :=
  "0x1b5fa2c9d0e874631b5fa2c9d0e874631b5fa2c9d0e874631b5fa2c9d0e874632a6eb3d8c1f795742a6eb3d8c1f795742a6eb3d8c1f795742a6eb3d8c1f795741c".

Definition sampleValidator : Address := "0x5C06CE2b673fD5E6e56076e40DD46aB67f5a72A5".
Definition sampleSignerAddress : Address := "0x70997970C51812dc3A010C7d01b50e0d17dc79C8".
Definition sampleAccount : Address := "0x1234567890123456789012345678901234567890".

(** A stand-in for [getUserOperationHash]: a negative nonce cannot be
    encoded. *)
Definition sampleOperationHash (u : UserOperation) : Result Hex :=
  if (nonce u <? 0)%Z then Err IntegerOutOfRangeError
  else Ok (Viem.keccak256 sampleHash (VString (callData u))).

(** The hash of a sample operation that has one. *)
Definition hashOfSample (op : UserOperation) : Hex :=
  Viem.keccak256 sampleHash (VString (callData op)).

Definition sampleImports : Imports :=
  {| keccak_256 := sampleHash;
     encodePermissionData := fun m proof => Ok (sampleEncode m proof);
     findMatchingPermissions := sampleFind;
     fixSignedData := Utils.fixSignedData;
     getPermissionFromABI := fun _ => Ok (None, None);
     getUserOperationHash := fun u _ _ _ => sampleOperationHash u;
     toSigner := fun s => Resolved (signer_address s);
     DUMMY_ECDSA_SIG := Utils.DUMMY_ECDSA_SIG;
     SESSION_KEY_VALIDATOR_ADDRESS := sampleValidator |}.

Definition samplePermissionInput : PermissionInput :=
  {| in_target := "0xaaaaaaaaaaaaaaaaaaaaaaaaaaaaaaaaaaaaaaaa";
     in_valueLimit := Some 0%Z;
     in_sig := Some "0x11223344";
     in_rules := None;
     in_executionRule := None;
     in_operation := None;
     in_abiCall := mkAbiCall None None [] |}.

Definition sampleParams (inputs : list PermissionInput) : Params :=
  {| signer := mkSigner sampleSignerAddress;
     entryPoint := mkEntryPoint "0x5FF137D4b0FDCD49DcA30c7CF57E578a026d2789" "0.6";
     validatorData :=
       Some {| vd_validAfter := Some 100%Z;
               vd_validUntil := Some 200%Z;
               vd_paymaster := Some anyPaymaster;
               vd_permissions := Some inputs |};
     validatorAddressParam := None |}.

(** A chain that reports 4 as the last used nonce, the validator in lower
    case, and the given stored session. *)
Definition sampleClient (stored : SessionDataTuple) : Client :=
  {| chainIdOf := Resolved 1%Z;
     nonces := fun _ _ => Resolved (4%Z, 0%Z);
     getExecution := fun _ _ =>
       Resolved (mkExecutionDetail 0 0 zeroAddress (toLowerCase sampleValidator));
     sessionData := fun _ _ _ => Resolved stored;
     Chain.permissions := fun _ _ _ =>
       Resolved (mkPermissionTuple 4 "0xffff" sampleSignerAddress
                   "0x00000000000000000000000000000000000000000000000000000000000000aa");
     signRaw := fun _ _ => Resolved sampleSignature |}.

(** The plugin object for a list of configured permissions. *)
Definition samplePlugin (inputs : list PermissionInput) : Plugin :=
  let data :=
    {| validAfter := Some 100%Z;
       validUntil := Some 200%Z;
       paymaster := Some anyPaymaster;
       permissions :=
         Some (mapi (fun perm idx =>
                       {| target := in_target perm;
                          valueLimit := nullish (in_valueLimit perm) 0%Z;
                          sig := nullish (in_sig perm) "0x00000000";
                          rules := nullish (in_rules perm) [];
                          index := idx;
                          executionRule :=
                            nullish (in_executionRule perm) (mkExecutionRule 0 0 0);
                          operation := nullish (in_operation perm) Call;
                          abiCall := in_abiCall perm |}) 0 inputs) |} in
  {| p_signer := mkSigner sampleSignerAddress;
     p_entryPoint := mkEntryPoint "0x5FF137D4b0FDCD49DcA30c7CF57E578a026d2789" "0.6";
     validatorAddress := sampleValidator;
     viemSignerAddress := sampleSignerAddress;
     chainId := 1%Z;
     sessionKeyData := data;
     merkleTree :=
       match inputs, encodedPermissionData sampleImports (nullish (permissions data) []) with
       | _ :: _, Ok encoded =>
           MerkleTreeJs.newMerkleTree (map VString encoded)
             (keccak256 sampleImports) configuredOptions
       | _, _ => emptyTree
       end |}.

Definition onePermission : Plugin := samplePlugin [samplePermissionInput].

(** The one rule of [onePermission]. *)
Definition sampleRule : Permission :=
  {| target := "0xaaaaaaaaaaaaaaaaaaaaaaaaaaaaaaaaaaaaaaaa";
     valueLimit := 0;
     sig := "0x11223344";
     rules := [];
     index := 0;
     executionRule := mkExecutionRule 0 0 0;
     operation := Call;
     abiCall := mkAbiCall None None [] |}.
Definition noPermission : Plugin := samplePlugin [].

(** The session the validator has stored for [onePermission], with the
    given nonce. *)
Definition storedSession (nonce_ : Z) : SessionDataTuple :=
  {| sd_merkleRoot := MerkleTreeJs.getHexRoot (merkleTree onePermission);
     sd_validAfter := 100;
     sd_validUntil := 200;
     sd_paymaster := anyPaymaster;
     sd_nonce := nonce_ |}.

Definition matchingOperation : UserOperation :=
  mkUserOperation sampleAccount 0 "0x"
    "0x11223344000000000000000000000000000000000000000000000000000000000000002a"
    100000 100000 50000 1 1 "0x" "0x".

Definition unmatchedOperation : UserOperation :=
  mkUserOperation sampleAccount 0 "0x" "0xdeadbeef" 100000 100000 50000 1 1 "0x" "0x".

(** Call data that stands for a batch of no call, and a stand-in for
    [findMatchingPermissions] that answers it with the empty list of
    matches, as filtering no call does. *)
Definition emptyBatchCallData : Hex := "0xba7c0000".

Definition batchFind (callData_ : Hex) (perms : option (list Permission))
  : option Matching :=
  if String.eqb (substring 0 10 callData_) emptyBatchCallData
  then Some (Many [])
  else sampleFind callData_ perms.

Definition batchImports : Imports :=
  {| keccak_256 := sampleHash;
     encodePermissionData := fun m proof => Ok (sampleEncode m proof);
     findMatchingPermissions := batchFind;
     fixSignedData := Utils.fixSignedData;
     getPermissionFromABI := fun _ => Ok (None, None);
     getUserOperationHash := fun u _ _ _ => sampleOperationHash u;
     toSigner := fun s => Resolved (signer_address s);
     DUMMY_ECDSA_SIG := Utils.DUMMY_ECDSA_SIG;
     SESSION_KEY_VALIDATOR_ADDRESS := sampleValidator |}.

Definition emptyBatchOperation : UserOperation :=
  mkUserOperation sampleAccount 0 "0x" emptyBatchCallData 100000 100000 50000 1 1 "0x" "0x".

(** The text of a result, empty for a failure. *)
Definition textOf (r : Result Hex) : Hex :=
  match r with
  | Ok h => h
  | Err _ => ""
  end.

(** The modular plugin: one policy, a lower-case validator on chain. *)
Definition modularImports : ModularPermission.Imports :=
  {| ModularPermission.keccak_256 := sampleHash;
     ModularPermission.abiBytes := fun _ values =>
       concat (flat_map (fun v =>
                           match v with
                           | ModularPermission.AbiHex h => [h]
                           | ModularPermission.AbiHexArray hs => hs
                           | ModularPermission.AbiNumber n => [HexString.of_Z n]
                           end) values);
     ModularPermission.getUserOperationHash := fun u _ _ _ => sampleOperationHash u;
     ModularPermission.MAX_FLAG := "0xffff";
     ModularPermission.MODULAR_PERMISSION_VALIDATOR_ADDRESS := sampleValidator |}.

Definition modularPlugin : ModularPermission.Plugin :=
  {| ModularPermission.p_params :=
       {| ModularPermission.signer :=
            {| ModularPermission.signerContractAddress :=
                 "0xbbbbbbbbbbbbbbbbbbbbbbbbbbbbbbbbbbbbbbbb";
               ModularPermission.getSignerData := sampleSignerAddress;
               ModularPermission.getDummySignature := sampleDummySignature;
               ModularPermission.accountAddress := sampleSignerAddress;
               ModularPermission.accountSignMessage := fun _ => Resolved sampleSignature |};
          ModularPermission.entryPoint :=
            mkEntryPoint "0x5FF137D4b0FDCD49DcA30c7CF57E578a026d2789" "0.6";
          ModularPermission.policies :=
            [ ModularPermission.mkPolicy
                "0x00000000000000000000000000000000000000000000000000000000000000aa"
                "0x01" (fun _ => Ok "0x") ];
          ModularPermission.validUntil := Some 200%Z;
          ModularPermission.validAfter := None;
          ModularPermission.validatorAddressParam := None |};
     ModularPermission.validatorAddress := sampleValidator;
     ModularPermission.chainId := 1%Z |}.

End Sample.

(* ===================================================================== *)
(** ** More of the sample configuration *)
(* ===================================================================== *)

Module SampleMore.
Import SessionKey Sample EnableTypedData.

(** A stand-in for [getPermissionFromABI]: a named function gives the
    selector of transfer(address,uint256) and no parameter rule. *)
Definition notInAbiMessage : string := "mint not found in abi".

(** A stand-in for [encodePermissionData] that refuses a negative value
    limit. *)
Definition checkedEncode (m : Matching) (proof : option (list ProofItem)) : Result Hex :=
  if forallb (fun p => (0 <=? valueLimit p)%Z) (matchedRules (Some m))
  then Ok (sampleEncode m proof)
  else Err IntegerOutOfRangeError.

Definition abiImports : Imports :=
  {| keccak_256 := sampleHash;
     encodePermissionData := checkedEncode;
     findMatchingPermissions := sampleFind;
     fixSignedData := Utils.fixSignedData;
     getPermissionFromABI := fun call =>
       match functionName call with
       | Some "transfer" => Ok (Some "0xa9059cbb", Some [])
       | Some _ => Err (JsError notInAbiMessage)
       | None => Ok (None, None)
       end;
     getUserOperationHash := fun u _ _ _ => sampleOperationHash u;
     toSigner := fun s => Resolved (signer_address s);
     DUMMY_ECDSA_SIG := Utils.DUMMY_ECDSA_SIG;
     SESSION_KEY_VALIDATOR_ADDRESS := sampleValidator |}.

(** A permission written as a call signature, and one with nothing but a
    target. *)
Definition transferInput : PermissionInput :=
  {| in_target := "0xcccccccccccccccccccccccccccccccccccccccc";
     in_valueLimit := None;
     in_sig := None;
     in_rules := None;
     in_executionRule := None;
     in_operation := Some DelegateCall;
     in_abiCall := mkAbiCall (Some "erc20") (Some "transfer") [] |}.

Definition bareInput : PermissionInput :=
  {| in_target := "0xdddddddddddddddddddddddddddddddddddddddd";
     in_valueLimit := Some 7%Z;
     in_sig := None;
     in_rules := None;
     in_executionRule := None;
     in_operation := None;
     in_abiCall := mkAbiCall None None [] |}.

Definition threeInputs : list PermissionInput :=
  [samplePermissionInput; transferInput; bareInput].

(** A permission for a function the ABI does not have, and one with a
    value limit that cannot be encoded. *)
Definition mintInput : PermissionInput :=
  {| in_target := "0xcccccccccccccccccccccccccccccccccccccccc";
     in_valueLimit := None;
     in_sig := None;
     in_rules := None;
     in_executionRule := None;
     in_operation := None;
     in_abiCall := mkAbiCall (Some "erc20") (Some "mint") [] |}.

Definition negativeInput : PermissionInput :=
  {| in_target := "0xdddddddddddddddddddddddddddddddddddddddd";
     in_valueLimit := Some (-1)%Z;
     in_sig := None;
     in_rules := None;
     in_executionRule := None;
     in_operation := None;
     in_abiCall := mkAbiCall None None [] |}.

(** An operation whose nonce cannot be encoded. *)
Definition malformedOperation : UserOperation :=
  mkUserOperation sampleAccount (-1) "0x"
    "0x11223344000000000000000000000000000000000000000000000000000000000000002a"
    100000 100000 50000 1 1 "0x" "0x".

(** The modular plugin with a validity bound of 2^48. *)
Definition wideModularPlugin : ModularPermission.Plugin :=
  {| ModularPermission.p_params :=
       {| ModularPermission.signer :=
            ModularPermission.signer (ModularPermission.p_params modularPlugin);
          ModularPermission.entryPoint :=
            ModularPermission.entryPoint (ModularPermission.p_params modularPlugin);
          ModularPermission.policies :=
            ModularPermission.policies (ModularPermission.p_params modularPlugin);
          ModularPermission.validUntil := Some (2 ^ 48)%Z;
          ModularPermission.validAfter := None;
          ModularPermission.validatorAddressParam := None |};
     ModularPermission.validatorAddress := sampleValidator;
     ModularPermission.chainId := 1%Z |}.

(** The plugin the constructor returns for these imports and permissions
    ([noPermission] stands in should it fail). *)
Definition pluginOf (imp : Imports) (inputs : list PermissionInput) : Plugin :=
  match resultOf (signerToSessionKeyValidator imp (sampleClient (storedSession 5))
                    (sampleParams inputs)) with
  | Ok plugin => plugin
  | Err _ => noPermission
  end.

Definition threePermissions : Plugin := pluginOf abiImports threeInputs.

(** The third rule of [threePermissions]. *)
Definition bareRule : Permission :=
  {| target := "0xdddddddddddddddddddddddddddddddddddddddd";
     valueLimit := 7;
     sig := "0x00000000";
     rules := [];
     index := 2;
     executionRule := mkExecutionRule 0 0 0;
     operation := Call;
     abiCall := mkAbiCall None None [] |}.

Definition sampleAction : Action :=
  mkAction "0x11223344" "0xeeeeeeeeeeeeeeeeeeeeeeeeeeeeeeeeeeeeeeee".

(** Arguments of [getPluginsEnableTypedData] for the session-key plugin,
    with the given [validUntil]. *)
Definition sampleArgs (validUntil_ : Z) : Args :=
  {| accountAddress := sampleAccount;
     chainId := 1;
     kernelVersion := "0.2.4";
     action := sampleAction;
     validator := sessionKeyValidator (sampleClient (storedSession 5)) onePermission;
     validUntil := Some validUntil_;
     validAfter := None |}.

End SampleMore.

(** A concrete value fits its width: both bounds are computed. *)
Ltac fits :=
  unfold SessionKey.fitsBytes, ModularPermission.fitsBytes;
  split; [apply Z.leb_le | apply Z.ltb_lt]; reflexivity.

(* ===================================================================== *)
(** * Properties *)
(* ===================================================================== *)

(** ** Text and hexadecimal helpers *)

Module TextFacts.

Lemma length_append (a b : string) :
  String.length (a ++ b) = String.length a + String.length b.
Proof. induction a as [|c a IH]; simpl; [reflexivity | now rewrite IH]. Qed.

Lemma append_assoc (a b c : string) : (a ++ b) ++ c = a ++ (b ++ c).
Proof. induction a as [|x a IH]; simpl; [reflexivity | now rewrite IH]. Qed.

Lemma append_empty_r (a : string) : a ++ "" = a.
Proof. induction a as [|x a IH]; simpl; [reflexivity | now rewrite IH]. Qed.

Lemma length_repeatChar (n : nat) (c : ascii) : String.length (repeatChar n c) = n.
Proof. induction n as [|n IH]; simpl; [reflexivity | now rewrite IH]. Qed.

Lemma length_padStart (s : string) (n : nat) (c : ascii) :
  String.length s <= n -> String.length (padStart s n c) = n.
Proof.
  intros Hle. unfold padStart. rewrite length_append, length_repeatChar. lia.
Qed.

Lemma padStart_full (s : string) (n : nat) (c : ascii) :
  n <= String.length s -> padStart s n c = s.
Proof.
  intros Hle. unfold padStart.
  replace (n - String.length s) with 0 by lia. reflexivity.
Qed.

Lemma replace0x_prefixed (s : string) : replace0x ("0x" ++ s) = s.
Proof. reflexivity. Qed.

Lemma pad_fits (h : Hex) (size : nat) :
  String.length (replace0x h) <= size * 2 ->
  pad h size = Ok ("0x" ++ padStart (replace0x h) (size * 2) "0").
Proof.
  intros Hle. unfold pad.
  destruct (Nat.ltb_spec (size * 2) (String.length (replace0x h))); [lia | reflexivity].
Qed.

Lemma pad_too_long (h : Hex) (size : nat) :
  size * 2 < String.length (replace0x h) ->
  pad h size = Err SizeExceedsPaddingSizeError.
Proof.
  intros Hlt. unfold pad.
  destruct (Nat.ltb_spec (size * 2) (String.length (replace0x h))); [reflexivity | lia].
Qed.

Lemma of_Z_prefixed (z : Z) : (0 <= z)%Z -> HexString.of_Z z = "0x" ++ hexDigitsOf z.
Proof. destruct z; simpl; intros H; try reflexivity. lia. Qed.

Lemma length_of_pos : forall (p : positive) (rest : string) (k : nat),
  (Z.pos p < 16 ^ Z.of_nat k)%Z ->
  String.length (HexString.Raw.of_pos p rest) <= k + String.length rest.
Proof.
  fix IH 1. intros p rest k Hlt.
  destruct k as [|k]; [simpl in Hlt; lia|].
  rewrite Nat2Z.inj_succ, Z.pow_succ_r in Hlt by lia.
  do 4 try destruct p as [p|p|]; simpl; try lia;
    (etransitivity; [apply (IH p _ k); lia | simpl; lia]).
Qed.

Lemma length_hexDigitsOf (z : Z) (k : nat) :
  (0 <= z < 16 ^ Z.of_nat k)%Z -> 0 < k -> String.length (hexDigitsOf z) <= k.
Proof.
  intros [H0 Hlt] Hk. destruct z as [|p|p]; simpl; try lia.
  pose proof (length_of_pos p "" k Hlt) as H. simpl in H. lia.
Qed.

Lemma toHex_number (z : Z) :
  (0 <= z <= MAX_SAFE_INTEGER)%Z -> toHex (JsNumber z) = Ok ("0x" ++ hexDigitsOf z).
Proof.
  intros [H0 Hmax]. unfold toHex. simpl.
  destruct (Z.ltb_spec MAX_SAFE_INTEGER z); [lia|].
  destruct (Z.ltb_spec z 0); [lia|]. simpl.
  now rewrite of_Z_prefixed.
Qed.

Lemma toHex_bigint (z : Z) :
  (0 <= z)%Z -> toHex (JsBigInt z) = Ok ("0x" ++ hexDigitsOf z).
Proof.
  intros H0. unfold toHex. simpl.
  destruct (Z.ltb_spec z 0); [lia|]. simpl.
  now rewrite of_Z_prefixed.
Qed.

Lemma toHex_negative (v : Numeric) :
  (numericValue v < 0)%Z -> toHex v = Err IntegerOutOfRangeError.
Proof.
  intros Hneg. unfold toHex.
  destruct (Z.ltb_spec (numericValue v) 0); [|lia].
  now rewrite orb_true_r.
Qed.

Lemma length_paddedHex (z : Z) (size : nat) :
  (0 <= z < 16 ^ Z.of_nat (size * 2))%Z -> 0 < size ->
  String.length (paddedHex z size) = size * 2.
Proof.
  intros Hz Hs. apply length_padStart. apply length_hexDigitsOf; [assumption | lia].
Qed.

Lemma pad_hexDigits (z : Z) (size : nat) :
  (0 <= z < 16 ^ Z.of_nat (size * 2))%Z -> 0 < size ->
  pad ("0x" ++ hexDigitsOf z) size = Ok ("0x" ++ paddedHex z size).
Proof.
  intros Hz Hs. rewrite pad_fits; [reflexivity|].
  rewrite replace0x_prefixed. apply length_hexDigitsOf; [assumption | lia].
Qed.

Lemma byteHex_decode (b : byte) (rest : string) :
  bytesOfHexDigits (byteHex b ++ rest) = b :: bytesOfHexDigits rest.
Proof. destruct b; reflexivity. Qed.

Lemma hexOfBytes_cons (b : byte) (bs : list byte) :
  hexOfBytes (b :: bs) = byteHex b ++ hexOfBytes bs.
Proof. reflexivity. Qed.

Lemma bytesOfHexDigits_hexOfBytes (bs : list byte) :
  bytesOfHexDigits (hexOfBytes bs) = bs.
Proof.
  induction bs as [|b bs IH]; [reflexivity|].
  rewrite hexOfBytes_cons, byteHex_decode. now rewrite IH.
Qed.

Lemma allHexDigits_append (a b : string) :
  allHexDigits (a ++ b) = allHexDigits a && allHexDigits b.
Proof.
  induction a as [|c a IH]; simpl; [reflexivity|].
  rewrite IH. now rewrite andb_assoc.
Qed.

Lemma allHexDigits_byteHex (b : byte) : allHexDigits (byteHex b) = true.
Proof. destruct b; reflexivity. Qed.

Lemma allHexDigits_hexOfBytes (bs : list byte) : allHexDigits (hexOfBytes bs) = true.
Proof.
  induction bs as [|b bs IH]; [reflexivity|].
  now rewrite hexOfBytes_cons, allHexDigits_append, allHexDigits_byteHex, IH.
Qed.

Lemma length_hexOfBytes (bs : list byte) :
  String.length (hexOfBytes bs) = 2 * List.length bs.
Proof.
  induction bs as [|b bs IH]; [reflexivity|].
  rewrite hexOfBytes_cons, length_append, IH. simpl. lia.
Qed.

Lemma hexOfBytes_inj (a b : list byte) : hexOfBytes a = hexOfBytes b -> a = b.
Proof.
  intros H. rewrite <- (bytesOfHexDigits_hexOfBytes a), <- (bytesOfHexDigits_hexOfBytes b).
  now rewrite H.
Qed.

Lemma concat_three (a b c : Hex) :
  concat [a; b; c] = "0x" ++ replace0x a ++ replace0x b ++ replace0x c.
Proof.
  unfold concat. cbn [fold_left]. f_equal.
  change ("" ++ replace0x a) with (replace0x a). now rewrite append_assoc.
Qed.

Lemma concat_six (a b c d e g : Hex) :
  concat [a; b; c; d; e; g]
  = "0x" ++ replace0x a ++ replace0x b ++ replace0x c
         ++ replace0x d ++ replace0x e ++ replace0x g.
Proof.
  unfold concat. cbn [fold_left]. f_equal.
  change ("" ++ replace0x a) with (replace0x a). now rewrite !append_assoc.
Qed.

(** [pad] and [toHex] on the values of viem's documentation. *)
Example pad_left : pad "0xa4e12a45" 8 = Ok "0x00000000a4e12a45".
Proof. reflexivity. Qed.

Example pad_refuses : pad "0x1a4e12a45" 4 = Err SizeExceedsPaddingSizeError.
Proof. reflexivity. Qed.

Example toHex_420 : toHex (JsNumber 420) = Ok "0x1a4".
Proof. reflexivity. Qed.

Example toHex_unsafe : toHex (JsNumber (2 ^ 53)) = Err IntegerOutOfRangeError.
Proof. reflexivity. Qed.

Example concat_two : concat ["0x00000069"; "0x00000420"] = "0x0000006900000420".
Proof. reflexivity. Qed.

End TextFacts.

(** ** The tree *)

Module TreeFacts.
Import MerkleTreeJs TextFacts.
Local Open Scope nat_scope.

Lemma compare_refl (b : Buffer) : compare b b = Eq.
Proof.
  induction b as [|x b IH]; simpl; [reflexivity|].
  now rewrite N.compare_refl.
Qed.

(** Through [bufferifyFn], viem's [keccak256] is the primitive on bytes. *)
Lemma hashFn_keccak256 (k : ByteArray -> ByteArray) (v : Value) :
  hashFn (Viem.keccak256 k) v = k (hashInput v).
Proof.
  unfold hashFn, Viem.keccak256, bytesToHex, isHexString.
  rewrite replace0x_prefixed. simpl replaceLeading0x.
  now rewrite allHexDigits_hexOfBytes, bytesOfHexDigits_hexOfBytes.
Qed.

Lemma bufferify_keccak256 (k : ByteArray -> ByteArray) (v : Value) :
  bufferify (VString (Viem.keccak256 k v)) = k (hashInput v).
Proof.
  unfold bufferify, Viem.keccak256, bytesToHex, isHexString. simpl replaceLeading0x.
  now rewrite allHexDigits_hexOfBytes, bytesOfHexDigits_hexOfBytes.
Qed.

Section Layers.
Variable f : Value -> string.
Variable options : Options.

Lemma pairLevel_length_aux (n : nat) :
  forall nodes, List.length nodes <= n ->
    List.length (pairLevel f options nodes) <= List.length nodes
    /\ (2 <= List.length nodes ->
        List.length (pairLevel f options nodes) < List.length nodes)
    /\ (nodes <> [] -> pairLevel f options nodes <> []).
Proof.
  induction n as [|n IH]; intros nodes Hn.
  - destruct nodes; simpl in *; [|lia]. repeat split; auto; lia.
  - destruct nodes as [|a [|b rest]]; simpl in *.
    + repeat split; auto; lia.
    + repeat split; auto; lia.
    + destruct (IH rest ltac:(lia)) as (Hle & _ & _).
      repeat split; try lia. discriminate.
Qed.

Lemma pairLevel_length (nodes : list Buffer) :
  List.length (pairLevel f options nodes) <= List.length nodes.
Proof. apply (pairLevel_length_aux (List.length nodes)). lia. Qed.

Lemma pairLevel_shorter (nodes : list Buffer) :
  2 <= List.length nodes ->
  List.length (pairLevel f options nodes) < List.length nodes.
Proof. apply (pairLevel_length_aux (List.length nodes)). lia. Qed.

Lemma pairLevel_nonempty (nodes : list Buffer) :
  nodes <> [] -> pairLevel f options nodes <> [].
Proof. apply (pairLevel_length_aux (List.length nodes)). lia. Qed.

Lemma layerLimit_bounds (layerIndex n : nat) :
  2 <= n -> 2 <= layerLimit options layerIndex n <= n.
Proof.
  intros Hn. unfold layerLimit.
  destruct (complete options && (layerIndex =? 1) && negb (isPowerOfTwo n)); [|lia].
  destruct (Nat.log2_up_spec n ltac:(lia)) as [Hlow Hhigh].
  destruct (Nat.log2_up n) as [|k]; simpl in Hlow, Hhigh; [lia|].
  rewrite Nat.pow_succ_r'. lia.
Qed.

(** Every round of the loop shortens the layer. *)
Lemma nextLayer_shorter (layerIndex : nat) (nodes : list Buffer) :
  2 <= List.length nodes ->
  List.length (nextLayer f options layerIndex nodes) < List.length nodes.
Proof.
  intros Hn. unfold nextLayer.
  pose proof (layerLimit_bounds layerIndex _ Hn) as [Hlo Hhi].
  set (limit := layerLimit options layerIndex (List.length nodes)) in *.
  rewrite length_app, length_skipn.
  assert (Hf : List.length (firstn limit nodes) = limit)
    by (rewrite length_firstn; lia).
  pose proof (pairLevel_shorter (firstn limit nodes) ltac:(lia)). lia.
Qed.

Lemma createLayers_fuel_any (fuel1 : nat) :
  forall fuel2 layerIndex nodes,
    List.length nodes <= fuel1 -> List.length nodes <= fuel2 ->
    createLayers f options fuel1 layerIndex nodes
    = createLayers f options fuel2 layerIndex nodes.
Proof.
  induction fuel1 as [|fuel1 IH]; intros fuel2 layerIndex nodes H1 H2.
  - destruct nodes; [|simpl in H1; lia]. destruct fuel2; reflexivity.
  - destruct fuel2 as [|fuel2].
    + destruct nodes; [reflexivity | simpl in H2; lia].
    + simpl. destruct (Nat.leb_spec (List.length nodes) 1); [reflexivity|].
      pose proof (nextLayer_shorter layerIndex nodes ltac:(lia)) as Hs.
      f_equal. apply IH; lia.
Qed.

(** The loop has stopped by itself once the fuel reaches the layer size:
    more fuel changes nothing. *)
Lemma createLayers_fuel (fuel layerIndex : nat) (nodes : list Buffer) :
  List.length nodes <= fuel ->
  createLayers f options fuel layerIndex nodes
  = createLayers f options (List.length nodes) layerIndex nodes.
Proof. intros Hle. apply createLayers_fuel_any; lia. Qed.

Lemma nextLayer_nonempty (layerIndex : nat) (nodes : list Buffer) :
  2 <= List.length nodes -> nextLayer f options layerIndex nodes <> [].
Proof.
  intros Hn. unfold nextLayer.
  pose proof (layerLimit_bounds layerIndex (List.length nodes) Hn) as [Hlo Hhi].
  intros Happ. apply app_eq_nil in Happ as [Hp _].
  revert Hp. apply pairLevel_nonempty.
  intros Hf. apply (f_equal (@List.length _)) in Hf.
  rewrite length_firstn in Hf. simpl in Hf. lia.
Qed.

Lemma last_layer_single (fuel : nat) :
  forall layerIndex nodes, List.length nodes <= fuel -> nodes <> [] ->
    List.length (last (nodes :: createLayers f options fuel layerIndex nodes) []) = 1.
Proof.
  induction fuel as [|fuel IH]; intros layerIndex nodes Hle Hne.
  - destruct nodes; [congruence | simpl in Hle; lia].
  - simpl createLayers.
    destruct (Nat.leb_spec (List.length nodes) 1) as [H1|H1].
    + destruct nodes as [|a [|b rest]]; simpl in *; [congruence | reflexivity | lia].
    + pose proof (nextLayer_shorter layerIndex nodes ltac:(lia)) as Hs.
      pose proof (nextLayer_nonempty layerIndex nodes ltac:(lia)) as Hnext.
      set (next := nextLayer f options layerIndex nodes) in *.
      specialize (IH (S layerIndex) next ltac:(lia) Hnext).
      change (last (nodes :: next :: createLayers f options fuel (S layerIndex) next) [])
        with (last (next :: createLayers f options fuel (S layerIndex) next) []).
      exact IH.
Qed.

(** The last layer the loop leaves has a single node. *)
Lemma createHashes_single_root (nodes : list Buffer) :
  nodes <> [] -> List.length (last (createHashes f options nodes) []) = 1.
Proof. intros Hne. unfold createHashes. now apply last_layer_single. Qed.

(** A property of the leaves that the hash function establishes holds of
    every node of every layer, the root included. *)
Section Invariant.
Variable P : Buffer -> Prop.
Hypothesis P_hash : forall v, P (hashFn f v).

Lemma pairLevel_Forall_aux (n : nat) :
  forall nodes, List.length nodes <= n -> Forall P nodes ->
    Forall P (pairLevel f options nodes).
Proof.
  induction n as [|n IH]; intros nodes Hn HP.
  - destruct nodes; simpl in *; [constructor | lia].
  - destruct nodes as [|a [|b rest]]; simpl in *; auto.
    constructor; [apply P_hash|].
    apply IH; [lia|]. inversion HP as [|? ? _ HP']. now inversion HP'.
Qed.

Lemma nextLayer_Forall (layerIndex : nat) (nodes : list Buffer) :
  Forall P nodes -> Forall P (nextLayer f options layerIndex nodes).
Proof.
  intros HP. unfold nextLayer.
  set (limit := layerLimit options layerIndex (List.length nodes)).
  rewrite <- (firstn_skipn limit nodes) in HP.
  apply Forall_app in HP as [Hfirst Hrest].
  apply Forall_app. split; [|assumption].
  now apply (pairLevel_Forall_aux (List.length (firstn limit nodes))).
Qed.

Lemma createLayers_Forall (fuel : nat) :
  forall layerIndex nodes, Forall P nodes ->
    Forall (Forall P) (createLayers f options fuel layerIndex nodes).
Proof.
  induction fuel as [|fuel IH]; intros layerIndex nodes HP; simpl; [constructor|].
  destruct (List.length nodes <=? 1); [constructor|].
  constructor; [now apply nextLayer_Forall|].
  apply IH. now apply nextLayer_Forall.
Qed.

Lemma getRoot_invariant (nodes : list Buffer) :
  nodes <> [] -> Forall P nodes ->
  P (getRoot (mkMerkleTree nodes (createHashes f options nodes))).
Proof.
  intros Hne HP. unfold getRoot. simpl layers.
  pose proof (createHashes_single_root nodes Hne) as Hlen.
  assert (Hall : Forall (Forall P) (createHashes f options nodes)).
  { unfold createHashes. constructor; [assumption|]. now apply createLayers_Forall. }
  assert (Hlast : Forall P (last (createHashes f options nodes) [])).
  { rewrite Forall_forall in Hall. apply Hall.
    unfold createHashes. destruct (createLayers f options (List.length nodes) 1 nodes) eqn:E.
    - simpl. now left.
    - destruct (@exists_last _ (nodes :: l :: l0) ltac:(discriminate)) as (front & x & Hx).
      rewrite Hx, last_last. apply in_or_app. right. now left. }
  destruct (last (createHashes f options nodes) []) as [|root rest]; [simpl in Hlen; lia|].
  now inversion Hlast.
Qed.

End Invariant.
End Layers.

End TreeFacts.

(** ** Proofs of inclusion, for any number of leaves *)

Module ProofFacts.
Import MerkleTreeJs TextFacts TreeFacts.
Local Open Scope nat_scope.

Lemma byte_to_N_inj (a b : byte) : Byte.to_N a = Byte.to_N b -> a = b.
Proof.
  intros H. pose proof (Byte.of_to_N a) as Ha. rewrite H, Byte.of_to_N in Ha.
  now inversion Ha.
Qed.

Lemma compare_eq (a : Buffer) : forall b, compare a b = Eq -> a = b.
Proof.
  induction a as [|x a IH]; intros [|y b] H; simpl in H; try discriminate; [reflexivity|].
  destruct (N.compare_spec (Byte.to_N x) (Byte.to_N y)) as [Hxy| |]; try discriminate.
  apply byte_to_N_inj in Hxy. subst. now rewrite (IH b H).
Qed.

Lemma compare_antisym (a : Buffer) : forall b, compare b a = CompOpp (compare a b).
Proof.
  induction a as [|x a IH]; intros [|y b]; simpl; try reflexivity.
  rewrite (N.compare_antisym (Byte.to_N x) (Byte.to_N y)).
  destruct (Byte.to_N x ?= Byte.to_N y)%N; simpl; auto.
Qed.

Section Sorted.
Variable f : Value -> string.
Variable options : Options.
Hypothesis sorted : sortPairs options = true.
Hypothesis plain : complete options = false.

(** The neighbour [getProof] looks at. *)
Let pairIndex (i : nat) : nat := if Nat.odd i then i - 1 else i + 1.

Lemma verifyStep_left (l r : Buffer) :
  verifyStep f options l r = hashFn f (VBuffer (combine options l r)).
Proof.
  unfold verifyStep, combine, sortPair. rewrite sorted.
  destruct (compare l r) eqn:Hc; cbn [List.concat]; rewrite ?app_nil_r; try reflexivity.
  apply compare_eq in Hc. now subst.
Qed.

Lemma verifyStep_right (l r : Buffer) :
  verifyStep f options r l = hashFn f (VBuffer (combine options l r)).
Proof.
  unfold verifyStep, combine, sortPair. rewrite sorted, (compare_antisym l r).
  destruct (compare l r) eqn:Hc; cbn [CompOpp List.concat]; rewrite ?app_nil_r;
    reflexivity.
Qed.

Lemma div2_succ_succ (i : nat) : S (S i) / 2 = S (i / 2).
Proof.
  replace (S (S i)) with (1 * 2 + i) by lia.
  rewrite Nat.div_add_l by lia. reflexivity.
Qed.

(** One layer up: the parent of a node is the node hashed with its
    neighbour, or the node itself when it has none. *)
Lemma pairLevel_parent (n : nat) :
  forall nodes i x,
    List.length nodes <= n ->
    nth_error nodes i = Some x ->
    nth_error (pairLevel f options nodes) (i / 2)
    = Some (match nth_error nodes (pairIndex i) with
            | Some data => verifyStep f options x data
            | None => x
            end).
Proof.
  unfold pairIndex.
  induction n as [|n IH]; intros nodes i x Hlen Hx.
  - destruct nodes; [destruct i; discriminate | simpl in Hlen; lia].
  - destruct nodes as [|a [|b rest]].
    + destruct i; discriminate.
    + destruct i as [|i]; [|destruct i; discriminate].
      simpl in Hx. inversion Hx. subst. reflexivity.
    + destruct i as [|[|i]].
      * simpl in Hx. inversion Hx. subst. cbn. now rewrite verifyStep_left.
      * simpl in Hx. inversion Hx. subst. cbn. now rewrite verifyStep_right.
      * rewrite div2_succ_succ. cbn [pairLevel nth_error].
        change (nth_error (a :: b :: rest) (S (S i))) with (nth_error rest i) in Hx.
        simpl in Hlen. rewrite (IH rest i x ltac:(lia) Hx).
        f_equal. rewrite Nat.odd_succ_succ.
        destruct (Nat.odd i) eqn:Hodd.
        -- destruct i as [|i]; [discriminate|].
           replace (S (S (S i)) - 1) with (S (S i)) by lia.
           replace (S i - 1) with i by lia. reflexivity.
        -- replace (S (S i) + 1) with (S (S (i + 1))) by lia. reflexivity.
Qed.

Lemma nextLayer_plain (layerIndex : nat) (nodes : list Buffer) :
  nextLayer f options layerIndex nodes = pairLevel f options nodes.
Proof.
  unfold nextLayer, layerLimit. rewrite plain. cbn [andb].
  now rewrite firstn_all, skipn_all, app_nil_r.
Qed.

(** The first node of the last layer. *)
Let rootOf (ls : list (list Buffer)) : Buffer :=
  match last ls [] with
  | root :: _ => root
  | [] => []
  end.

(** Walking the proof of the node at [i] from that node ends at the root. *)
Lemma proofPath_reaches_root (fuel : nat) :
  forall layerIndex nodes i x,
    List.length nodes <= fuel ->
    nth_error nodes i = Some x ->
    fold_left (verifyStep f options)
      (proofPath (nodes :: createLayers f options fuel layerIndex nodes) i) x
    = rootOf (nodes :: createLayers f options fuel layerIndex nodes).
Proof.
  unfold rootOf.
  induction fuel as [|fuel IH]; intros layerIndex nodes i x Hlen Hx.
  - destruct nodes; [destruct i; discriminate | simpl in Hlen; lia].
  - cbn [createLayers].
    destruct (Nat.leb_spec (List.length nodes) 1) as [H1|H1].
    + destruct nodes as [|a [|b rest]]; [destruct i; discriminate | | simpl in H1; lia].
      destruct i as [|i]; [|destruct i; discriminate].
      simpl in Hx. inversion Hx. subst. reflexivity.
    + rewrite nextLayer_plain.
      pose proof (pairLevel_parent (List.length nodes) nodes i x (le_n _) Hx) as Hparent.
      pose proof (pairLevel_shorter f options nodes ltac:(lia)) as Hshort.
      set (next := pairLevel f options nodes) in *.
      set (upper := createLayers f options fuel (S layerIndex) next).
      change (last (nodes :: next :: upper) []) with (last (next :: upper) []).
      cbn [proofPath]. fold (pairIndex i).
      destruct (nth_error nodes (pairIndex i)) as [data|]; cbn [fold_left];
        apply (IH (S layerIndex) next (i / 2) _ ltac:(lia) Hparent).
Qed.

Lemma leafIndexFrom_some (leaf : Buffer) (ls : list Buffer) :
  forall i index j,
    leafIndexFrom leaf ls i index = Some j ->
    index = Some j \/ (i <= j /\ nth_error ls (j - i) = Some leaf).
Proof.
  induction ls as [|x ls IH]; intros i index j H; simpl in H; [now left|].
  apply IH in H as [H | [Hle Hnth]].
  - destruct (compare leaf x) eqn:Hc; try (now left).
    inversion H. subst. right. split; [lia|].
    apply compare_eq in Hc. subst. now rewrite Nat.sub_diag.
  - right. split; [lia|].
    replace (j - i) with (S (j - S i)) by lia. exact Hnth.
Qed.

Lemma leafIndexFrom_kept (leaf : Buffer) (ls : list Buffer) :
  forall i index, index <> None -> leafIndexFrom leaf ls i index <> None.
Proof.
  induction ls as [|x ls IH]; intros i index H; simpl; [exact H|].
  apply IH. destruct (compare leaf x); try exact H. discriminate.
Qed.

Lemma leafIndexFrom_found (leaf : Buffer) (ls : list Buffer) :
  forall i index, In leaf ls -> leafIndexFrom leaf ls i index <> None.
Proof.
  induction ls as [|x ls IH]; intros i index Hin; [contradiction|].
  simpl. destruct Hin as [-> | Hin].
  - rewrite compare_refl. apply leafIndexFrom_kept. discriminate.
  - now apply IH.
Qed.

(** Every leaf of a tree built with sorted pairs has a proof that
    [verify] accepts against the root. *)
Lemma leaf_proof_verifies (input : list Value) (target : Value) :
  let tree := processLeaves f options input in
  In (bufferify target) (leaves tree) ->
  verify f options (getProof tree target) (bufferify target) (getRoot tree) = true.
Proof.
  intros tree Hin. unfold getProof.
  destruct (leafIndex (bufferify target) (leaves tree)) as [j|] eqn:Hj.
  - unfold leafIndex in Hj.
    apply leafIndexFrom_some in Hj as [Hj | [_ Hnth]]; [discriminate|].
    rewrite Nat.sub_0_r in Hnth.
    unfold verify, getRoot, tree, processLeaves in *. cbn [leaves layers] in *.
    unfold createHashes.
    rewrite (proofPath_reaches_root _ 1 _ j _ (le_n _) Hnth).
    unfold rootOf. now rewrite compare_refl.
  - exfalso. revert Hj. now apply leafIndexFrom_found.
Qed.

End Sorted.

(** The hex form of a proof reads back as the proof. *)
Lemma getHexProof_reads_back (t : MerkleTree) (target : Value) :
  map (fun h => bufferify (VString h)) (getHexProof t target) = getProof t target.
Proof.
  unfold getHexProof. rewrite map_map.
  rewrite <- (map_id (getProof t target)) at 2. apply map_ext. intros b.
  unfold bufferify, bufferToHex, isHexString. cbn [replaceLeading0x].
  change (replaceLeading0x ("0x" ++ hexOfBytes b)) with (hexOfBytes b).
  now rewrite allHexDigits_hexOfBytes, bytesOfHexDigits_hexOfBytes.
Qed.

End ProofFacts.

(** ** The numbers behind hexadecimal text *)

Module ValueFacts.
Import TextFacts EnableTypedData.
Local Open Scope N_scope.

Lemma to_N_app (a b : string) :
  forall acc, HexString.Raw.to_N (a ++ b) acc
              = HexString.Raw.to_N b (HexString.Raw.to_N a acc).
Proof. induction a as [|c a IH]; intros acc; simpl; [reflexivity | apply IH]. Qed.

Lemma digit_bound (c : ascii) (v : N) :
  HexString.ascii_to_digit c = Some v -> v < 16.
Proof.
  unfold HexString.ascii_to_digit.
  repeat match goal with
         | |- context [ascii_dec ?a ?b] => destruct (ascii_dec a b)
         end; intros H; inversion H; reflexivity.
Qed.

Lemma to_N_shift (s : string) :
  allHexDigits s = true ->
  forall acc, HexString.Raw.to_N s acc
              = acc * 16 ^ N.of_nat (String.length s) + HexString.Raw.to_N s 0.
Proof.
  induction s as [|c s IH]; intros Hhex acc.
  - simpl. lia.
  - simpl in Hhex. apply andb_true_iff in Hhex as [Hc Hs]. unfold isHexDigit in Hc.
    cbn [HexString.Raw.to_N String.length].
    destruct (HexString.ascii_to_digit c) as [v|]; [|discriminate].
    rewrite (IH Hs (v + 16 * acc)), (IH Hs (v + 16 * 0)).
    rewrite Nat2N.inj_succ, N.pow_succ_r'. lia.
Qed.

Lemma to_N_bound (s : string) :
  allHexDigits s = true ->
  HexString.Raw.to_N s 0 < 16 ^ N.of_nat (String.length s).
Proof.
  induction s as [|c s IH]; intros Hhex.
  - simpl. lia.
  - simpl in Hhex. apply andb_true_iff in Hhex as [Hc Hs]. unfold isHexDigit in Hc.
    cbn [HexString.Raw.to_N String.length].
    destruct (HexString.ascii_to_digit c) as [v|] eqn:Hv; [|discriminate].
    apply digit_bound in Hv. specialize (IH Hs).
    rewrite (to_N_shift s Hs), Nat2N.inj_succ, N.pow_succ_r'. nia.
Qed.

Lemma to_N_zeros (n : nat) : HexString.Raw.to_N (repeatChar n "0") 0 = 0.
Proof. induction n as [|n IH]; [reflexivity | exact IH]. Qed.

Lemma allHexDigits_zeros (n : nat) : allHexDigits (repeatChar n "0") = true.
Proof. induction n as [|n IH]; [reflexivity | exact IH]. Qed.

Lemma allHexDigits_of_pos : forall (p : positive) (rest : string),
  allHexDigits (HexString.Raw.of_pos p rest) = allHexDigits rest.
Proof.
  fix IH 1. intros p rest.
  do 4 try destruct p as [p|p|]; simpl; try reflexivity; rewrite IH; reflexivity.
Qed.

Lemma allHexDigits_hexDigitsOf (z : Z) : allHexDigits (hexDigitsOf z) = true.
Proof. destruct z; simpl; try reflexivity. apply allHexDigits_of_pos. Qed.

Lemma allHexDigits_paddedHex (z : Z) (k : nat) : allHexDigits (paddedHex z k) = true.
Proof.
  unfold paddedHex, padStart.
  now rewrite allHexDigits_append, allHexDigits_zeros, allHexDigits_hexDigitsOf.
Qed.

Lemma hexValue_hexDigitsOf (z : Z) : (0 <= z)%Z -> hexValue (hexDigitsOf z) = z.
Proof.
  intros Hz. unfold hexValue. destruct z as [|p|p]; [reflexivity | | lia].
  simpl hexDigitsOf. now rewrite (HexString.Raw.to_N_of_pos p "" 0).
Qed.

(** Padding with zeros does not change the number. *)
Lemma hexValue_paddedHex (z : Z) (k : nat) : (0 <= z)%Z -> hexValue (paddedHex z k) = z.
Proof.
  intros Hz. unfold paddedHex, padStart, hexValue.
  rewrite to_N_app, to_N_zeros. now apply hexValue_hexDigitsOf.
Qed.

Lemma paddedHex_inj (a b : Z) (k : nat) :
  (0 <= a)%Z -> (0 <= b)%Z -> paddedHex a k = paddedHex b k -> a = b.
Proof.
  intros Ha Hb H.
  rewrite <- (hexValue_paddedHex a k Ha), <- (hexValue_paddedHex b k Hb).
  now rewrite H.
Qed.

(** The number of two runs of digits written one after the other. *)
Lemma hexValue_app (a b : string) :
  allHexDigits b = true ->
  hexValue (a ++ b)
  = (hexValue a * 16 ^ Z.of_nat (String.length b) + hexValue b)%Z.
Proof.
  intros Hb. unfold hexValue. rewrite to_N_app, (to_N_shift b Hb).
  rewrite N2Z.inj_add, N2Z.inj_mul, N2Z.inj_pow, nat_N_Z. reflexivity.
Qed.

Lemma hexValue_bound (s : string) :
  allHexDigits s = true ->
  (0 <= hexValue s < 16 ^ Z.of_nat (String.length s))%Z.
Proof.
  intros Hs. unfold hexValue. split; [apply N2Z.is_nonneg|].
  pose proof (to_N_bound s Hs) as H. apply N2Z.inj_lt in H.
  now rewrite N2Z.inj_pow, nat_N_Z in H.
Qed.

Lemma toBigInt_digits (digits : string) :
  digits <> "" -> allHexDigits digits = true ->
  toBigInt ("0x" ++ digits) = Ok (hexValue digits).
Proof.
  intros Hne Hhex. destruct digits as [|c rest]; [congruence|].
  cbn [append]. unfold toBigInt. now rewrite Hhex.
Qed.

End ValueFacts.

(** ** The session-key plugin *)

Module SessionKeyFacts.
Import SessionKey Layouts TextFacts TreeFacts ProofFacts.
Local Open Scope promise_scope.

(** *** Loops that may throw *)

Lemma sequence_map_Forall2 {A B} (g : A -> Result B) (l : list A) (ys : list B) :
  sequence (map g l) = Ok ys <-> Forall2 (fun x y => g x = Ok y) l ys.
Proof.
  revert ys. induction l as [|x l IH]; intros ys; cbn [map sequence].
  - split; intros H; inversion H; [constructor | reflexivity].
  - split.
    + destruct (g x) as [y|e] eqn:Hx; [|discriminate]. cbn [rbind].
      destruct (sequence (map g l)) as [ys'|e] eqn:Hs; [|discriminate]. cbn [rbind].
      intros H. inversion H. constructor; [exact Hx | now apply IH].
    + intros H. inversion H as [|x' y l' ys' Hx Hrest]; subst.
      rewrite Hx. cbn [rbind]. apply IH in Hrest. now rewrite Hrest.
Qed.

Lemma sequence_map_total {A B} (g : A -> Result B) (l : list A) :
  (forall x, In x l -> exists y, g x = Ok y) ->
  exists ys, Forall2 (fun x y => g x = Ok y) l ys.
Proof.
  induction l as [|x l IH]; intros H.
  - exists []. constructor.
  - destruct (H x (or_introl eq_refl)) as (y & Hy).
    destruct IH as (ys & Hys); [intros z Hz; apply H; now right|].
    exists (y :: ys). now constructor.
Qed.


Lemma Forall2_In_l {A B} (R : A -> B -> Prop) (l : list A) (ys : list B) (x : A) :
  Forall2 R l ys -> In x l -> exists y, In y ys /\ R x y.
Proof.
  induction 1 as [|a b l ys Hab _ IH]; intros Hin; [contradiction|].
  destruct Hin as [<- | Hin].
  - exists b. split; [now left | exact Hab].
  - destruct (IH Hin) as (y & Hy & Hr). exists y. split; [now right | exact Hr].
Qed.

Lemma Forall2_In_r {A B} (R : A -> B -> Prop) (l : list A) (ys : list B) (y : B) :
  Forall2 R l ys -> In y ys -> exists x, In x l /\ R x y.
Proof.
  induction 1 as [|a b l ys Hab _ IH]; intros Hin; [contradiction|].
  destruct Hin as [<- | Hin].
  - exists a. split; [now left | exact Hab].
  - destruct (IH Hin) as (x & Hx & Hr). exists x. split; [now right | exact Hr].
Qed.

Lemma Forall2_same_length {A B} (R : A -> B -> Prop) (l : list A) (ys : list B) :
  Forall2 R l ys -> List.length ys = List.length l.
Proof. induction 1; simpl; congruence. Qed.

Lemma sequence_length {A} (l : list (Result A)) (xs : list A) :
  sequence l = Ok xs -> List.length xs = List.length l.
Proof.
  revert xs. induction l as [|r l IH]; intros xs H; simpl in H.
  - now inversion H.
  - destruct r as [x|]; [|discriminate]. simpl in H.
    destruct (sequence l) as [ys|]; [|discriminate]. simpl in H.
    inversion H. simpl. now rewrite (IH ys eq_refl).
Qed.

Lemma mapi_length {A B} (g : A -> nat -> B) (l : list A) :
  forall i, List.length (mapi g i l) = List.length l.
Proof.
  induction l as [|x l IH]; intros i; simpl; [reflexivity | now rewrite IH].
Qed.

Section Facts.
Variable imp : Imports.
Variable client : Client.

(** What [signerToSessionKeyValidator] has done when it returns a plugin. *)
Lemma built_inv (params : Params) (plugin : Plugin) :
  Built imp client params plugin ->
  exists data viemSigner chain tree,
    buildSessionKeyData imp (validatorData params) = Ok data
    /\ toSigner imp (signer params) = Resolved viemSigner
    /\ chainIdOf client = Resolved chain
    /\ buildMerkleTree imp data = Ok tree
    /\ plugin = {| p_signer := signer params;
                   p_entryPoint := entryPoint params;
                   validatorAddress :=
                     nullish (validatorAddressParam params)
                             (SESSION_KEY_VALIDATOR_ADDRESS imp);
                   viemSignerAddress := viemSigner;
                   chainId := chain;
                   sessionKeyData := data;
                   merkleTree := tree |}.
Proof.
  intros (t & t' & H). unfold signerToSessionKeyValidator in H.
  destruct (negb (ep_version (entryPoint params) =? "0.6")%string); [discriminate|].
  unfold bind, lift, Chain.getChainId, perform, ret in H.
  destruct (buildSessionKeyData imp (validatorData params)) as [data|] eqn:Hd; [|discriminate].
  destruct (toSigner imp (signer params)) as [viemSigner|] eqn:Hs; [|discriminate].
  simpl in H.
  destruct (chainIdOf client) as [chain|] eqn:Hc; [|discriminate].
  simpl in H.
  destruct (buildMerkleTree imp data) as [tree|] eqn:Ht; [|discriminate].
  inversion H; subst. now exists data, viemSigner, chain, tree.
Qed.

Lemma buildSessionKeyData_permissions (vd : option ValidatorData) (data : SessionKeyData) :
  buildSessionKeyData imp vd = Ok data ->
  exists perms va vu pm,
    data = {| validAfter := Some va; validUntil := Some vu;
              paymaster := Some pm; permissions := Some perms |}.
Proof.
  unfold buildSessionKeyData. intros H.
  match type of H with (rbind ?r _ = _) => destruct r as [generated|]; [|discriminate] end.
  cbn [rbind] in H.
  match type of H with (rbind ?r _ = _) => destruct r as [perms|] eqn:Hp end;
    [|discriminate].
  simpl in H. inversion H. eauto.
Qed.

Lemma pad_placeholder : pad "0x00" 32 = Ok zeroRoot.
Proof. reflexivity. Qed.

Lemma getHexRoot_emptyTree : MerkleTreeJs.getHexRoot emptyTree = zeroRoot.
Proof. reflexivity. Qed.

(** *** The encoded permissions *)

(** What the loop of lines 140-145 has done when it ends: every permission
    was encoded, and a single leaf was doubled. *)
Lemma encodedPermissionData_ok (perms : list Permission) (encoded : list Hex) :
  encodedPermissionData imp perms = Ok encoded <->
  exists leaves,
    Forall2 (fun p leaf => encodePermissionData imp (One p) None = Ok leaf) perms leaves
    /\ encoded = match leaves with
                 | [only] => [only; only]
                 | _ => leaves
                 end.
Proof.
  unfold encodedPermissionData. split.
  - destruct (sequence (map (fun p => encodePermissionData imp (One p) None) perms))
      as [leaves|] eqn:Hs; [|discriminate].
    cbn [rbind]. intros H. inversion H. exists leaves. split; [|reflexivity].
    now apply sequence_map_Forall2.
  - intros (leaves & Hall & ->). apply sequence_map_Forall2 in Hall.
    now rewrite Hall.
Qed.

Lemma encodedPermissionData_length (perms : list Permission) (encoded : list Hex) :
  encodedPermissionData imp perms = Ok encoded ->
  perms <> [] ->
  List.length encoded = leafCount (List.length perms).
Proof.
  intros H Hne. apply encodedPermissionData_ok in H as (leaves & Hall & ->).
  pose proof (Forall2_same_length _ _ _ Hall) as Hlen.
  destruct perms as [|p [|q rest]]; [congruence | |];
    destruct leaves as [|a [|b leaves]]; try discriminate; [reflexivity|].
  exact Hlen.
Qed.

Lemma encodedPermissionData_In (perms : list Permission) (encoded : list Hex)
    (p : Permission) :
  encodedPermissionData imp perms = Ok encoded ->
  In p perms ->
  exists leaf, encodePermissionData imp (One p) None = Ok leaf /\ In leaf encoded.
Proof.
  intros H Hin. apply encodedPermissionData_ok in H as (leaves & Hall & ->).
  destruct (Forall2_In_l _ _ _ p Hall Hin) as (leaf & Hleaf & Hp).
  exists leaf. split; [exact Hp|].
  destruct leaves as [|a [|b rest]]; [contradiction | | exact Hleaf].
  destruct Hleaf as [<- | []]. now left.
Qed.

Lemma encodedPermissionData_from (perms : list Permission) (encoded : list Hex)
    (leaf : Hex) :
  encodedPermissionData imp perms = Ok encoded ->
  In leaf encoded ->
  exists p, In p perms /\ encodePermissionData imp (One p) None = Ok leaf.
Proof.
  intros H Hin. apply encodedPermissionData_ok in H as (leaves & Hall & ->).
  apply (Forall2_In_r _ _ _ leaf Hall).
  destruct leaves as [|a [|b rest]]; [contradiction | | exact Hin].
  destruct Hin as [<- | [<- | []]]; now left.
Qed.

Lemma encodedPermissionData_nonempty (perms : list Permission) (encoded : list Hex) :
  encodedPermissionData imp perms = Ok encoded ->
  perms <> [] -> encoded <> [].
Proof.
  intros H Hne. pose proof (encodedPermissionData_length perms encoded H Hne) as Hlen.
  intros ->. destruct perms as [|p [|q rest]]; [congruence | discriminate | discriminate].
Qed.

(** *** The tree *)

Lemma buildMerkleTree_unconfigured (data : SessionKeyData) :
  hasLength (permissions data) = false -> buildMerkleTree imp data = Ok emptyTree.
Proof.
  intros H. unfold buildMerkleTree. rewrite H.
  now destruct (permissions data) as [[|p ps]|].
Qed.

Lemma buildMerkleTree_configured (data : SessionKeyData) (tree : MerkleTreeJs.MerkleTree) :
  hasLength (permissions data) = true ->
  buildMerkleTree imp data = Ok tree ->
  exists encoded,
    encodedPermissionData imp (nullish (permissions data) []) = Ok encoded
    /\ tree = MerkleTreeJs.newMerkleTree (map VString encoded) (keccak256 imp)
                configuredOptions.
Proof.
  intros H. unfold buildMerkleTree. rewrite H.
  destruct (encodedPermissionData imp (nullish (permissions data) [])) as [encoded|];
    [|discriminate].
  cbn [rbind]. intros Ht. inversion Ht. now exists encoded.
Qed.

Lemma hasLength_nonempty (data : SessionKeyData) :
  hasLength (permissions data) = true -> nullish (permissions data) [] <> [].
Proof. now destruct (permissions data) as [[|p ps]|]. Qed.

(** What holds of every output of the hash holds of the root of a
    configured rule set. *)
Lemma configured_root (P : Buffer -> Prop) (data : SessionKeyData)
    (tree : MerkleTreeJs.MerkleTree) :
  (forall b, P (keccak_256 imp b)) ->
  hasLength (permissions data) = true ->
  buildMerkleTree imp data = Ok tree ->
  P (MerkleTreeJs.getRoot tree).
Proof.
  intros HP Hcfg Hbuild.
  destruct (buildMerkleTree_configured data tree Hcfg Hbuild) as (encoded & Henc & ->).
  pose proof (encodedPermissionData_nonempty _ _ Henc (hasLength_nonempty data Hcfg)) as Hne.
  unfold MerkleTreeJs.newMerkleTree, MerkleTreeJs.processLeaves. simpl MerkleTreeJs.hashLeaves.
  apply getRoot_invariant.
  - intros v. unfold keccak256. rewrite hashFn_keccak256. apply HP.
  - destruct encoded; [congruence | discriminate].
  - rewrite !map_map. apply Forall_forall. intros x Hx.
    apply in_map_iff in Hx as (e & <- & _). simpl.
    unfold keccak256. rewrite hashFn_keccak256. apply HP.
Qed.

(** The root of a built plugin has 32 bytes when the hash has. *)
Lemma built_root_length (params : Params) (plugin : Plugin) :
  (forall b, List.length (keccak_256 imp b) = 32) ->
  Built imp client params plugin ->
  List.length (MerkleTreeJs.getRoot (merkleTree plugin)) = 32.
Proof.
  intros Hlen Hb.
  destruct (built_inv params plugin Hb) as (data & vs & chain & tree & _ & _ & _ & Ht & ->).
  simpl merkleTree.
  destruct (hasLength (permissions data)) eqn:Hcfg.
  - now apply (configured_root (fun b => List.length b = 32) data tree).
  - rewrite (buildMerkleTree_unconfigured data Hcfg) in Ht. now inversion Ht.
Qed.

(** With no permission configured the root is the placeholder. *)
Lemma built_unconfigured_root (params : Params) (plugin : Plugin) :
  Built imp client params plugin ->
  hasLength (permissions (sessionKeyData plugin)) = false ->
  merkleTree plugin = emptyTree.
Proof.
  intros Hb Hcfg.
  destruct (built_inv params plugin Hb) as (data & vs & chain & tree & _ & _ & _ & Ht & ->).
  simpl in *. rewrite (buildMerkleTree_unconfigured data Hcfg) in Ht. now inversion Ht.
Qed.

(** The plugin holds one rule per configured permission. *)
Lemma built_ruleSet (params : Params) (plugin : Plugin) :
  Built imp client params plugin ->
  exists perms,
    permissions (sessionKeyData plugin) = Some perms
    /\ List.length perms = List.length (configuredPermissions params).
Proof.
  intros Hb.
  destruct (built_inv params plugin Hb) as (data & vs & chain & tree & Hd & _ & _ & _ & ->).
  simpl sessionKeyData. unfold buildSessionKeyData in Hd.
  unfold configuredPermissions.
  match type of Hd with (rbind ?r _ = _) => destruct r as [generated|]; [|discriminate] end.
  cbn [rbind] in Hd.
  destruct (validatorData params) as [d|]; simpl in *.
  - destruct (vd_permissions d) as [inputs|]; simpl in *.
    + destruct (sequence (mapi (fillPermission generated) 0 inputs)) as [perms|] eqn:Hs;
        [|discriminate].
      simpl in Hd. inversion Hd. simpl. exists perms. split; [reflexivity|].
      rewrite (sequence_length _ _ Hs). apply mapi_length.
    + inversion Hd. simpl. now exists [].
  - inversion Hd. simpl. now exists [].
Qed.

Lemma hasLength_ruleSet (plugin : Plugin) (perms : list Permission) :
  permissions (sessionKeyData plugin) = Some perms ->
  hasLength (permissions (sessionKeyData plugin)) = negb (Nat.eqb (List.length perms) 0).
Proof. intros ->. now destruct perms. Qed.

Lemma hasLength_true_iff (plugin : Plugin) :
  hasLength (permissions (sessionKeyData plugin)) = true <-> ruleSet plugin <> [].
Proof.
  unfold ruleSet. destruct (permissions (sessionKeyData plugin)) as [[|p ps]|]; simpl;
    split; intros H; try discriminate; try congruence.
Qed.

Lemma hasLength_false_iff (plugin : Plugin) :
  hasLength (permissions (sessionKeyData plugin)) = false <-> ruleSet plugin = [].
Proof.
  unfold ruleSet. destruct (permissions (sessionKeyData plugin)) as [[|p ps]|]; simpl;
    split; intros H; try discriminate; try congruence.
Qed.

(** The tree of a built plugin: the placeholder, or the tree over the
    encoded rule set. *)
Lemma built_tree (params : Params) (plugin : Plugin) :
  Built imp client params plugin ->
  (ruleSet plugin = [] /\ merkleTree plugin = emptyTree)
  \/ (ruleSet plugin <> []
      /\ exists encoded,
           encodedPermissionData imp (ruleSet plugin) = Ok encoded
           /\ merkleTree plugin
              = MerkleTreeJs.newMerkleTree (map VString encoded) (keccak256 imp)
                  configuredOptions).
Proof.
  intros Hb.
  destruct (hasLength (permissions (sessionKeyData plugin))) eqn:Hcfg.
  - right. split; [now apply hasLength_true_iff|].
    destruct (built_inv params plugin Hb)
      as (data & vs & chain & tree & _ & _ & _ & Ht & ->).
    cbn [sessionKeyData merkleTree] in *. unfold ruleSet. cbn [sessionKeyData].
    exact (buildMerkleTree_configured data tree Hcfg Ht).
  - left. split; [now apply hasLength_false_iff|].
    now apply (built_unconfigured_root params plugin).
Qed.

(** Every rule of a built plugin was encoded when the tree was built. *)
Lemma built_encodes (params : Params) (plugin : Plugin) (p : Permission) :
  Built imp client params plugin ->
  In p (ruleSet plugin) ->
  exists leaf, encodePermissionData imp (One p) None = Ok leaf.
Proof.
  intros Hb Hin.
  destruct (built_tree params plugin Hb) as [[Hnil _] | (_ & encoded & Henc & _)].
  - rewrite Hnil in Hin. contradiction.
  - destruct (encodedPermissionData_In _ _ p Henc Hin) as (leaf & Hleaf & _).
    now exists leaf.
Qed.

Lemma configured_leaves (input : list Hex) :
  MerkleTreeJs.leaves
    (MerkleTreeJs.newMerkleTree (map VString input) (keccak256 imp) configuredOptions)
  = map (fun e => keccak_256 imp (hashInput (VString e))) input.
Proof.
  unfold MerkleTreeJs.newMerkleTree, MerkleTreeJs.processLeaves.
  cbn [MerkleTreeJs.hashLeaves configuredOptions MerkleTreeJs.leaves].
  rewrite !map_map. apply map_ext. intros e. cbn [MerkleTreeJs.bufferify].
  unfold keccak256. apply hashFn_keccak256.
Qed.

(** The proof of a rule of a built plugin leads from its leaf to the
    root. *)
Lemma rule_proof_verifies (params : Params) (plugin : Plugin) (p : Permission)
    (leaf : Hex) :
  Built imp client params plugin ->
  In p (ruleSet plugin) ->
  encodePermissionData imp (One p) None = Ok leaf ->
  let target := VString (keccak256 imp (VString leaf)) in
  MerkleTreeJs.verify (keccak256 imp) configuredOptions
    (MerkleTreeJs.getProof (merkleTree plugin) target) (MerkleTreeJs.bufferify target)
    (MerkleTreeJs.getRoot (merkleTree plugin)) = true.
Proof.
  intros Hb Hin Hleaf target.
  destruct (built_tree params plugin Hb) as [[Hnil _] | (Hne & encoded & Henc & Htree)].
  - rewrite Hnil in Hin. contradiction.
  - rewrite Htree. unfold MerkleTreeJs.newMerkleTree.
    apply leaf_proof_verifies; try reflexivity.
    fold (MerkleTreeJs.newMerkleTree (map VString encoded) (keccak256 imp)
            configuredOptions).
    rewrite configured_leaves.
    unfold target, keccak256. rewrite bufferify_keccak256.
    apply in_map_iff. exists leaf. split; [reflexivity|].
    destruct (encodedPermissionData_In _ _ p Henc Hin) as (leaf' & Hleaf' & Hin').
    rewrite Hleaf in Hleaf'. now inversion Hleaf'.
Qed.

(** A hash that never yields 32 zero bytes keeps the root of a configured
    rule set apart from the placeholder. *)
Lemma built_root_not_placeholder (params : Params) (plugin : Plugin) :
  (forall b, keccak_256 imp b <> zeroBytes32) ->
  Built imp client params plugin ->
  ruleSet plugin <> [] ->
  MerkleTreeJs.getHexRoot (merkleTree plugin) <> zeroRoot.
Proof.
  intros Hhash Hb Hne.
  apply hasLength_true_iff in Hne.
  destruct (built_inv params plugin Hb) as (data & vs & chain & tree & _ & _ & _ & Ht & ->).
  simpl in Hne |- *.
  pose proof (configured_root (fun b => b <> zeroBytes32) data tree Hhash Hne Ht) as Hroot.
  unfold MerkleTreeJs.getHexRoot, MerkleTreeJs.bufferToHex. intros Heq.
  apply Hroot. apply hexOfBytes_inj.
  change zeroRoot with ("0x" ++ hexOfBytes zeroBytes32) in Heq.
  now inversion Heq.
Qed.

(** *** The proof lookup *)

(** The hashes of lines 219-221, for permissions that encode. *)
Lemma encodedPerms_ok (ps : list Permission) (hashes : list Hex) :
  sequence (map (fun permission =>
                   e <-- encodePermissionData imp (One permission) None ;;
                   Ok (keccak256 imp (VString e))) ps) = Ok hashes
  <-> exists leaves,
        Forall2 (fun p leaf => encodePermissionData imp (One p) None = Ok leaf) ps leaves
        /\ hashes = map (fun leaf => keccak256 imp (VString leaf)) leaves.
Proof.
  rewrite sequence_map_Forall2. revert hashes.
  induction ps as [|p ps IH]; intros hashes.
  - split.
    + intros H. inversion H. exists []. split; [constructor | reflexivity].
    + intros (leaves & Hall & ->). inversion Hall. constructor.
  - split.
    + intros H. inversion H as [|p' h ps' hs Hp Hrest]; subst.
      destruct (encodePermissionData imp (One p) None) as [leaf|] eqn:Hleaf;
        [|discriminate].
      cbn [rbind] in Hp. inversion Hp. subst h.
      apply IH in Hrest as (leaves & Hall & ->).
      exists (leaf :: leaves). split; [now constructor | reflexivity].
    + intros (leaves & Hall & ->).
      inversion Hall as [|p' leaf ps' leaves' Hp Hrest]; subst.
      cbn [map]. constructor.
      * now rewrite Hp.
      * apply IH. now exists leaves'.
Qed.

Lemma merkleProof_many (plugin : Plugin) (encoded : Hex) (ps : list Permission)
    (leaves : list Hex) :
  Forall2 (fun p leaf => encodePermissionData imp (One p) None = Ok leaf) ps leaves ->
  merkleProof imp plugin encoded (Some (Many ps))
  = Ok (map (fun leaf => SubProof (proofOf imp plugin leaf)) leaves).
Proof.
  intros Hall. unfold merkleProof.
  assert (Hseq : sequence (map (fun permission =>
                                  e <-- encodePermissionData imp (One permission) None ;;
                                  Ok (keccak256 imp (VString e))) ps)
                 = Ok (map (fun leaf => keccak256 imp (VString leaf)) leaves))
    by (apply encodedPerms_ok; now exists leaves).
  rewrite Hseq. cbn [rbind]. now rewrite map_map.
Qed.

(** Nothing matched: the lookup is refused unless the root is the
    placeholder. *)
Lemma proofData_unmatched (plugin : Plugin) (callData_ : Hex) :
  findMatchingPermissions imp callData_ (permissions (sessionKeyData plugin)) = None ->
  getEncodedPermissionProofData imp plugin callData_
  = if (MerkleTreeJs.getHexRoot (merkleTree plugin) =? zeroRoot)%string
    then Ok "0x" else Err (JsError noMatchMessage).
Proof.
  intros Hm. unfold getEncodedPermissionProofData, unmatchedAndGated.
  rewrite Hm, pad_placeholder. cbn [rbind truthyMatching negb].
  generalize (MerkleTreeJs.getHexRoot (merkleTree plugin) =? zeroRoot)%string.
  now intros [|].
Qed.

(** Something matched and no permission is configured. *)
Lemma proofData_matched_unconfigured (plugin : Plugin) (callData_ : Hex)
    (matching : Matching) :
  findMatchingPermissions imp callData_ (permissions (sessionKeyData plugin))
  = Some matching ->
  hasLength (permissions (sessionKeyData plugin)) = false ->
  getEncodedPermissionProofData imp plugin callData_
  = (_ <-- merkleProof imp plugin "0x" (Some matching) ;; Ok "0x").
Proof.
  intros Hm Hcfg. unfold getEncodedPermissionProofData, unmatchedAndGated, encodedOrEmpty.
  rewrite Hm, Hcfg. cbn [truthyMatching negb rbind].
  now destruct (merkleProof imp plugin "0x" (Some matching)).
Qed.

(** One permission matched: it is encoded, its proof is looked up, and it
    is encoded again with the proof. *)
Lemma proofData_matched_one (plugin : Plugin) (callData_ : Hex) (p : Permission) :
  findMatchingPermissions imp callData_ (permissions (sessionKeyData plugin))
  = Some (One p) ->
  hasLength (permissions (sessionKeyData plugin)) = true ->
  getEncodedPermissionProofData imp plugin callData_
  = (leaf <-- encodePermissionData imp (One p) None ;;
     encodePermissionData imp (One p) (Some (map Sibling (proofOf imp plugin leaf)))).
Proof.
  intros Hm Hcfg. unfold getEncodedPermissionProofData, unmatchedAndGated, encodedOrEmpty.
  rewrite Hm, Hcfg. cbn [truthyMatching negb rbind merkleProof].
  now destruct (encodePermissionData imp (One p) None).
Qed.

(** A list of permissions matched: the list is encoded, each permission is
    encoded on its own for its proof, and the list is encoded again with the
    proofs. *)
Lemma proofData_matched_many (plugin : Plugin) (callData_ : Hex) (ps : list Permission) :
  findMatchingPermissions imp callData_ (permissions (sessionKeyData plugin))
  = Some (Many ps) ->
  hasLength (permissions (sessionKeyData plugin)) = true ->
  getEncodedPermissionProofData imp plugin callData_
  = (_ <-- encodePermissionData imp (Many ps) None ;;
     proof <-- merkleProof imp plugin "0x" (Some (Many ps)) ;;
     encodePermissionData imp (Many ps) (Some proof)).
Proof.
  intros Hm Hcfg. unfold getEncodedPermissionProofData, unmatchedAndGated, encodedOrEmpty.
  rewrite Hm, Hcfg. cbn [truthyMatching negb rbind].
  now destruct (encodePermissionData imp (Many ps) None).
Qed.

(** A match that names rules of a built plugin names rules the encoder
    accepts: they were encoded when the tree was built. *)
Lemma built_encodesMatched (params : Params) (plugin : Plugin) (m : option Matching) :
  Built imp client params plugin ->
  selectsFrom (permissions (sessionKeyData plugin)) m ->
  encodesMatched imp m.
Proof.
  intros Hb Hsel p Hin. apply (built_encodes params plugin p Hb). now apply Hsel.
Qed.

(** With no permission configured the lookup answers "0x", whatever
    matched, as long as the encoder accepts what the match names. *)
Lemma proofData_ungated (plugin : Plugin) (callData_ : Hex) :
  hasLength (permissions (sessionKeyData plugin)) = false ->
  MerkleTreeJs.getHexRoot (merkleTree plugin) = zeroRoot ->
  encodesMatched imp
    (findMatchingPermissions imp callData_ (permissions (sessionKeyData plugin))) ->
  getEncodedPermissionProofData imp plugin callData_ = Ok "0x".
Proof.
  intros Hcfg Hroot Henc. unfold encodesMatched in Henc.
  destruct (findMatchingPermissions imp callData_ (permissions (sessionKeyData plugin)))
    as [[p|ps]|] eqn:Hm.
  - rewrite (proofData_matched_unconfigured plugin callData_ _ Hm Hcfg). reflexivity.
  - rewrite (proofData_matched_unconfigured plugin callData_ _ Hm Hcfg).
    destruct (sequence_map_total (fun q => encodePermissionData imp (One q) None) ps Henc)
      as (leaves & Hall).
    now rewrite (merkleProof_many plugin "0x" ps leaves Hall).
  - rewrite (proofData_unmatched plugin callData_ Hm), Hroot. reflexivity.
Qed.

(** *** Signing *)

Lemma signUserOperation_signed (plugin : Plugin) (op : UserOperation)
    (hash sig_ : Hex) :
  userOpHashOf imp plugin op = Ok hash ->
  signRaw client (viemSignerAddress plugin) hash = Resolved sig_ ->
  resultOf (signUserOperation imp client plugin op)
  = (fixed <-- fixSignedData imp sig_ ;;
     proof <-- getEncodedPermissionProofData imp plugin (callData op) ;;
     Ok (concat [viemSignerAddress plugin; fixed; proof])).
Proof.
  intros Hh Hs. unfold resultOf, signUserOperation, bind, Chain.signMessage, perform, lift, ret.
  rewrite Hh, Hs. cbn [settle].
  destruct (fixSignedData imp sig_) as [fixed|]; [|reflexivity]. cbn [rbind].
  now destruct (getEncodedPermissionProofData imp plugin (callData op)).
Qed.

(** What [signUserOperation] has done when it returns. *)
Lemma signUserOperation_inv (plugin : Plugin) (op : UserOperation) (signed : Hex) :
  resultOf (signUserOperation imp client plugin op) = Ok signed ->
  exists hash sig_ fixed proof,
    userOpHashOf imp plugin op = Ok hash
    /\ signRaw client (viemSignerAddress plugin) hash = Resolved sig_
    /\ fixSignedData imp sig_ = Ok fixed
    /\ getEncodedPermissionProofData imp plugin (callData op) = Ok proof
    /\ signed = concat [viemSignerAddress plugin; fixed; proof].
Proof.
  unfold resultOf, signUserOperation, bind, Chain.signMessage, perform, lift, ret.
  destruct (userOpHashOf imp plugin op) as [hash|] eqn:Hh; [|discriminate].
  destruct (signRaw client (viemSignerAddress plugin) hash) as [sig_|] eqn:Hs;
    cbn [settle]; [|discriminate].
  destruct (fixSignedData imp sig_) as [fixed|] eqn:Hf; [|discriminate].
  destruct (getEncodedPermissionProofData imp plugin (callData op)) as [proof|] eqn:Hp;
    [|discriminate].
  cbn [fst]. intros H. inversion H.
  now exists hash, sig_, fixed, proof.
Qed.

Lemma getStubSignature_result (plugin : Plugin) (op : UserOperation) :
  resultOf (getStubSignature imp plugin op)
  = rbind (getEncodedPermissionProofData imp plugin (callData op))
          (fun proof => Ok (concat [viemSignerAddress plugin; DUMMY_ECDSA_SIG imp; proof])).
Proof.
  unfold resultOf, getStubSignature, bind, lift, ret.
  now destruct (getEncodedPermissionProofData imp plugin (callData op)).
Qed.

(** C1, as the code has it: once the operation hash is computed, signed and
    the signature fixed, [signUserOperation] fails at its authorization
    guard exactly when the rule set is non-empty and
    [findMatchingPermissions] answers undefined; any other failure is the
    encoder refusing what matched.  A list of matches counts as a match even
    when it is empty.  With an empty rule set the result is address ++ fixed
    signature ++ "0x"; with one matching rule it is address ++ fixed
    signature ++ the rule encoded with its proof, which leads from the
    rule's leaf to the root when the rule is one of the rule set; with a
    list of matching rules it is the list encoded with one such proof a
    rule.  The encoder is taken to accept each rule the match names, as it
    did when the tree was built for a match that names rules of the rule
    set, and the root of a non-empty rule set not to be the all-zero
    placeholder. *)
Theorem signUserOperation_authorization
    (params : Params) (plugin : Plugin) (op : UserOperation) (hash sig_ fixed : Hex) :
  Built imp client params plugin ->
  getUserOperationHash imp (withEmptySignature op) (ep_address (p_entryPoint plugin))
    (ep_version (p_entryPoint plugin)) (chainId plugin) = Ok hash ->
  signRaw client (viemSignerAddress plugin) hash = Resolved sig_ ->
  fixSignedData imp sig_ = Ok fixed ->
  (ruleSet plugin <> [] -> MerkleTreeJs.getHexRoot (merkleTree plugin) <> zeroRoot) ->
  encodesMatched imp
    (findMatchingPermissions imp (callData op) (permissions (sessionKeyData plugin))) ->
  let matched :=
    findMatchingPermissions imp (callData op) (permissions (sessionKeyData plugin)) in
  let signed proof := Ok (concat [viemSignerAddress plugin; fixed; proof]) in
  let outcome := resultOf (signUserOperation imp client plugin op) in
  let hexProof leaf :=
    MerkleTreeJs.getHexProof (merkleTree plugin) (VString (keccak256 imp (VString leaf))) in
  let verifies leaf :=
    MerkleTreeJs.verify (keccak256 imp) configuredOptions
      (map (fun h => MerkleTreeJs.bufferify (VString h)) (hexProof leaf))
      (MerkleTreeJs.bufferify (VString (keccak256 imp (VString leaf))))
      (MerkleTreeJs.getRoot (merkleTree plugin)) = true in
  (ruleSet plugin <> [] -> matched = None -> outcome = Err (JsError noMatchMessage))
  /\ (forall e, outcome = Err e ->
        (ruleSet plugin <> [] /\ matched = None /\ e = JsError noMatchMessage)
        \/ (exists matching proof,
              ruleSet plugin <> [] /\ matched = Some matching
              /\ encodePermissionData imp matching proof = Err e))
  /\ ((forall matching proof,
         encodePermissionData imp matching proof <> Err (JsError noMatchMessage)) ->
      (outcome = Err (JsError noMatchMessage) <-> ruleSet plugin <> [] /\ matched = None))
  /\ (ruleSet plugin = [] -> outcome = signed "0x")
  /\ (forall p, ruleSet plugin <> [] -> matched = Some (One p) ->
        exists leaf,
          encodePermissionData imp (One p) None = Ok leaf
          /\ (In p (ruleSet plugin) -> verifies leaf)
          /\ outcome
             = rbind (encodePermissionData imp (One p) (Some (map Sibling (hexProof leaf))))
                     signed)
  /\ (forall ps, ruleSet plugin <> [] -> matched = Some (Many ps) ->
        exists leaves,
          Forall2 (fun p leaf => encodePermissionData imp (One p) None = Ok leaf) ps leaves
          /\ ((forall p, In p ps -> In p (ruleSet plugin)) -> Forall verifies leaves)
          /\ outcome
             = rbind (encodePermissionData imp (Many ps) None)
                 (fun _ =>
                    rbind (encodePermissionData imp (Many ps)
                             (Some (map (fun leaf => SubProof (hexProof leaf)) leaves)))
                          signed)).
Proof.
  intros Hb Hh Hs Hf Hroot Henc matched signed outcome hexProof verifies.
  assert (Hout : outcome
                 = rbind (getEncodedPermissionProofData imp plugin (callData op)) signed).
  { unfold outcome. rewrite (signUserOperation_signed plugin op hash sig_ Hh Hs), Hf.
    reflexivity. }
  pose proof (hasLength_true_iff plugin) as Htrue.
  pose proof (hasLength_false_iff plugin) as Hfalse.
  assert (Hverifies : forall p leaf,
            In p (ruleSet plugin) ->
            encodePermissionData imp (One p) None = Ok leaf -> verifies leaf).
  { intros p leaf Hin Hleaf. unfold verifies, hexProof.
    rewrite getHexProof_reads_back.
    exact (rule_proof_verifies params plugin p leaf Hb Hin Hleaf). }
  destruct (hasLength (permissions (sessionKeyData plugin))) eqn:Hcfg.
  - (* rules are configured *)
    assert (Hne : ruleSet plugin <> []) by now apply Htrue.
    pose proof Henc as Henc'. fold matched in Henc'. unfold encodesMatched in Henc'.
    destruct matched as [[p|ps]|] eqn:Hm.
    + (* one rule matches *)
      destruct (Henc' p (or_introl eq_refl)) as (leaf & Hleaf).
      rewrite (proofData_matched_one plugin (callData op) p Hm Hcfg), Hleaf in Hout.
      cbn [rbind] in Hout. unfold proofOf in Hout. fold (hexProof leaf) in Hout.
      assert (Hcase : exists leaf',
                encodePermissionData imp (One p) None = Ok leaf'
                /\ (In p (ruleSet plugin) -> verifies leaf')
                /\ outcome
                   = rbind (encodePermissionData imp (One p)
                              (Some (map Sibling (hexProof leaf')))) signed).
      { exists leaf. split; [exact Hleaf|]. split; [|exact Hout].
        intros Hin. now apply (Hverifies p). }
      assert (Herr : forall e, outcome = Err e ->
                exists matching proof,
                  ruleSet plugin <> [] /\ Some (One p) = Some matching
                  /\ encodePermissionData imp matching proof = Err e).
      { intros e He. rewrite Hout in He.
        exists (One p), (Some (map Sibling (hexProof leaf))).
        split; [exact Hne | split; [reflexivity|]].
        destruct (encodePermissionData imp (One p) (Some (map Sibling (hexProof leaf))));
          cbn [rbind] in He; [unfold signed in He; discriminate | exact He]. }
      split; [intros _ H; discriminate|].
      split; [intros e He; right; exact (Herr e He)|].
      split.
      { intros Hnot. split; [|intros [_ H]; discriminate].
        intros He. destruct (Herr _ He) as (m & pr & _ & _ & Hencoder).
        exfalso. exact (Hnot m pr Hencoder). }
      split; [intros He; contradiction|].
      split; [intros q _ Hq; inversion Hq; subst q; exact Hcase|].
      intros qs _ Hq. discriminate.
    + (* a list of rules matches *)
      destruct (sequence_map_total (fun q => encodePermissionData imp (One q) None) ps Henc')
        as (leaves & Hall).
      rewrite (proofData_matched_many plugin (callData op) ps Hm Hcfg) in Hout.
      rewrite (merkleProof_many plugin "0x" ps leaves Hall) in Hout.
      cbn [rbind] in Hout. unfold proofOf in Hout.
      assert (Hver : (forall q, In q ps -> In q (ruleSet plugin)) -> Forall verifies leaves).
      { intros Hsel. apply Forall_forall. intros leaf Hleaf.
        destruct (Forall2_In_r _ _ _ leaf Hall Hleaf) as (q & Hq & Hqleaf).
        apply (Hverifies q); [now apply Hsel | exact Hqleaf]. }
      assert (Hcase : outcome
                = rbind (encodePermissionData imp (Many ps) None)
                    (fun _ =>
                       rbind (encodePermissionData imp (Many ps)
                                (Some (map (fun leaf => SubProof (hexProof leaf)) leaves)))
                             signed)).
      { rewrite Hout. now destruct (encodePermissionData imp (Many ps) None). }
      assert (Herr : forall e, outcome = Err e ->
                exists matching proof,
                  ruleSet plugin <> [] /\ Some (Many ps) = Some matching
                  /\ encodePermissionData imp matching proof = Err e).
      { intros e He. rewrite Hcase in He.
        destruct (encodePermissionData imp (Many ps) None) as [x|e'] eqn:H1.
        - cbn [rbind] in He.
          exists (Many ps), (Some (map (fun leaf => SubProof (hexProof leaf)) leaves)).
          split; [exact Hne | split; [reflexivity|]].
          destruct (encodePermissionData imp (Many ps)
                      (Some (map (fun leaf => SubProof (hexProof leaf)) leaves)));
            cbn [rbind] in He; [unfold signed in He; discriminate | exact He].
        - cbn [rbind] in He. inversion He. subst e'.
          exists (Many ps), None. now split; [exact Hne | split]. }
      split; [intros _ H; discriminate|].
      split; [intros e He; right; exact (Herr e He)|].
      split.
      { intros Hnot. split; [|intros [_ H]; discriminate].
        intros He. destruct (Herr _ He) as (m & pr & _ & _ & Hencoder).
        exfalso. exact (Hnot m pr Hencoder). }
      split; [intros He; contradiction|].
      split; [intros q _ Hq; discriminate|].
      intros qs _ Hq. inversion Hq. subst qs. exists leaves.
      split; [exact Hall | split; [exact Hver | exact Hcase]].
    + (* nothing matches *)
      rewrite (proofData_unmatched plugin (callData op) Hm) in Hout.
      pose proof (Hroot Hne) as Hneq. apply String.eqb_neq in Hneq.
      rewrite Hneq in Hout. cbn [rbind] in Hout.
      split; [intros _ _; exact Hout|].
      split.
      { intros e He. left. rewrite Hout in He. inversion He. now repeat split. }
      split; [intros _; split; [intros _; now split | intros _; exact Hout]|].
      split; [intros He; contradiction|].
      split; [intros q _ Hq; discriminate | intros qs _ Hq; discriminate].
  - (* no rule is configured *)
    assert (He : ruleSet plugin = []) by now apply Hfalse.
    pose proof (built_unconfigured_root params plugin Hb Hcfg) as Htree.
    assert (Hzero : MerkleTreeJs.getHexRoot (merkleTree plugin) = zeroRoot)
      by (rewrite Htree; apply getHexRoot_emptyTree).
    rewrite (proofData_ungated plugin (callData op) Hcfg Hzero Henc) in Hout.
    cbn [rbind] in Hout.
    split; [intros Hne; contradiction|].
    split; [intros e Herr; rewrite Hout in Herr; discriminate|].
    split.
    { intros _. split; [intros Herr; rewrite Hout in Herr; discriminate|].
      intros [Hne _]. contradiction. }
    split; [intros _; exact Hout|].
    split; [intros q Hne; contradiction | intros qs Hne; contradiction].
Qed.

(** C3: with no permission configured the tree is the single placeholder
    node, its root is the 32 zero bytes, left unhashed, and the proof lookup
    answers "0x" for every call data without raising.  Lines 218-221 encode
    each rule of a matched list, whatever the rule set, so the encoder is
    taken to accept the rules the matcher names; a matcher that names none
    for an empty rule set meets this. *)
Theorem empty_rule_set_is_ungated (params : Params) (plugin : Plugin) :
  Built imp client params plugin ->
  configuredPermissions params = [] ->
  MerkleTreeJs.leaves (merkleTree plugin) = [zeroBytes32]
  /\ MerkleTreeJs.layers (merkleTree plugin) = [[zeroBytes32]]
  /\ MerkleTreeJs.getRoot (merkleTree plugin) = zeroBytes32
  /\ MerkleTreeJs.getHexRoot (merkleTree plugin) = zeroRoot
  /\ forall callData_,
       encodesMatched imp
         (findMatchingPermissions imp callData_ (permissions (sessionKeyData plugin))) ->
       getEncodedPermissionProofData imp plugin callData_ = Ok "0x".
Proof.
  intros Hb Hnone.
  destruct (built_ruleSet params plugin Hb) as (perms & Hperms & Hlen).
  rewrite Hnone in Hlen. destruct perms; [|discriminate].
  assert (Hcfg : hasLength (permissions (sessionKeyData plugin)) = false)
    by now rewrite Hperms.
  pose proof (built_unconfigured_root params plugin Hb Hcfg) as Htree.
  rewrite Htree. repeat split.
  intros callData_ Henc.
  apply proofData_ungated; [exact Hcfg | now rewrite Htree | exact Henc].
Qed.


(** *** The length of a signature *)







(** *** Enable data *)

Lemma pad_error (h : Hex) (size : nat) (e : Error) :
  pad h size = Err e -> e = SizeExceedsPaddingSizeError.
Proof.
  unfold pad. destruct (size * 2 <? String.length (replace0x h))%nat; now inversion 1.
Qed.

Lemma toHex_error (v : Numeric) (e : Error) :
  toHex v = Err e -> e = IntegerOutOfRangeError.
Proof.
  unfold toHex.
  match goal with |- (if ?c then _ else _) = _ -> _ => destruct c end; now inversion 1.
Qed.

(** The concatenation itself only fails on a field that does not fit. *)
Lemma enableDataOf_error (plugin : Plugin) (n : Z) (e : Error) :
  enableDataOf plugin n = Err e ->
  e = SizeExceedsPaddingSizeError \/ e = IntegerOutOfRangeError.
Proof.
  unfold enableDataOf.
  repeat
    match goal with
    | |- rbind (pad ?h ?s) _ = _ -> _ =>
        let H := fresh "H" in
        destruct (pad h s) eqn:H;
        [cbn [rbind] | apply pad_error in H; cbn [rbind]; inversion 1; subst; now left]
    | |- rbind (toHex ?v) _ = _ -> _ =>
        let H := fresh "H" in
        destruct (toHex v) eqn:H;
        [cbn [rbind] | apply toHex_error in H; cbn [rbind]; inversion 1; subst; now right]
    end.
  discriminate.
Qed.

Lemma getEnableData_no_account (plugin : Plugin) (k : option Address) (pinned : option Z) :
  truthyString k = false ->
  forall t, getEnableData client plugin k pinned t = (Err (JsError noAccountMessage), t).
Proof. intros Hk t. unfold getEnableData. now rewrite Hk. Qed.

Lemma getEnableData_pinned (plugin : Plugin) (account : Address) (n : Z) :
  truthyString (Some account) = true ->
  forall t, getEnableData client plugin (Some account) (Some n) t
            = (enableDataOf plugin n, t).
Proof. intros Hk t. unfold getEnableData. now rewrite Hk. Qed.

Lemma getEnableData_resolved (plugin : Plugin) (account : Address) :
  truthyString (Some account) = true ->
  forall t,
    getEnableData client plugin (Some account) None t
    = match nonces client (validatorAddress plugin) account with
      | Resolved n => (enableDataOf plugin (fst n + 1), 
                       (t ++ [ReadContract (NoncesCall (validatorAddress plugin) account)])%list)
      | Rejected reason => (Err (TransportError reason),
                       (t ++ [ReadContract (NoncesCall (validatorAddress plugin) account)])%list)
      end.
Proof.
  intros Hk t. unfold getEnableData. rewrite Hk.
  unfold bind, getSessionNonces, readNonces, perform, lift, ret.
  now destruct (nonces client (validatorAddress plugin) account).
Qed.

Lemma truthyString_Some (account : Address) :
  truthyString (Some account) = true <-> account <> "".
Proof. destruct account; simpl; split; congruence. Qed.

Lemma replace0x_isHex (size : nat) (h : string) :
  isHexOfSize size h = true ->
  replace0x h = slice2 h /\ String.length (slice2 h) = size * 2.
Proof.
  unfold isHexOfSize, isHex. intros H. apply andb_true_iff in H as [Hhex Hlen].
  destruct h as [|c0 [|c1 rest]]; try discriminate.
  destruct c0 as [[] [] [] [] [] [] [] []]; try discriminate.
  destruct c1 as [[] [] [] [] [] [] [] []]; try discriminate.
  apply Nat.eqb_eq in Hlen. simpl in *. split; [reflexivity | lia].
Qed.

Lemma fitsBytes_6_safe (z : Z) :
  fitsBytes 6 z -> (0 <= z <= MAX_SAFE_INTEGER)%Z.
Proof.
  unfold fitsBytes, MAX_SAFE_INTEGER.
  change (16 ^ Z.of_nat (6 * 2))%Z with 281474976710656%Z.
  change (2 ^ 53 - 1)%Z with 9007199254740991%Z. lia.
Qed.

(** The concatenation for fields that fit their widths. *)
Lemma enableDataOf_layout (plugin : Plugin) (n : Z) :
  List.length (MerkleTreeJs.getRoot (merkleTree plugin)) = 32 ->
  isAddress (viemSignerAddress plugin) = true ->
  isAddress (nullish (paymaster (sessionKeyData plugin)) zeroAddress) = true ->
  fitsBytes 6 (nullish (validAfter (sessionKeyData plugin)) 0%Z) ->
  fitsBytes 6 (nullish (validUntil (sessionKeyData plugin)) 0%Z) ->
  fitsBytes 32 n ->
  let fields :=
    enableDataFields (viemSignerAddress plugin)
      (MerkleTreeJs.getRoot (merkleTree plugin))
      (nullish (validAfter (sessionKeyData plugin)) 0%Z)
      (nullish (validUntil (sessionKeyData plugin)) 0%Z)
      (nullish (paymaster (sessionKeyData plugin)) zeroAddress) n in
  enableDataOf plugin n = Ok (joinFields fields)
  /\ map String.length fields = [40; 64; 12; 12; 40; 64].
Proof.
  intros Hroot Hsigner Hpm Hva Hvu Hn fields.
  destruct (replace0x_isHex 20 _ Hsigner) as [Hs1 Hs2].
  destruct (replace0x_isHex 20 _ Hpm) as [Hp1 Hp2].
  assert (Hrootlen : String.length (hexOfBytes (MerkleTreeJs.getRoot (merkleTree plugin))) = 64)
    by (rewrite length_hexOfBytes, Hroot; reflexivity).
  split.
  - unfold enableDataOf, MerkleTreeJs.getHexRoot, MerkleTreeJs.bufferToHex.
    rewrite pad_fits by (rewrite replace0x_prefixed, Hrootlen; simpl; lia).
    rewrite replace0x_prefixed. cbn [rbind].
    rewrite (toHex_number _ (fitsBytes_6_safe _ Hva)). cbn [rbind].
    rewrite (pad_hexDigits _ 6 Hva) by lia. cbn [rbind].
    rewrite (toHex_number _ (fitsBytes_6_safe _ Hvu)). cbn [rbind].
    rewrite (pad_hexDigits _ 6 Hvu) by lia. cbn [rbind].
    rewrite (toHex_bigint n) by (destruct Hn; assumption). cbn [rbind].
    rewrite (pad_hexDigits _ 32 Hn) by lia. cbn [rbind].
    rewrite concat_six, !replace0x_prefixed, Hs1, Hp1.
    unfold joinFields, fields, enableDataFields. cbn [fold_right].
    now rewrite append_empty_r.
  - unfold fields, enableDataFields. cbn [map].
    rewrite Hs2, Hp2.
    rewrite (length_padStart _ 64) by lia.
    rewrite (length_paddedHex _ 6 Hva) by lia.
    rewrite (length_paddedHex _ 6 Hvu) by lia.
    rewrite (length_paddedHex _ 32 Hn) by lia.
    reflexivity.
Qed.

(** C2: for a built plugin whose addresses are addresses and whose validity
    window and nonce fit their widths, [getEnableData] returns the six
    fields in the fixed order, 20, 32, 6, 6, 20 and 32 bytes wide, whether
    the nonce is pinned or read from the chain. *)
Theorem getEnableData_layout
    (params : Params) (plugin : Plugin) (account : Address)
    (pinned : option Z) (n : Z) :
  Built imp client params plugin ->
  (forall b, List.length (keccak_256 imp b) = 32) ->
  isAddress (viemSignerAddress plugin) = true ->
  isAddress (nullish (paymaster (sessionKeyData plugin)) zeroAddress) = true ->
  fitsBytes 6 (nullish (validAfter (sessionKeyData plugin)) 0%Z) ->
  fitsBytes 6 (nullish (validUntil (sessionKeyData plugin)) 0%Z) ->
  fitsBytes 32 n ->
  account <> "" ->
  (pinned = Some n
   \/ (pinned = None
       /\ exists invalidNonce,
            nonces client (validatorAddress plugin) account
            = Resolved ((n - 1)%Z, invalidNonce))) ->
  let fields :=
    enableDataFields (viemSignerAddress plugin)
      (MerkleTreeJs.getRoot (merkleTree plugin))
      (nullish (validAfter (sessionKeyData plugin)) 0%Z)
      (nullish (validUntil (sessionKeyData plugin)) 0%Z)
      (nullish (paymaster (sessionKeyData plugin)) zeroAddress) n in
  resultOf (getEnableData client plugin (Some account) pinned) = Ok (joinFields fields)
  /\ map String.length fields = [40; 64; 12; 12; 40; 64].
Proof.
  intros Hb Hk Hsigner Hpm Hva Hvu Hn Hacc Hnonce fields.
  pose proof (built_root_length params plugin Hk Hb) as Hroot.
  destruct (enableDataOf_layout plugin n Hroot Hsigner Hpm Hva Hvu Hn) as [Hres Hlens].
  split; [|exact Hlens].
  apply truthyString_Some in Hacc. unfold resultOf.
  destruct Hnonce as [-> | [-> [inv Hread]]].
  - rewrite (getEnableData_pinned plugin account n Hacc). exact Hres.
  - rewrite (getEnableData_resolved plugin account Hacc), Hread.
    cbn [fst]. replace (n - 1 + 1)%Z with n by lia. exact Hres.
Qed.

(** C4, as the code has it: the "Kernel account address not provided" error
    is raised exactly when no account address is given, whether or not a
    nonce is pinned, and then without any read; with an account address and
    a pinned nonce no read is made either. *)
Theorem getEnableData_requires_account
    (plugin : Plugin) (k : option Address) (pinned : option Z) :
  (resultOf (getEnableData client plugin k pinned) = Err (JsError noAccountMessage)
   <-> truthyString k = false)
  /\ (truthyString k = false ->
      effectsOf (getEnableData client plugin k pinned) = [])
  /\ (forall account n,
        effectsOf (getEnableData client plugin (Some account) (Some n)) = []
        /\ noReads (getEnableData client plugin (Some account) (Some n)) = true).
Proof.
  repeat split.
  - intros Herr. destruct (truthyString k) eqn:Hk; [exfalso | reflexivity].
    destruct k as [account|]; [|discriminate].
    unfold resultOf in Herr. destruct pinned as [n|].
    + rewrite (getEnableData_pinned plugin account n Hk) in Herr. cbn [fst] in Herr.
      apply enableDataOf_error in Herr as [H|H]; discriminate.
    + rewrite (getEnableData_resolved plugin account Hk) in Herr.
      destruct (nonces client (validatorAddress plugin) account); cbn [fst] in Herr.
      * apply enableDataOf_error in Herr as [H|H]; discriminate.
      * discriminate.
  - intros Hk. unfold resultOf. now rewrite (getEnableData_no_account plugin k pinned Hk).
  - intros Hk. unfold effectsOf. now rewrite (getEnableData_no_account plugin k pinned Hk).
  - unfold effectsOf. destruct (truthyString (Some account)) eqn:Hk.
    + now rewrite (getEnableData_pinned plugin account n Hk).
    + now rewrite (getEnableData_no_account plugin _ _ Hk).
  - unfold noReads, effectsOf. destruct (truthyString (Some account)) eqn:Hk.
    + now rewrite (getEnableData_pinned plugin account n Hk).
    + now rewrite (getEnableData_no_account plugin _ _ Hk).
Qed.

(** C5: enable data built with the pinned nonce [n] equals enable data built
    by reading the chain, when the chain reports [n - 1] as the last used
    nonce of the account. *)
Theorem pinned_nonce_agrees_with_chain
    (plugin : Plugin) (account : Address) (n invalidNonce : Z) :
  nonces client (validatorAddress plugin) account = Resolved ((n - 1)%Z, invalidNonce) ->
  resultOf (getEnableData client plugin (Some account) (Some n))
  = resultOf (getEnableData client plugin (Some account) None).
Proof.
  intros Hread. unfold resultOf.
  destruct (truthyString (Some account)) eqn:Hk.
  - rewrite (getEnableData_pinned plugin account n Hk).
    rewrite (getEnableData_resolved plugin account Hk), Hread.
    cbn [fst]. now replace (n - 1 + 1)%Z with n by lia.
  - now rewrite !(getEnableData_no_account plugin _ _ Hk).
Qed.

(** *** A single permission *)

(** The tree over a leaf and its duplicate: the proof of the leaf is its
    twin, and walking it gives the root. *)
Lemma duplicated_leaf_tree (leaf : Hex) :
  let tree :=
    MerkleTreeJs.newMerkleTree [VString leaf; VString leaf] (keccak256 imp) configuredOptions in
  let target := VString (keccak256 imp (VString leaf)) in
  let hash := keccak_256 imp (hashInput (VString leaf)) in
  MerkleTreeJs.leaves tree = [hash; hash]
  /\ MerkleTreeJs.getProof tree target = [hash]
  /\ MerkleTreeJs.getHexProof tree target = [MerkleTreeJs.bufferToHex hash]
  /\ MerkleTreeJs.verify (keccak256 imp) configuredOptions
       (MerkleTreeJs.getProof tree target) (MerkleTreeJs.bufferify target)
       (MerkleTreeJs.getRoot tree) = true.
Proof.
  intros tree target hash.
  assert (Hleaf : MerkleTreeJs.hashFn (keccak256 imp) (VString leaf) = hash)
    by (unfold keccak256; apply hashFn_keccak256).
  assert (Htarget : MerkleTreeJs.bufferify target = hash)
    by (unfold target, keccak256; apply bufferify_keccak256).
  set (root := MerkleTreeJs.hashFn (keccak256 imp) (VBuffer (hash ++ hash)%list)).
  assert (Htree : tree = MerkleTreeJs.mkMerkleTree [hash; hash] [[hash; hash]; [root]]).
  { unfold tree, MerkleTreeJs.newMerkleTree, MerkleTreeJs.processLeaves, configuredOptions.
    cbn [MerkleTreeJs.hashLeaves map MerkleTreeJs.bufferify]. rewrite Hleaf.
    unfold MerkleTreeJs.createHashes. cbn [List.length MerkleTreeJs.createLayers Nat.leb].
    unfold MerkleTreeJs.nextLayer, MerkleTreeJs.layerLimit.
    cbn [MerkleTreeJs.complete andb List.length firstn skipn MerkleTreeJs.pairLevel app].
    unfold MerkleTreeJs.combine, MerkleTreeJs.sortPair. cbn [MerkleTreeJs.sortPairs].
    rewrite compare_refl. cbn [List.concat]. now rewrite app_nil_r. }
  assert (Hproof : MerkleTreeJs.getProof tree target = [hash]).
  { unfold MerkleTreeJs.getProof, MerkleTreeJs.leafIndex. rewrite Htarget, Htree.
    cbn [MerkleTreeJs.leaves MerkleTreeJs.leafIndexFrom]. rewrite compare_refl.
    reflexivity. }
  repeat split.
  - now rewrite Htree.
  - exact Hproof.
  - unfold MerkleTreeJs.getHexProof. now rewrite Hproof.
  - rewrite Hproof, Htarget, Htree.
    unfold MerkleTreeJs.verify, MerkleTreeJs.verifyStep, MerkleTreeJs.getRoot.
    cbn [fold_left configuredOptions MerkleTreeJs.sortPairs MerkleTreeJs.layers last].
    rewrite compare_refl. fold root. now rewrite compare_refl.
Qed.

(** C6: with exactly one permission configured, the leaves handed to the
    tree are the encoded permission and a duplicate of it; the proof of that
    leaf has one element, and verifying it recomputes the root. *)
Theorem single_permission_is_duplicated (params : Params) (plugin : Plugin)
    (input : PermissionInput) :
  Built imp client params plugin ->
  configuredPermissions params = [input] ->
  exists permission leaf,
    let target := VString (keccak256 imp (VString leaf)) in
    ruleSet plugin = [permission]
    /\ encodePermissionData imp (One permission) None = Ok leaf
    /\ encodedPermissionData imp (ruleSet plugin) = Ok [leaf; leaf]
    /\ merkleTree plugin
       = MerkleTreeJs.newMerkleTree (map VString [leaf; leaf]) (keccak256 imp)
           configuredOptions
    /\ List.length (MerkleTreeJs.leaves (merkleTree plugin)) = 2
    /\ List.length (MerkleTreeJs.getHexProof (merkleTree plugin) target) = 1
    /\ MerkleTreeJs.verify (keccak256 imp) configuredOptions
         (MerkleTreeJs.getProof (merkleTree plugin) target)
         (MerkleTreeJs.bufferify target)
         (MerkleTreeJs.getRoot (merkleTree plugin)) = true.
Proof.
  intros Hb Hone.
  destruct (built_ruleSet params plugin Hb) as (perms & Hperms & Hlen).
  rewrite Hone in Hlen. destruct perms as [|permission [|q rest]]; try discriminate.
  assert (Hrules : ruleSet plugin = [permission]) by (unfold ruleSet; now rewrite Hperms).
  destruct (built_tree params plugin Hb) as [[Hnil _] | (_ & encoded & Henc & Htree)];
    [congruence|].
  pose proof Henc as Henc'.
  apply encodedPermissionData_ok in Henc' as (leaves & Hall & ->).
  rewrite Hrules in Hall.
  inversion Hall as [|p leaf ps leaves' Hleaf Hrest]; subst. inversion Hrest; subst.
  exists permission, leaf. intros target.
  destruct (duplicated_leaf_tree leaf) as (Hleaves & Hproof & Hhex & Hverify).
  fold target in Hproof, Hhex, Hverify.
  change [VString leaf; VString leaf] with (map VString [leaf; leaf])
    in Hleaves, Hproof, Hhex, Hverify.
  rewrite <- Htree in *.
  repeat split.
  - exact Hrules.
  - exact Hleaf.
  - exact Henc.
  - exact Htree.
  - now rewrite Hleaves.
  - now rewrite Hhex.
  - exact Hverify.
Qed.

(** *** The status check *)

Lemma tryCatch_false (body : Promise bool) (t : Trace) :
  exists b t', tryCatch body (fun _ => ret false) t = (Ok b, t').
Proof.
  unfold tryCatch, ret. destruct (body t) as [[b|e] t']; eauto.
Qed.

Lemma isEnabled_total (plugin : Plugin) (account : Address) (selector : Hex) :
  exists b, resultOf (isEnabled client plugin account selector) = Ok b.
Proof.
  unfold resultOf, isEnabled.
  match goal with |- context [tryCatch ?body _ _] =>
    destruct (tryCatch_false body []) as (b & t' & H) end.
  rewrite H. now exists b.
Qed.

Lemma isEnabled_getExecution_rejected (plugin : Plugin) (account : Address)
    (selector : Hex) (reason : string) :
  getExecution client account selector = Rejected reason ->
  resultOf (isEnabled client plugin account selector) = Ok false.
Proof.
  intros H. unfold resultOf, isEnabled, tryCatch, bind, readGetExecution, perform.
  now rewrite H.
Qed.

Lemma isEnabled_sessionData_rejected (plugin : Plugin) (account : Address)
    (selector : Hex) (reason : string) :
  sessionData client (validatorAddress plugin) (signer_address (p_signer plugin)) account
  = Rejected reason ->
  resultOf (isEnabled client plugin account selector) = Ok false.
Proof.
  intros H.
  unfold resultOf, isEnabled, tryCatch, bind, readGetExecution, readSessionData, perform.
  destruct (getExecution client account selector); cbn [settle]; [|reflexivity].
  now rewrite H.
Qed.

(** What a positive answer of the session-key check guarantees. *)
Lemma isEnabled_true (plugin : Plugin) (account : Address) (selector : Hex) :
  resultOf (isEnabled client plugin account selector) = Ok true ->
  exists execDetail stored storedHex expected,
    getExecution client account selector = Resolved execDetail
    /\ sessionData client (validatorAddress plugin)
         (signer_address (p_signer plugin)) account = Resolved stored
    /\ toLowerCase (exec_validator execDetail) = toLowerCase (validatorAddress plugin)
    /\ sd_nonce stored <> 0%Z
    /\ storedEnableData plugin stored = Ok storedHex
    /\ resultOf (getEnableData client plugin (Some account) (Some (sd_nonce stored)))
       = Ok expected
    /\ toLowerCase storedHex = toLowerCase expected.
Proof.
  unfold resultOf, isEnabled, tryCatch, bind, readGetExecution, readSessionData,
    perform, lift, ret.
  destruct (getExecution client account selector) as [execDetail|];
    cbn [settle]; [|discriminate].
  destruct (sessionData client (validatorAddress plugin)
              (signer_address (p_signer plugin)) account) as [stored|];
    cbn [settle]; [|discriminate].
  destruct (storedEnableData plugin stored) as [storedHex|] eqn:Hstored; [|discriminate].
  destruct (String.eqb_spec (toLowerCase (exec_validator execDetail))
                            (toLowerCase (validatorAddress plugin))) as [Hval|];
    [|discriminate].
  destruct (Z.eqb_spec (sd_nonce stored) 0) as [|Hnz]; cbn [negb]; [discriminate|].
  match goal with
  | |- context [getEnableData client plugin ?k ?n ?t] =>
      destruct (getEnableData client plugin k n t) as [[expected|] t'] eqn:Hexp
  end; [|discriminate].
  cbn [fst]. intros H. inversion H as [Heq]. apply String.eqb_eq in Heq.
  exists execDetail, stored, storedHex, expected. repeat split; try assumption.
  destruct (truthyString (Some account)) eqn:Hk.
  - rewrite (getEnableData_pinned plugin account _ Hk) in Hexp |- *.
    cbn [fst]. now inversion Hexp.
  - rewrite (getEnableData_no_account plugin _ _ Hk) in Hexp. discriminate.
Qed.

(** C9: a stored session whose nonce is 0 is reported as not enabled,
    whatever the validator and the other stored fields are. *)
Theorem isEnabled_zero_nonce (plugin : Plugin) (account : Address) (selector : Hex)
    (stored : SessionDataTuple) :
  sessionData client (validatorAddress plugin) (signer_address (p_signer plugin)) account
  = Resolved stored ->
  sd_nonce stored = 0%Z ->
  resultOf (isEnabled client plugin account selector) = Ok false.
Proof.
  intros Hread Hzero.
  destruct (isEnabled_total plugin account selector) as [[|] Hb]; [|exact Hb].
  destruct (isEnabled_true plugin account selector Hb)
    as (e & stored' & sh & ex & _ & Hread' & _ & Hnz & _).
  rewrite Hread in Hread'. inversion Hread'. subst. contradiction.
Qed.

End Facts.
End SessionKeyFacts.

(** ** The modular-permission plugin *)

Module ModularPermissionFacts.
Import ModularPermission TextFacts.
Local Open Scope promise_scope.

Section Facts.
Variable imp : Imports.
Variable client : Client.
Variable plugin : Plugin.





(** The permission id is that hash or the range error, nothing else. *)
Lemma getPermissionId_cases :
  getPermissionId imp plugin = Ok (permissionIdOf imp plugin)
  \/ getPermissionId imp plugin = Err IntegerOutOfRangeError.
Proof.
  unfold getPermissionId, encodeAbiParameters.
  destruct (integersInRange permissionIdParameters (permissionIdValues imp plugin));
    [left | right]; reflexivity.
Qed.



Lemma modular_isEnabled_total (account : Address) (selector : Hex) :
  exists b, resultOf (isEnabled imp client plugin account selector) = Ok b.
Proof.
  unfold resultOf, isEnabled.
  match goal with |- context [tryCatch ?body _ _] =>
    destruct (SessionKeyFacts.tryCatch_false body []) as (b & t' & H) end.
  rewrite H. now exists b.
Qed.

Lemma modular_isEnabled_getExecution_rejected (account : Address) (selector : Hex)
    (reason : string) :
  getExecution client account selector = Rejected reason ->
  resultOf (isEnabled imp client plugin account selector) = Ok false.
Proof.
  intros H. unfold resultOf, isEnabled, tryCatch, bind, readGetExecution, perform.
  now rewrite H.
Qed.

Lemma isEnabled_permissions_rejected (account : Address) (selector : Hex)
    (permissionId : Hex) (reason : string) :
  getPermissionId imp plugin = Ok permissionId ->
  permissions client (validatorAddress plugin) permissionId account = Rejected reason ->
  resultOf (isEnabled imp client plugin account selector) = Ok false.
Proof.
  intros Hid H.
  unfold resultOf, isEnabled, tryCatch, bind, lift, readGetExecution, readPermissions,
    perform.
  destruct (getExecution client account selector); cbn [settle]; [|reflexivity].
  now rewrite Hid, H.
Qed.

(** A permission id that cannot be computed is caught like a failed read. *)
Lemma isEnabled_permissionId_error (account : Address) (selector : Hex) (e : Error) :
  getPermissionId imp plugin = Err e ->
  resultOf (isEnabled imp client plugin account selector) = Ok false.
Proof.
  intros Hid.
  unfold resultOf, isEnabled, tryCatch, bind, lift, readGetExecution, perform.
  destruct (getExecution client account selector); cbn [settle]; [|reflexivity].
  now rewrite Hid.
Qed.

(** What a positive answer of the modular check guarantees. *)
Lemma modular_isEnabled_true (account : Address) (selector : Hex) :
  resultOf (isEnabled imp client plugin account selector) = Ok true ->
  exists execDetail permissionId permission,
    getExecution client account selector = Resolved execDetail
    /\ getPermissionId imp plugin = Ok permissionId
    /\ permissions client (validatorAddress plugin) permissionId account
       = Resolved permission
    /\ toLowerCase (exec_validator execDetail) = toLowerCase (validatorAddress plugin)
    /\ perm_3 permission <> zeroBytes32.
Proof.
  unfold resultOf, isEnabled, tryCatch, bind, lift, readGetExecution, readPermissions,
    perform, ret.
  destruct (getExecution client account selector) as [execDetail|];
    cbn [settle]; [|discriminate].
  destruct (getPermissionId imp plugin) as [permissionId|]; [|discriminate].
  destruct (permissions client (validatorAddress plugin) permissionId account)
    as [permission|] eqn:Hperm; cbn [settle]; [|discriminate].
  cbn [fst]. intros H. inversion H as [Hb]. apply andb_true_iff in Hb as [Hv Hp].
  apply String.eqb_eq in Hv. apply negb_true_iff, String.eqb_neq in Hp.
  now exists execDetail, permissionId, permission.
Qed.

End Facts.
End ModularPermissionFacts.

(** ** The status check of both plugins *)

Module StatusFacts.

(** C8, as the code has it: [isEnabled] always resolves to a boolean, in
    both plugins, and a rejected read gives false.  True is answered only
    when the validator the account has stored equals the configured
    validator address up to letter case and, in the session-key plugin, the
    stored session written out equals the enable data derived locally, up to
    letter case; the modular plugin derives no enable data and asks instead
    that position 3 of the stored permission is not the zero word.  The
    modular plugin reads the permission stored under its permission id; an
    id that cannot be computed is caught like a failed read. *)
Theorem isEnabled_never_throws
    (client : Client)
    (skPlugin : SessionKey.Plugin)
    (mpImports : ModularPermission.Imports) (mpPlugin : ModularPermission.Plugin)
    (account : Address) (selector : Hex) :
  let sk := resultOf (SessionKey.isEnabled client skPlugin account selector) in
  let mp := resultOf (ModularPermission.isEnabled mpImports client mpPlugin account selector) in
  ((exists b, sk = Ok b) /\ (exists b, mp = Ok b))
  /\ (forall reason,
        getExecution client account selector = Rejected reason ->
        sk = Ok false /\ mp = Ok false)
  /\ (forall reason,
        sessionData client (SessionKey.validatorAddress skPlugin)
          (SessionKey.signer_address (SessionKey.p_signer skPlugin)) account
        = Rejected reason ->
        sk = Ok false)
  /\ (forall reason permissionId,
        ModularPermission.getPermissionId mpImports mpPlugin = Ok permissionId ->
        permissions client (ModularPermission.validatorAddress mpPlugin)
          permissionId account
        = Rejected reason ->
        mp = Ok false)
  /\ (forall e,
        ModularPermission.getPermissionId mpImports mpPlugin = Err e -> mp = Ok false)
  /\ (sk = Ok true ->
      exists execDetail stored storedHex expected,
        getExecution client account selector = Resolved execDetail
        /\ sessionData client (SessionKey.validatorAddress skPlugin)
             (SessionKey.signer_address (SessionKey.p_signer skPlugin)) account
           = Resolved stored
        /\ toLowerCase (exec_validator execDetail)
           = toLowerCase (SessionKey.validatorAddress skPlugin)
        /\ SessionKey.storedEnableData skPlugin stored = Ok storedHex
        /\ resultOf (SessionKey.getEnableData client skPlugin (Some account)
                       (Some (sd_nonce stored))) = Ok expected
        /\ toLowerCase storedHex = toLowerCase expected)
  /\ (mp = Ok true ->
      exists execDetail permissionId permission,
        getExecution client account selector = Resolved execDetail
        /\ ModularPermission.getPermissionId mpImports mpPlugin = Ok permissionId
        /\ permissions client (ModularPermission.validatorAddress mpPlugin)
             permissionId account
           = Resolved permission
        /\ toLowerCase (exec_validator execDetail)
           = toLowerCase (ModularPermission.validatorAddress mpPlugin)
        /\ perm_3 permission <> ModularPermission.zeroBytes32).
Proof.
  intros sk mp. repeat split.
  - apply SessionKeyFacts.isEnabled_total.
  - apply ModularPermissionFacts.modular_isEnabled_total.
  - eapply SessionKeyFacts.isEnabled_getExecution_rejected; eauto.
  - eapply ModularPermissionFacts.modular_isEnabled_getExecution_rejected; eauto.
  - intros reason H. eapply SessionKeyFacts.isEnabled_sessionData_rejected; eauto.
  - intros reason permissionId Hid H.
    eapply ModularPermissionFacts.isEnabled_permissions_rejected; eauto.
  - intros e Hid. eapply ModularPermissionFacts.isEnabled_permissionId_error; eauto.
  - intros H.
    destruct (SessionKeyFacts.isEnabled_true client skPlugin account selector H)
      as (e & st & sh & ex & H1 & H2 & H3 & _ & H5 & H6 & H7).
    now exists e, st, sh, ex.
  - intros H.
    destruct (ModularPermissionFacts.modular_isEnabled_true mpImports client mpPlugin account selector H)
      as (e & pid & p & H1 & H2 & H3 & H4 & H5).
    now exists e, pid, p.
Qed.

End StatusFacts.

(** ** The sample configuration, run *)

Module SampleRuns.
Import SessionKey Sample.
Import SessionKeyFacts ModularPermissionFacts StatusFacts.

Lemma sampleHash_length (bs : ByteArray) : List.length (sampleHash bs) = 32.
Proof.
  unfold sampleHash. cbn [List.length].
  rewrite length_firstn, length_app, repeat_length. lia.
Qed.

Lemma onePermission_built (stored : SessionDataTuple) :
  Built sampleImports (sampleClient stored) (sampleParams [samplePermissionInput])
        onePermission.
Proof. exists [], [GetChainId]. reflexivity. Qed.

Lemma noPermission_built (stored : SessionDataTuple) :
  Built sampleImports (sampleClient stored) (sampleParams []) noPermission.
Proof. exists [], [GetChainId]. reflexivity. Qed.

(** The scenario of the specification: one rule for selector 0x11223344;
    an operation with that selector is signed with a non-empty proof
    segment, an operation with another selector is refused. *)
Example matching_operation_is_signed :
  resultOf (signUserOperation sampleImports (sampleClient (storedSession 5))
              onePermission matchingOperation)
  = Ok (concat [ sampleSignerAddress; sampleFixedSignature;
                 sampleEncode
                   (One {| target := "0xaaaaaaaaaaaaaaaaaaaaaaaaaaaaaaaaaaaaaaaa";
                           valueLimit := 0; sig := "0x11223344"; rules := [];
                           index := 0; executionRule := mkExecutionRule 0 0 0;
                           operation := Call; abiCall := mkAbiCall None None [] |})
                   (Some [Sibling
                            "0x01aaaaaaaaaaaaaaaaaaaaaaaaaaaaaaaaaaaaaaaa1122334400000000000000"]) ]).
Proof. reflexivity. Qed.

(** With every stored field matching and the validator differing only in
    letter case, the session is reported enabled. *)
Example enabled_up_to_letter_case :
  exec_validator (mkExecutionDetail 0 0 zeroAddress (toLowerCase sampleValidator))
  <> validatorAddress onePermission
  /\ resultOf (isEnabled (sampleClient (storedSession 5)) onePermission
                 sampleAccount "0x11223344") = Ok true
  /\ resultOf (ModularPermission.isEnabled modularImports (sampleClient (storedSession 5))
                 modularPlugin sampleAccount "0x11223344") = Ok true.
Proof. repeat split. discriminate. Qed.

(** A tree of three leaves: the third has no neighbour and moves up
    unchanged; every leaf's proof verifies against the root. *)
Example three_leaves_verify :
  let hash := Viem.keccak256 sampleHash in
  let tree :=
    MerkleTreeJs.newMerkleTree [VString "0x01"; VString "0x02"; VString "0x03"]
      hash configuredOptions in
  map (@List.length _) (MerkleTreeJs.layers tree) = [3; 2; 1]
  /\ nth_error (nth 1 (MerkleTreeJs.layers tree) []) 1
     = nth_error (MerkleTreeJs.leaves tree) 2
  /\ forallb (fun leaf =>
                MerkleTreeJs.verify hash configuredOptions
                  (MerkleTreeJs.getProof tree (VBuffer leaf)) leaf
                  (MerkleTreeJs.getRoot tree))
             (MerkleTreeJs.leaves tree) = true
  /\ map (fun leaf => List.length (MerkleTreeJs.getProof tree (VBuffer leaf)))
         (MerkleTreeJs.leaves tree) = [2; 2; 1].
Proof. repeat split. Qed.

(** C1 on the sample: one rule refuses another selector; no rule lets it
    through with an empty proof segment; and the operation the rule matches
    is signed with the rule and a proof of one sibling, the rule's twin,
    that leads to the root. *)
Lemma signUserOperation_authorization_witness :
  resultOf (signUserOperation sampleImports (sampleClient (storedSession 5))
              onePermission unmatchedOperation)
  = Err (JsError noMatchMessage)
  /\ resultOf (signUserOperation sampleImports (sampleClient (storedSession 5))
                 noPermission unmatchedOperation)
     = Ok (concat [sampleSignerAddress; sampleFixedSignature; "0x"])
  /\ exists leaf,
       encodePermissionData sampleImports (One sampleRule) None = Ok leaf
       /\ MerkleTreeJs.verify (keccak256 sampleImports) configuredOptions
            (map (fun h => MerkleTreeJs.bufferify (VString h))
                 (MerkleTreeJs.getHexProof (merkleTree onePermission)
                    (VString (keccak256 sampleImports (VString leaf)))))
            (MerkleTreeJs.bufferify (VString (keccak256 sampleImports (VString leaf))))
            (MerkleTreeJs.getRoot (merkleTree onePermission)) = true
       /\ resultOf (signUserOperation sampleImports (sampleClient (storedSession 5))
                      onePermission matchingOperation)
          = rbind (encodePermissionData sampleImports (One sampleRule)
                     (Some (map Sibling
                              (MerkleTreeJs.getHexProof (merkleTree onePermission)
                                 (VString (keccak256 sampleImports (VString leaf)))))))
                  (fun proof =>
                     Ok (concat [sampleSignerAddress; sampleFixedSignature; proof])).
Proof.
  split; [|split].
  - assert (Hroot : ruleSet onePermission <> [] ->
                    MerkleTreeJs.getHexRoot (merkleTree onePermission) <> zeroRoot)
      by (intros _; vm_compute; discriminate).
    assert (Hsel : encodesMatched sampleImports
                     (findMatchingPermissions sampleImports (callData unmatchedOperation)
                        (permissions (sessionKeyData onePermission))))
      by (intros p Hin; vm_compute in Hin; contradiction).
    destruct (signUserOperation_authorization sampleImports (sampleClient (storedSession 5))
                (sampleParams [samplePermissionInput]) onePermission unmatchedOperation
                (hashOfSample unmatchedOperation) sampleSignature sampleFixedSignature
                (onePermission_built (storedSession 5)) eq_refl eq_refl eq_refl Hroot Hsel)
      as (Hrefused & _).
    apply Hrefused; [vm_compute; discriminate | reflexivity].
  - assert (Hroot : ruleSet noPermission <> [] ->
                    MerkleTreeJs.getHexRoot (merkleTree noPermission) <> zeroRoot)
      by (intros H; exfalso; apply H; reflexivity).
    assert (Hsel : encodesMatched sampleImports
                     (findMatchingPermissions sampleImports (callData unmatchedOperation)
                        (permissions (sessionKeyData noPermission))))
      by (intros p Hin; vm_compute in Hin; contradiction).
    destruct (signUserOperation_authorization sampleImports (sampleClient (storedSession 5))
                (sampleParams []) noPermission unmatchedOperation
                (hashOfSample unmatchedOperation) sampleSignature sampleFixedSignature
                (noPermission_built (storedSession 5)) eq_refl eq_refl eq_refl Hroot Hsel)
      as (_ & _ & _ & Hungated & _).
    apply Hungated. reflexivity.
  - assert (Hroot : ruleSet onePermission <> [] ->
                    MerkleTreeJs.getHexRoot (merkleTree onePermission) <> zeroRoot)
      by (intros _; vm_compute; discriminate).
    assert (Hsel : selectsFrom (permissions (sessionKeyData onePermission))
                     (findMatchingPermissions sampleImports (callData matchingOperation)
                        (permissions (sessionKeyData onePermission))))
      by (intros p Hin; exact Hin).
    destruct (signUserOperation_authorization sampleImports (sampleClient (storedSession 5))
                (sampleParams [samplePermissionInput]) onePermission matchingOperation
                (hashOfSample matchingOperation) sampleSignature sampleFixedSignature
                (onePermission_built (storedSession 5)) eq_refl eq_refl eq_refl Hroot
                (built_encodesMatched sampleImports (sampleClient (storedSession 5))
                   (sampleParams [samplePermissionInput]) onePermission _
                   (onePermission_built (storedSession 5)) Hsel))
      as (_ & _ & _ & _ & Hone & _).
    destruct (Hone sampleRule) as (leaf & Hleaf & Hverifies & Hsigned);
      [vm_compute; discriminate | reflexivity |].
    exists leaf. split; [exact Hleaf|]. split; [|exact Hsigned].
    apply Hverifies. left. reflexivity.
Defined.

(** C1, counterexample to the wording: one rule is configured and the
    matcher answers the call data of an empty batch with an empty list, so
    no rule matches; the list is truthy, the guard lets it through and the
    operation is signed. *)
Lemma empty_match_is_signed :
  Built batchImports (sampleClient (storedSession 5))
    (sampleParams [samplePermissionInput]) onePermission
  /\ ruleSet onePermission <> []
  /\ matchedRules
       (findMatchingPermissions batchImports (callData emptyBatchOperation)
          (permissions (sessionKeyData onePermission))) = []
  /\ resultOf (signUserOperation batchImports (sampleClient (storedSession 5))
                 onePermission emptyBatchOperation)
     = Ok (concat [sampleSignerAddress; sampleFixedSignature; "0x"])
  /\ resultOf (signUserOperation batchImports (sampleClient (storedSession 5))
                 onePermission emptyBatchOperation)
     <> Err (JsError noMatchMessage).
Proof.
  split; [exists [], [GetChainId]; reflexivity|].
  split; [vm_compute; discriminate|].
  split; [reflexivity|].
  split; [reflexivity|].
  vm_compute. discriminate.
Qed.

(** C2 on the sample, with the nonce read from the chain (4, so 5). *)
Lemma getEnableData_layout_witness :
  resultOf (getEnableData (sampleClient (storedSession 5)) onePermission
              (Some sampleAccount) None)
  = Ok ("0x" ++ "70997970C51812dc3A010C7d01b50e0d17dc79C8"
             ++ "0101aaaaaaaaaaaaaaaaaaaaaaaaaaaaaaaaaaaaaaaa11223344000000000000"
             ++ "000000000064"
             ++ "0000000000c8"
             ++ "0000000000000000000000000000000000000001"
             ++ "0000000000000000000000000000000000000000000000000000000000000005").
Proof.
  apply (getEnableData_layout sampleImports (sampleClient (storedSession 5))
           (sampleParams [samplePermissionInput]) onePermission sampleAccount None 5%Z).
  - apply onePermission_built.
  - apply sampleHash_length.
  - reflexivity.
  - reflexivity.
  - fits.
  - fits.
  - fits.
  - discriminate.
  - right. split; [reflexivity | now exists 0%Z].
Defined.

(** C3 on the sample without permissions. *)
Lemma empty_rule_set_is_ungated_witness :
  MerkleTreeJs.getHexRoot (merkleTree noPermission) = zeroRoot
  /\ getEncodedPermissionProofData sampleImports noPermission "0xdeadbeef" = Ok "0x".
Proof.
  destruct (empty_rule_set_is_ungated sampleImports (sampleClient (storedSession 5))
              (sampleParams []) noPermission
              (noPermission_built (storedSession 5)) eq_refl)
    as (_ & _ & _ & Hroot & Hproof).
  split; [exact Hroot | apply Hproof].
  intros p Hin. vm_compute in Hin. contradiction.
Defined.

(** C5 on the sample: the chain reports 4, the pinned nonce is 5. *)
Lemma pinned_nonce_agrees_with_chain_witness :
  resultOf (getEnableData (sampleClient (storedSession 5)) onePermission
              (Some sampleAccount) (Some 5%Z))
  = resultOf (getEnableData (sampleClient (storedSession 5)) onePermission
                (Some sampleAccount) None).
Proof.
  apply (pinned_nonce_agrees_with_chain (sampleClient (storedSession 5)) onePermission
           sampleAccount 5%Z 0%Z).
  reflexivity.
Defined.

(** C6 on the sample with its one permission. *)
Lemma single_permission_is_duplicated_witness :
  exists permission leaf,
    ruleSet onePermission = [permission]
    /\ encodePermissionData sampleImports (One permission) None = Ok leaf
    /\ List.length (MerkleTreeJs.leaves (merkleTree onePermission)) = 2
    /\ List.length
         (MerkleTreeJs.getHexProof (merkleTree onePermission)
            (VString (keccak256 sampleImports (VString leaf))))
       = 1.
Proof.
  destruct (single_permission_is_duplicated sampleImports (sampleClient (storedSession 5))
              (sampleParams [samplePermissionInput]) onePermission samplePermissionInput
              (onePermission_built (storedSession 5)) eq_refl)
    as (permission & leaf & Hrules & Hleaf & _ & _ & Hleaves & Hproof & _).
  exists permission, leaf. repeat split; assumption.
Defined.


(** C9 on the sample: the same stored session is enabled with nonce 5 and
    not enabled with nonce 0. *)
Lemma isEnabled_zero_nonce_witness :
  resultOf (isEnabled (sampleClient (storedSession 5)) onePermission
              sampleAccount "0x11223344") = Ok true
  /\ resultOf (isEnabled (sampleClient (storedSession 0)) onePermission
                 sampleAccount "0x11223344") = Ok false.
Proof.
  split; [reflexivity|].
  apply (isEnabled_zero_nonce (sampleClient (storedSession 0)) onePermission
           sampleAccount "0x11223344" (storedSession 0)); reflexivity.
Defined.


(** C8, counterexample to the wording for both plugins: the modular plugin
    answers true
    although the enable data it derives for the account (nonce 5, its own
    signer contract) differs from what the validator has stored (nonce 4,
    another signer). *)
Lemma modular_enabled_despite_mismatch :
  resultOf (ModularPermission.isEnabled modularImports (sampleClient (storedSession 5))
              modularPlugin sampleAccount "0x11223344") = Ok true
  /\ exists permissionId stored,
       ModularPermission.getPermissionId modularImports modularPlugin = Ok permissionId
       /\ Chain.permissions (sampleClient (storedSession 5))
            (ModularPermission.validatorAddress modularPlugin)
            permissionId sampleAccount
          = Resolved stored
       /\ resultOf (ModularPermission.getEnableData modularImports
                      (sampleClient (storedSession 5)) modularPlugin (Some sampleAccount))
          = Ok ("0x" ++ paddedHex 5 16
                     ++ ModularPermission.enableDataTail modularImports modularPlugin)
       /\ perm_0 stored <> 5%Z
       /\ perm_2 stored
          <> ModularPermission.signerContractAddress
               (ModularPermission.signer (ModularPermission.p_params modularPlugin)).
Proof.
  split; [reflexivity|].
  eexists. eexists. split; [reflexivity|]. split; [reflexivity|].
  repeat split; discriminate.
Qed.

(** C4, counterexample to the wording: with a pinned nonce and no account
    address [getEnableData] does not succeed; it raises the "Kernel account
    address not provided" error. *)
Lemma pinned_nonce_without_account_fails :
  resultOf (getEnableData (sampleClient (storedSession 5)) onePermission
              None (Some 5%Z))
  = Err (JsError noAccountMessage)
  /\ isOk (resultOf (getEnableData (sampleClient (storedSession 5)) onePermission
                       None (Some 5%Z))) = false.
Proof. split; reflexivity. Qed.

End SampleRuns.

(** ** More on the session-key plugin *)

Module PluginFacts.
Import SessionKey Layouts TextFacts TreeFacts SessionKeyFacts ProofFacts ValueFacts.
Local Open Scope promise_scope.




Lemma append_cancel_l (a b c : string) : a ++ b = a ++ c -> b = c.
Proof. induction a as [|x a IH]; simpl; intros H; [exact H | inversion H; auto]. Qed.

Section Facts.
Variable imp : Imports.
Variable client : Client.

(** *** Construction *)

(** Filling in the defaults never fails: the selector is given, derived or
    the zero selector. *)
Lemma fillPermission_ok (generated : option (list Generated)) (input : PermissionInput)
    (idx : nat) :
  let derived := generatedAt generated idx in
  exists p,
    fillPermission generated input idx = Ok p
    /\ index p = idx
    /\ target p = in_target input
    /\ valueLimit p = nullish (in_valueLimit input) 0%Z
    /\ sig p = nullish (nullishOpt (in_sig input)
                          (match derived with Some g => fst g | None => None end))
                       "0x00000000"
    /\ rules p = nullish (nullishOpt (in_rules input)
                            (match derived with Some g => snd g | None => None end)) []
    /\ executionRule p = nullish (in_executionRule input) (mkExecutionRule 0 0 0)
    /\ operation p = nullish (in_operation input) Call
    /\ abiCall p = in_abiCall input.
Proof.
  intros derived. unfold fillPermission. fold derived.
  destruct (nullishOpt (in_sig input)
              (match derived with Some g => fst g | None => None end))
    as [s|]; cbn [rbind nullish]; eexists; repeat split.
Qed.

Lemma sequence_fill (generated : option (list Generated)) (inputs : list PermissionInput) :
  forall i0,
  exists perms,
    sequence (mapi (fillPermission generated) i0 inputs) = Ok perms
    /\ forall k input, nth_error inputs k = Some input ->
         exists p, nth_error perms k = Some p
                   /\ fillPermission generated input (i0 + k) = Ok p.
Proof.
  induction inputs as [|input inputs IH]; intros i0.
  - exists []. split; [reflexivity|]. intros [|k] input H; discriminate.
  - destruct (fillPermission_ok generated input i0) as (p & Hp & _).
    destruct (IH (S i0)) as (perms & Hseq & Hnth).
    exists (p :: perms). split.
    + cbn [mapi sequence]. rewrite Hp. cbn [rbind]. rewrite Hseq. reflexivity.
    + intros [|k] input' H.
      * inversion H. subst. exists p. split; [reflexivity|]. now rewrite Nat.add_0_r.
      * destruct (Hnth k input' H) as (q & Hq & Hfill).
        exists q. split; [exact Hq|]. now replace (i0 + S k) with (S i0 + k) by lia.
Qed.








(** *** The rule set *)

Lemma built_rules (params : Params) (plugin : Plugin) :
  Built imp client params plugin ->
  forall k input,
    nth_error (configuredPermissions params) k = Some input ->
    exists g p,
      getPermissionFromABI imp (in_abiCall input) = Ok g
      /\ nth_error (ruleSet plugin) k = Some p
      /\ index p = k
      /\ target p = in_target input
      /\ valueLimit p = nullish (in_valueLimit input) 0%Z
      /\ sig p = nullish (nullishOpt (in_sig input) (fst g)) "0x00000000"
      /\ rules p = nullish (nullishOpt (in_rules input) (snd g)) []
      /\ executionRule p = nullish (in_executionRule input) (mkExecutionRule 0 0 0)
      /\ operation p = nullish (in_operation input) Call.
Proof.
  intros Hb k input Hk.
  destruct (built_inv imp client params plugin Hb)
    as (data & vs & chain & tree & Hd & _ & _ & _ & ->).
  unfold ruleSet. cbn [sessionKeyData].
  unfold buildSessionKeyData in Hd. unfold configuredPermissions in Hk.
  destruct (validatorData params) as [d|]; [|destruct k; discriminate].
  destruct (vd_permissions d) as [inputs|]; cbn [nullish] in Hk; [|destruct k; discriminate].
  unfold generatedPermissionParams in Hd.
  destruct (sequence (map (fun perm => getPermissionFromABI imp (in_abiCall perm)) inputs))
    as [gs|] eqn:Hgs; [|discriminate].
  cbn [rbind] in Hd. apply sequence_map_Forall2 in Hgs.
  destruct (sequence_fill (Some gs) inputs 0) as (perms & Hseq & Hnth).
  rewrite Hseq in Hd. cbn [rbind] in Hd. inversion Hd. cbn [permissions nullish].
  destruct (Hnth k input Hk) as (p & Hp & Hfill). cbn [Nat.add] in Hfill.
  assert (Hg : exists g, nth_error gs k = Some g
                         /\ getPermissionFromABI imp (in_abiCall input) = Ok g).
  { clear - Hgs Hk. revert k Hk. induction Hgs as [|x g l gs' Hx _ IH]; intros k Hk.
    - destruct k; discriminate.
    - destruct k as [|k]; cbn [nth_error] in *.
      + inversion Hk. subst. now exists g.
      + exact (IH k Hk). }
  destruct Hg as (g & Hgk & Hgi).
  destruct (fillPermission_ok (Some gs) input k)
    as (q & Hq & Hi & Ht & Hv & Hs & Hr & He & Ho & _).
  rewrite Hfill in Hq. inversion Hq. subst q.
  cbn [generatedAt] in Hs, Hr. rewrite Hgk in Hs, Hr.
  exists g, p. repeat split; assumption.
Qed.

(** X2: the rule at position [k] is the permission configured at position
    [k] with its defaults filled in: its index is [k]; a selector or rule
    list the caller gave wins over the one derived from the ABI, which wins
    over the zero selector and the empty list; the value limit defaults to
    0, the operation to Call and the execution rule to zeros. *)
Theorem rule_defaults_and_index (params : Params) (plugin : Plugin)
    (k : nat) (input : PermissionInput) :
  Built imp client params plugin ->
  nth_error (configuredPermissions params) k = Some input ->
  exists generated p,
    getPermissionFromABI imp (in_abiCall input) = Ok generated
    /\ nth_error (ruleSet plugin) k = Some p
    /\ index p = k
    /\ target p = in_target input
    /\ valueLimit p = nullish (in_valueLimit input) 0%Z
    /\ sig p = match in_sig input, fst generated with
               | Some s, _ => s
               | None, Some s => s
               | None, None => "0x00000000"
               end
    /\ rules p = match in_rules input, snd generated with
                 | Some r, _ => r
                 | None, Some r => r
                 | None, None => []
                 end
    /\ executionRule p = nullish (in_executionRule input) (mkExecutionRule 0 0 0)
    /\ operation p = nullish (in_operation input) Call.
Proof.
  intros Hb Hk.
  destruct (built_rules params plugin Hb k input Hk)
    as (g & p & Hg & Hp & Hi & Ht & Hv & Hs & Hr & He & Ho).
  exists g, p. repeat split; try assumption.
  - rewrite Hs. now destruct (in_sig input), (fst g).
  - rewrite Hr. now destruct (in_rules input), (snd g).
Qed.

(** *** The tree of a built plugin *)

(** X3: the tree of a built plugin has one leaf for no permission (the
    placeholder), two for one permission and one a permission otherwise;
    with permissions configured every leaf is the hash of an encoded
    permission of the rule set; and the top layer is a single node. *)
Theorem tree_leaves (params : Params) (plugin : Plugin) :
  Built imp client params plugin ->
  List.length (MerkleTreeJs.leaves (merkleTree plugin))
  = leafCount (List.length (configuredPermissions params))
  /\ (ruleSet plugin <> [] ->
      forall leaf, In leaf (MerkleTreeJs.leaves (merkleTree plugin)) ->
        exists p e,
          In p (ruleSet plugin)
          /\ encodePermissionData imp (One p) None = Ok e
          /\ leaf = keccak_256 imp (hashInput (VString e)))
  /\ List.length (last (MerkleTreeJs.layers (merkleTree plugin)) []) = 1.
Proof.
  intros Hb.
  destruct (built_ruleSet imp client params plugin Hb) as (perms & Hperms & Hlen).
  assert (Hrules : ruleSet plugin = perms) by (unfold ruleSet; now rewrite Hperms).
  destruct (built_tree imp client params plugin Hb)
    as [[Hnil Htree] | (Hne & encoded & Henc & Htree)].
  - rewrite Htree, <- Hlen, <- Hrules, Hnil.
    split; [reflexivity | split; [congruence | reflexivity]].
  - rewrite Htree, configured_leaves. repeat split.
    + rewrite length_map, <- Hlen, <- Hrules.
      exact (encodedPermissionData_length imp _ _ Henc Hne).
    + intros _ leaf Hin. apply in_map_iff in Hin as (e & <- & He).
      destruct (encodedPermissionData_from imp _ _ e Henc He) as (p & Hp & Hpe).
      now exists p, e.
    + unfold MerkleTreeJs.newMerkleTree, MerkleTreeJs.processLeaves.
      cbn [MerkleTreeJs.layers]. apply createHashes_single_root.
      pose proof (encodedPermissionData_nonempty imp _ _ Henc Hne) as Hin.
      destruct encoded; [congruence | discriminate].
Qed.

(** X4: for every permission of the rule set of a built plugin, the proof
    [getProof] gives for its leaf is accepted by [verify] against the root;
    the hex proof that [merkleProof] puts into the signature reads back as
    that proof, entry by entry. *)
Theorem configured_permission_proof_verifies (params : Params) (plugin : Plugin)
    (p : Permission) :
  Built imp client params plugin ->
  In p (ruleSet plugin) ->
  exists leaf,
    encodePermissionData imp (One p) None = Ok leaf
    /\ let target := VString (keccak256 imp (VString leaf)) in
       let tree := merkleTree plugin in
       MerkleTreeJs.verify (keccak256 imp) configuredOptions
         (MerkleTreeJs.getProof tree target) (MerkleTreeJs.bufferify target)
         (MerkleTreeJs.getRoot tree) = true
       /\ merkleProof imp plugin leaf (Some (One p))
          = Ok (map Sibling (MerkleTreeJs.getHexProof tree target))
       /\ map (fun h => MerkleTreeJs.bufferify (VString h))
              (MerkleTreeJs.getHexProof tree target)
          = MerkleTreeJs.getProof tree target.
Proof.
  intros Hb Hin.
  destruct (built_encodes imp client params plugin p Hb Hin) as (leaf & Hleaf).
  exists leaf. split; [exact Hleaf|]. intros target tree.
  split; [|split; [reflexivity | apply getHexProof_reads_back]].
  exact (rule_proof_verifies imp client params plugin p leaf Hb Hin Hleaf).
Qed.

(** *** Signing *)

(** X5: [signUserOperation] computes the operation hash first; when
    [getUserOperationHash] refuses the operation nothing is signed and no
    call is made.  Otherwise it makes exactly one external call, the
    signature of that hash by the session key, and no contract read; a signer
    that rejects, or a signature that cannot be fixed, decides the outcome
    whatever the rule set says.  [getStubSignature] makes no external call at
    all, and neither looks at the signature the operation arrives with. *)
Theorem signUserOperation_footprint (plugin : Plugin) (op : UserOperation) :
  let hashed :=
    getUserOperationHash imp (withEmptySignature op) (ep_address (p_entryPoint plugin))
      (ep_version (p_entryPoint plugin)) (chainId plugin) in
  effectsOf (signUserOperation imp client plugin op)
  = match hashed with
    | Ok hash => [SignMessage (viemSignerAddress plugin) hash]
    | Err _ => []
    end
  /\ noReads (signUserOperation imp client plugin op) = true
  /\ (forall e, hashed = Err e ->
        resultOf (signUserOperation imp client plugin op) = Err e)
  /\ (forall hash reason,
        hashed = Ok hash ->
        signRaw client (viemSignerAddress plugin) hash = Rejected reason ->
        resultOf (signUserOperation imp client plugin op) = Err (SignerError reason))
  /\ (forall hash sig_ e,
        hashed = Ok hash ->
        signRaw client (viemSignerAddress plugin) hash = Resolved sig_ ->
        fixSignedData imp sig_ = Err e ->
        resultOf (signUserOperation imp client plugin op) = Err e)
  /\ effectsOf (getStubSignature imp plugin op) = []
  /\ (forall incoming,
        resultOf (signUserOperation imp client plugin (withSignature op incoming))
        = resultOf (signUserOperation imp client plugin op)
        /\ resultOf (getStubSignature imp plugin (withSignature op incoming))
           = resultOf (getStubSignature imp plugin op)).
Proof.
  intros hashed.
  assert (Heff : effectsOf (signUserOperation imp client plugin op)
                 = match hashed with
                   | Ok hash => [SignMessage (viemSignerAddress plugin) hash]
                   | Err _ => []
                   end).
  { unfold effectsOf, signUserOperation, userOpHashOf, bind, Chain.signMessage, perform,
      lift, ret.
    fold hashed. destruct hashed as [hash|]; [|reflexivity].
    destruct (signRaw client (viemSignerAddress plugin) hash) as [sig_|];
      cbn [settle snd app]; [|reflexivity].
    destruct (fixSignedData imp sig_); [|reflexivity].
    now destruct (getEncodedPermissionProofData imp plugin (callData op)). }
  split; [exact Heff|].
  split; [unfold noReads; rewrite Heff; now destruct hashed|].
  split.
  { intros e He. unfold resultOf, signUserOperation, userOpHashOf, bind, lift.
    fold hashed. now rewrite He. }
  split.
  { intros hash reason Hh Hs.
    unfold resultOf, signUserOperation, userOpHashOf, bind, lift, Chain.signMessage, perform.
    fold hashed. now rewrite Hh, Hs. }
  split.
  { intros hash sig_ e Hh Hs Hf.
    unfold resultOf, signUserOperation, userOpHashOf, bind, lift, Chain.signMessage, perform.
    fold hashed. rewrite Hh, Hs. cbn [settle]. now rewrite Hf. }
  split.
  { unfold effectsOf, getStubSignature, bind, lift, ret.
    now destruct (getEncodedPermissionProofData imp plugin (callData op)). }
  intros incoming. split; reflexivity.
Qed.

(** *** Enable data *)

Lemma toHex_ok_nonneg (v : Numeric) (h : Hex) :
  toHex v = Ok h -> (0 <= numericValue v)%Z /\ h = "0x" ++ hexDigitsOf (numericValue v).
Proof.
  unfold toHex.
  destruct (Z.ltb_spec (numericValue v) 0) as [Hneg|Hpos].
  - rewrite orb_true_r. discriminate.
  - destruct (match v with JsNumber _ => _ | JsBigInt _ => false end); cbn [orb];
      [discriminate|].
    intros H. inversion H. split; [exact Hpos | now apply of_Z_prefixed].
Qed.

Lemma pad_ok (h padded : Hex) (size_ : nat) :
  pad h size_ = Ok padded -> padded = "0x" ++ padStart (replace0x h) (size_ * 2) "0".
Proof.
  unfold pad. destruct (size_ * 2 <? String.length (replace0x h))%nat; now inversion 1.
Qed.

(** Enable data that was built: everything before the nonce does not
    depend on the nonce. *)
Lemma enableDataOf_ok (plugin : Plugin) :
  exists front,
    forall n h, enableDataOf plugin n = Ok h ->
      (0 <= n)%Z /\ h = front ++ paddedHex n 32.
Proof.
  unfold enableDataOf.
  destruct (pad (MerkleTreeJs.getHexRoot (merkleTree plugin)) 32) as [root|];
    [|exists ""; discriminate]. cbn [rbind].
  destruct (toHex (JsNumber (nullish (validAfter (sessionKeyData plugin)) 0%Z))) as [va|];
    [|exists ""; discriminate]. cbn [rbind].
  destruct (pad va 6) as [va'|]; [|exists ""; discriminate]. cbn [rbind].
  destruct (toHex (JsNumber (nullish (validUntil (sessionKeyData plugin)) 0%Z))) as [vu|];
    [|exists ""; discriminate]. cbn [rbind].
  destruct (pad vu 6) as [vu'|]; [|exists ""; discriminate]. cbn [rbind].
  exists ("0x" ++ replace0x (viemSignerAddress plugin) ++ replace0x root
               ++ replace0x va' ++ replace0x vu'
               ++ replace0x (nullish (paymaster (sessionKeyData plugin)) zeroAddress)).
  intros n h.
  destruct (toHex (JsBigInt n)) as [hn|] eqn:Hn; [|discriminate]. cbn [rbind].
  apply toHex_ok_nonneg in Hn as [H0 ->]. cbn [numericValue] in *.
  destruct (pad ("0x" ++ hexDigitsOf n) 32) as [hn'|] eqn:Hpad; [|discriminate].
  cbn [rbind]. apply pad_ok in Hpad. rewrite replace0x_prefixed in Hpad. subst hn'.
  intros H. inversion H. split; [exact H0|].
  rewrite concat_six.
  change (replace0x (String "0" (String "x" (padStart (hexDigitsOf n) 64 "0"))))
    with (paddedHex n 32).
  now rewrite !append_assoc.
Qed.

(** X6: enable data binds the nonce: for one plugin and account, two
    different pinned nonces never give the same enable data. *)
Theorem enable_data_distinguishes_nonces (plugin : Plugin) (account : Address)
    (n1 n2 : Z) (h1 h2 : Hex) :
  resultOf (getEnableData client plugin (Some account) (Some n1)) = Ok h1 ->
  resultOf (getEnableData client plugin (Some account) (Some n2)) = Ok h2 ->
  n1 <> n2 ->
  h1 <> h2.
Proof.
  intros H1 H2 Hneq Heq. unfold resultOf in H1, H2.
  destruct (truthyString (Some account)) eqn:Hk.
  - rewrite (getEnableData_pinned client plugin account n1 Hk) in H1.
    rewrite (getEnableData_pinned client plugin account n2 Hk) in H2.
    cbn [fst] in H1, H2.
    destruct (enableDataOf_ok plugin) as (front & Hfront).
    destruct (Hfront n1 h1 H1) as [Hn1 ->]. destruct (Hfront n2 h2 H2) as [Hn2 ->].
    apply append_cancel_l in Heq. apply Hneq.
    exact (paddedHex_inj n1 n2 32 Hn1 Hn2 Heq).
  - rewrite (getEnableData_no_account client plugin _ _ Hk) in H1. discriminate.
Qed.

(** X7: with an account address and no pinned nonce, [getEnableData] of both
    plugins makes exactly one external call, the [nonces] read of the
    account on the validator address, and a rejected read comes back as
    that transport error: no nonce is made up. *)
Theorem getEnableData_footprint (plugin : Plugin)
    (mimp : ModularPermission.Imports) (mplugin : ModularPermission.Plugin)
    (account : Address) :
  account <> "" ->
  effectsOf (getEnableData client plugin (Some account) None)
  = [ReadContract (NoncesCall (validatorAddress plugin) account)]
  /\ effectsOf (ModularPermission.getEnableData mimp client mplugin (Some account))
     = [ReadContract (NoncesCall (ModularPermission.validatorAddress mplugin) account)]
  /\ (forall reason,
        nonces client (validatorAddress plugin) account = Rejected reason ->
        resultOf (getEnableData client plugin (Some account) None)
        = Err (TransportError reason))
  /\ (forall reason,
        nonces client (ModularPermission.validatorAddress mplugin) account
        = Rejected reason ->
        resultOf (ModularPermission.getEnableData mimp client mplugin (Some account))
        = Err (TransportError reason)).
Proof.
  intros Hacc. pose proof (proj2 (truthyString_Some account) Hacc) as Hk.
  repeat split.
  - unfold effectsOf. rewrite (getEnableData_resolved client plugin account Hk).
    now destruct (nonces client (validatorAddress plugin) account).
  - destruct account as [|c rest]; [congruence|].
    unfold effectsOf, ModularPermission.getEnableData, bind, lift, ret,
      ModularPermission.getNonces, readNonces, perform.
    destruct (nonces client (ModularPermission.validatorAddress mplugin) (String c rest));
      reflexivity.
  - intros reason Hr. unfold resultOf.
    now rewrite (getEnableData_resolved client plugin account Hk), Hr.
  - intros reason Hr. destruct account as [|c rest]; [congruence|].
    unfold resultOf, ModularPermission.getEnableData, bind, lift, ret,
      ModularPermission.getNonces, readNonces, perform.
    now rewrite Hr.
Qed.

(** *** The status check, again *)

(** X8: a session stored exactly as the plugin would enable it (its own
    root, validity window and paymaster) under a nonzero nonce, behind a
    validator that matches up to letter case, is reported enabled; the enable
    data for that nonce must be buildable and the account address given. *)
Theorem enabled_session_is_reported (plugin : Plugin) (account : Address)
    (selector : Hex) (execDetail : ExecutionDetail) (n : Z) :
  getExecution client account selector = Resolved execDetail ->
  toLowerCase (exec_validator execDetail) = toLowerCase (validatorAddress plugin) ->
  sessionData client (validatorAddress plugin) (signer_address (p_signer plugin)) account
  = Resolved {| sd_merkleRoot := MerkleTreeJs.getHexRoot (merkleTree plugin);
                sd_validAfter := nullish (validAfter (sessionKeyData plugin)) 0%Z;
                sd_validUntil := nullish (validUntil (sessionKeyData plugin)) 0%Z;
                sd_paymaster := nullish (paymaster (sessionKeyData plugin)) zeroAddress;
                sd_nonce := n |} ->
  n <> 0%Z ->
  isOk (enableDataOf plugin n) = true ->
  account <> "" ->
  resultOf (isEnabled client plugin account selector) = Ok true.
Proof.
  intros Hexec Hval Hstored Hn Hok Hacc.
  apply truthyString_Some in Hacc.
  unfold resultOf, isEnabled, tryCatch, bind, readGetExecution, readSessionData,
    perform, lift, ret.
  rewrite Hexec. cbn [settle]. rewrite Hstored. cbn [settle].
  change (storedEnableData plugin _) with (enableDataOf plugin n).
  destruct (enableDataOf plugin n) as [h|] eqn:Hh; [|discriminate].
  apply String.eqb_eq in Hval. rewrite Hval. cbn [sd_nonce].
  apply Z.eqb_neq in Hn. rewrite Hn. cbn [negb].
  rewrite (getEnableData_pinned client plugin account n Hacc), Hh.
  cbn [fst]. now rewrite String.eqb_refl.
Qed.


(** *** The modular signature *)



End Facts.
End PluginFacts.

(** ** The typed data that enables a plugin *)

Module TypedDataFacts.
Import EnableTypedData TextFacts ValueFacts.
Local Open Scope promise_scope.

Lemma length_of_pos_lower : forall (p : positive) (rest : string) (k : nat),
  (16 ^ Z.of_nat k <= Z.pos p)%Z ->
  k + String.length rest < String.length (HexString.Raw.of_pos p rest).
Proof.
  fix IH 1. intros p rest k Hle.
  destruct k as [|k].
  - clear Hle. do 4 try destruct p as [p|p|]; simpl; try lia;
      (eapply Nat.le_lt_trans; [|apply (IH p _ 0%nat); simpl; lia]; simpl; lia).
  - rewrite Nat2Z.inj_succ, Z.pow_succ_r in Hle by lia.
    assert (Hpos : (0 < 16 ^ Z.of_nat k)%Z) by (apply Z.pow_pos_nonneg; lia).
    do 4 try destruct p as [p|p|]; simpl; try lia;
      (eapply Nat.le_lt_trans; [|apply (IH p _ k); lia]; simpl; lia).
Qed.

Lemma pad_number_too_wide (z : Z) (size_ : nat) :
  (16 ^ Z.of_nat (size_ * 2) <= z)%Z ->
  pad ("0x" ++ hexDigitsOf z) size_ = Err SizeExceedsPaddingSizeError.
Proof.
  intros Hle. apply pad_too_long. rewrite replace0x_prefixed.
  assert (Hpos : (0 < 16 ^ Z.of_nat (size_ * 2))%Z) by (apply Z.pow_pos_nonneg; lia).
  destruct z as [|p|p]; try lia.
  pose proof (length_of_pos_lower p "" (size_ * 2) Hle) as H. simpl in H |- *. lia.
Qed.

Lemma fitsBytes_6_window (z : Z) : fitsBytes 6 z -> (0 <= z <= MAX_SAFE_INTEGER)%Z.
Proof.
  unfold fitsBytes, MAX_SAFE_INTEGER.
  change (16 ^ Z.of_nat (6 * 2))%Z with 281474976710656%Z.
  change (2 ^ 53 - 1)%Z with 9007199254740991%Z. lia.
Qed.

(** The packed number for a window that fits and a 20-byte address. *)
Lemma validatorDataOf_packed (args : Args) :
  fitsBytes 6 (nullish (validUntil args) 0%Z) ->
  fitsBytes 6 (nullish (validAfter args) 0%Z) ->
  isAddress (kv_address (validator args)) = true ->
  validatorDataOf args
  = Ok (nullish (validUntil args) 0 * 2 ^ 208
        + nullish (validAfter args) 0 * 2 ^ 160
        + hexValue (slice2 (kv_address (validator args))))%Z
  /\ (0 <= hexValue (slice2 (kv_address (validator args))) < 2 ^ 160)%Z.
Proof.
  intros Hvu Hva Haddr.
  destruct (SessionKeyFacts.replace0x_isHex 20 _ Haddr) as [Hr Hlen].
  assert (Hhex : allHexDigits (slice2 (kv_address (validator args))) = true).
  { unfold isAddress, isHexOfSize, isHex in Haddr.
    apply andb_true_iff in Haddr as [H _].
    destruct (kv_address (validator args)) as [|c0 [|c1 rest]]; try discriminate.
    destruct c0 as [[] [] [] [] [] [] [] []]; try discriminate.
    destruct c1 as [[] [] [] [] [] [] [] []]; try discriminate. exact H. }
  pose proof (hexValue_bound _ Hhex) as Hbound. rewrite Hlen in Hbound.
  change (16 ^ Z.of_nat (20 * 2))%Z with (2 ^ 160)%Z in Hbound.
  split; [|exact Hbound].
  unfold validatorDataOf.
  rewrite (toHex_number _ (fitsBytes_6_window _ Hvu)). cbn [rbind].
  rewrite (pad_hexDigits _ 6 Hvu) by lia. cbn [rbind].
  rewrite (toHex_number _ (fitsBytes_6_window _ Hva)). cbn [rbind].
  rewrite (pad_hexDigits _ 6 Hva) by lia. cbn [rbind].
  rewrite concat_three, !replace0x_prefixed, Hr.
  set (vu := nullish (validUntil args) 0%Z) in *.
  set (va := nullish (validAfter args) 0%Z) in *.
  set (digits := slice2 (kv_address (validator args))) in *.
  assert (Lvu : String.length (paddedHex vu 6) = 12)
    by (apply (length_paddedHex vu 6 Hvu); lia).
  assert (Lva : String.length (paddedHex va 6) = 12)
    by (apply (length_paddedHex va 6 Hva); lia).
  unfold hexToBigInt, size.
  rewrite !length_append, Lvu, Lva, Hlen. cbn [String.length Nat.ltb Nat.leb Nat.div2 Nat.add Nat.sub Nat.mul].
  replace (Nat.div2 (2 + (12 + (12 + 40)) - 2 + 1)) with 32%nat by reflexivity.
  cbn [Nat.ltb Nat.leb].
  rewrite toBigInt_digits.
  - f_equal.
    rewrite hexValue_app
      by (now rewrite allHexDigits_append, allHexDigits_paddedHex, Hhex).
    rewrite (hexValue_app (paddedHex va 6) digits Hhex).
    rewrite length_append, Lva, Hlen.
    rewrite (hexValue_paddedHex vu 6) by (destruct Hvu; assumption).
    rewrite (hexValue_paddedHex va 6) by (destruct Hva; assumption).
    change (16 ^ Z.of_nat (12 + 20 * 2))%Z with (2 ^ 208)%Z.
    change (16 ^ Z.of_nat (20 * 2))%Z with (2 ^ 160)%Z.
    change (2 ^ 208)%Z with (2 ^ 48 * 2 ^ 160)%Z. lia.
  - intros Hempty. apply (f_equal String.length) in Hempty.
    rewrite !length_append, Lvu in Hempty. simpl in Hempty. lia.
  - now rewrite !allHexDigits_append, !allHexDigits_paddedHex, Hhex.
Qed.

(** X11: [validatorData] is one number of at most 32 bytes with
    [validUntil] in its top 6 bytes, [validAfter] in the next 6 and the
    validator address in the low 20, so each can be read back from it; it
    goes into the message together with whatever the validator's
    [getEnableData(accountAddress)] resolves to. *)
Theorem validatorData_packing (args : Args) :
  fitsBytes 6 (nullish (validUntil args) 0%Z) ->
  fitsBytes 6 (nullish (validAfter args) 0%Z) ->
  isAddress (kv_address (validator args)) = true ->
  let packed :=
    (nullish (validUntil args) 0 * 2 ^ 208
     + nullish (validAfter args) 0 * 2 ^ 160
     + hexValue (slice2 (kv_address (validator args))))%Z in
  validatorDataOf args = Ok packed
  /\ (0 <= packed < 2 ^ 256)%Z
  /\ (packed / 2 ^ 208 = nullish (validUntil args) 0)%Z
  /\ ((packed / 2 ^ 160) mod 2 ^ 48 = nullish (validAfter args) 0)%Z
  /\ (packed mod 2 ^ 160 = hexValue (slice2 (kv_address (validator args))))%Z
  /\ (forall t t' enableData,
        kv_getEnableData (validator args) (Some (accountAddress args)) t
        = (Ok enableData, t') ->
        exists typed,
          getPluginsEnableTypedData args t = (Ok typed, t')
          /\ msg_validatorData (td_message typed) = packed
          /\ msg_enableData (td_message typed) = enableData
          /\ msg_sig (td_message typed) = action_selector (action args)
          /\ msg_executor (td_message typed) = action_address (action args)
          /\ domain_verifyingContract (td_domain typed) = accountAddress args).
Proof.
  intros Hvu Hva Haddr packed.
  destruct (validatorDataOf_packed args Hvu Hva Haddr) as [Hpacked Hbound].
  fold packed in Hpacked.
  unfold fitsBytes in Hvu, Hva.
  change (16 ^ Z.of_nat (6 * 2))%Z with (2 ^ 48)%Z in Hvu, Hva.
  set (vu := nullish (validUntil args) 0%Z) in *.
  set (va := nullish (validAfter args) 0%Z) in *.
  set (a := hexValue (slice2 (kv_address (validator args)))) in *.
  assert (Hlow : (0 <= va * 2 ^ 160 + a < 2 ^ 208)%Z).
  { change (2 ^ 208)%Z with (2 ^ 48 * 2 ^ 160)%Z. nia. }
  assert (Hdiv208 : (packed / 2 ^ 208 = vu)%Z).
  { symmetry. apply (Z.div_unique packed (2 ^ 208) vu (va * 2 ^ 160 + a))%Z;
      [left; exact Hlow | unfold packed; lia]. }
  assert (Hdiv160 : (packed / 2 ^ 160 = vu * 2 ^ 48 + va)%Z).
  { symmetry. apply (Z.div_unique packed (2 ^ 160) (vu * 2 ^ 48 + va) a)%Z;
      [left; exact Hbound|].
    unfold packed. change (2 ^ 208)%Z with (2 ^ 48 * 2 ^ 160)%Z. lia. }
  repeat split; try assumption.
  - unfold packed. lia.
  - unfold packed. change (2 ^ 256)%Z with (2 ^ 48 * 2 ^ 208)%Z. nia.
  - rewrite Hdiv160. symmetry.
    apply (Z.mod_unique (vu * 2 ^ 48 + va) (2 ^ 48) vu va)%Z; [left; lia | lia].
  - symmetry. apply (Z.mod_unique packed (2 ^ 160) (vu * 2 ^ 48 + va) a)%Z;
      [left; exact Hbound|].
    unfold packed. change (2 ^ 208)%Z with (2 ^ 48 * 2 ^ 160)%Z. lia.
  - intros t t' enableData Hed.
    unfold getPluginsEnableTypedData, bind, lift, ret.
    rewrite Hpacked, Hed. eexists. repeat split.
Qed.

(** X12: a validity window that does not fit 6 bytes makes
    [getPluginsEnableTypedData] fail on the padding, before the validator's
    [getEnableData] is called: the trace is left as it was. *)
Theorem typed_data_refuses_wide_window (args : Args) (t : Trace) :
  (2 ^ 48 <= nullish (validUntil args) 0 <= MAX_SAFE_INTEGER)%Z
  \/ (fitsBytes 6 (nullish (validUntil args) 0%Z)
      /\ 2 ^ 48 <= nullish (validAfter args) 0 <= MAX_SAFE_INTEGER)%Z ->
  getPluginsEnableTypedData args t = (Err SizeExceedsPaddingSizeError, t).
Proof.
  intros H.
  assert (Hfail : validatorDataOf args = Err SizeExceedsPaddingSizeError).
  { unfold validatorDataOf. destruct H as [[Hlo Hhi] | [Hvu [Hlo Hhi]]].
    - rewrite toHex_number by lia. cbn [rbind].
      now rewrite (pad_number_too_wide _ 6 Hlo).
    - rewrite (toHex_number _ (fitsBytes_6_window _ Hvu)). cbn [rbind].
      rewrite (pad_hexDigits _ 6 Hvu) by lia. cbn [rbind].
      rewrite toHex_number by lia. cbn [rbind].
      now rewrite (pad_number_too_wide _ 6 Hlo). }
  unfold getPluginsEnableTypedData, bind, lift. now rewrite Hfail.
Qed.

(** X13: typed data built for the session-key plugin carries the plugin's
    enable data with the nonce read from the chain plus one (the caller
    passes no pinned nonce) and costs exactly that one read; the window
    packed into [validatorData] is the caller's, the window inside the
    enable data is the plugin's own. *)
Theorem typed_data_for_session_key
    (imp : SessionKey.Imports) (client : Client) (params : SessionKey.Params)
    (plugin : SessionKey.Plugin) (args : Args) (lastNonce invalidNonce : Z) :
  SessionKey.Built imp client params plugin ->
  (forall b, List.length (SessionKey.keccak_256 imp b) = 32) ->
  isAddress (SessionKey.viemSignerAddress plugin) = true ->
  isAddress (nullish (SessionKey.paymaster (SessionKey.sessionKeyData plugin)) zeroAddress)
  = true ->
  isAddress (SessionKey.validatorAddress plugin) = true ->
  SessionKey.fitsBytes 6
    (nullish (SessionKey.validAfter (SessionKey.sessionKeyData plugin)) 0%Z) ->
  SessionKey.fitsBytes 6
    (nullish (SessionKey.validUntil (SessionKey.sessionKeyData plugin)) 0%Z) ->
  validator args = sessionKeyValidator client plugin ->
  accountAddress args <> "" ->
  nonces client (SessionKey.validatorAddress plugin) (accountAddress args)
  = Resolved (lastNonce, invalidNonce) ->
  SessionKey.fitsBytes 32 (lastNonce + 1)%Z ->
  fitsBytes 6 (nullish (validUntil args) 0%Z) ->
  fitsBytes 6 (nullish (validAfter args) 0%Z) ->
  exists typed,
    getPluginsEnableTypedData args []
    = (Ok typed,
       [ReadContract (NoncesCall (SessionKey.validatorAddress plugin) (accountAddress args))])
    /\ msg_enableData (td_message typed)
       = SessionKey.joinFields
           (SessionKey.enableDataFields (SessionKey.viemSignerAddress plugin)
              (MerkleTreeJs.getRoot (SessionKey.merkleTree plugin))
              (nullish (SessionKey.validAfter (SessionKey.sessionKeyData plugin)) 0%Z)
              (nullish (SessionKey.validUntil (SessionKey.sessionKeyData plugin)) 0%Z)
              (nullish (SessionKey.paymaster (SessionKey.sessionKeyData plugin)) zeroAddress)
              (lastNonce + 1)%Z)
    /\ msg_validatorData (td_message typed)
       = (nullish (validUntil args) 0 * 2 ^ 208
          + nullish (validAfter args) 0 * 2 ^ 160
          + hexValue (slice2 (SessionKey.validatorAddress plugin)))%Z.
Proof.
  intros Hb Hhash Hsigner Hpm Hval Hpva Hpvu Hv Hacc Hread Hn Hvu Hva.
  pose proof (SessionKeyFacts.built_root_length imp client params plugin Hhash Hb) as Hroot.
  destruct (SessionKeyFacts.enableDataOf_layout plugin (lastNonce + 1) Hroot Hsigner Hpm
              Hpva Hpvu Hn) as [Hlayout _].
  assert (Haddr : isAddress (kv_address (validator args)) = true) by now rewrite Hv.
  destruct (validatorDataOf_packed args Hvu Hva Haddr) as [Hpacked _].
  apply SessionKeyFacts.truthyString_Some in Hacc.
  unfold getPluginsEnableTypedData, bind, lift, ret.
  rewrite Hpacked, Hv. cbn [kv_getEnableData kv_address sessionKeyValidator].
  rewrite (SessionKeyFacts.getEnableData_resolved client plugin _ Hacc), Hread.
  cbn [fst]. rewrite Hlayout. eexists. repeat split.
Qed.

End TypedDataFacts.

(** ** More sample runs *)

Module ExtraRuns.
Import SessionKey Layouts EnableTypedData Sample SampleMore.
Import SessionKeyFacts PluginFacts TypedDataFacts SampleRuns.

Ltac fits6 := unfold EnableTypedData.fitsBytes;
  split; [apply Z.leb_le | apply Z.ltb_lt]; reflexivity.

Lemma threePermissions_built :
  Built abiImports (sampleClient (storedSession 5)) (sampleParams threeInputs)
        threePermissions.
Proof. exists [], [GetChainId]. reflexivity. Qed.

(** X2 on the sample: the second permission gets index 1, the selector
    derived from its ABI and the operation it asked for. *)
Lemma rule_defaults_and_index_witness :
  exists p,
    nth_error (ruleSet threePermissions) 1 = Some p
    /\ index p = 1 /\ sig p = "0xa9059cbb" /\ operation p = DelegateCall.
Proof.
  destruct (rule_defaults_and_index abiImports (sampleClient (storedSession 5))
              (sampleParams threeInputs) threePermissions 1 transferInput
              threePermissions_built eq_refl)
    as (g & p & Hg & Hp & Hi & _ & _ & Hs & _ & _ & Ho).
  inversion Hg. subst g.
  exists p. repeat split; assumption.
Defined.

(** X3 on the sample: three permissions, three leaves, one root. *)
Lemma tree_leaves_witness :
  List.length (MerkleTreeJs.leaves (merkleTree threePermissions)) = 3
  /\ List.length (last (MerkleTreeJs.layers (merkleTree threePermissions)) []) = 1.
Proof.
  destruct (tree_leaves abiImports (sampleClient (storedSession 5))
              (sampleParams threeInputs) threePermissions threePermissions_built)
    as (Hcount & _ & Hroot).
  split; [exact Hcount | exact Hroot].
Defined.

(** X4 on the sample: the third rule, whose leaf has no neighbour in the
    first layer. *)
Lemma configured_permission_proof_verifies_witness :
  exists leaf,
    encodePermissionData abiImports (One bareRule) None = Ok leaf
    /\ MerkleTreeJs.verify (keccak256 abiImports) configuredOptions
         (MerkleTreeJs.getProof (merkleTree threePermissions)
            (VString (keccak256 abiImports (VString leaf))))
         (MerkleTreeJs.bufferify (VString (keccak256 abiImports (VString leaf))))
         (MerkleTreeJs.getRoot (merkleTree threePermissions)) = true.
Proof.
  destruct (configured_permission_proof_verifies abiImports (sampleClient (storedSession 5))
              (sampleParams threeInputs) threePermissions bareRule threePermissions_built)
    as (leaf & Hleaf & Hverify & _).
  - right. right. left. reflexivity.
  - exists leaf. split; [exact Hleaf | exact Hverify].
Defined.

(** The constructor on permissions it cannot take: a function the ABI does
    not have stops it before any call; a value limit the encoder refuses
    stops it after the chain id was read. *)
Example construction_refuses_bad_permissions :
  signerToSessionKeyValidator abiImports (sampleClient (storedSession 5))
    (sampleParams [samplePermissionInput; mintInput]) []
  = (Err (JsError notInAbiMessage), [])
  /\ signerToSessionKeyValidator abiImports (sampleClient (storedSession 5))
       (sampleParams [samplePermissionInput; negativeInput]) []
     = (Err IntegerOutOfRangeError, [GetChainId]).
Proof. split; reflexivity. Qed.

(** An operation whose hash cannot be computed is not signed. *)
Example malformed_operation_is_not_signed :
  signUserOperation sampleImports (sampleClient (storedSession 5)) onePermission
    malformedOperation []
  = (Err IntegerOutOfRangeError, [])
  /\ ModularPermission.signUserOperation modularImports modularPlugin malformedOperation []
     = (Err IntegerOutOfRangeError, []).
Proof. split; reflexivity. Qed.

(** A validity bound of 2^48: the permission id cannot be computed, the
    status check stops after its first read, the stub is refused, and the
    real signature is refused after the signer has signed. *)
Example wide_window_has_no_permission_id :
  ModularPermission.getPermissionId modularImports wideModularPlugin
  = Err IntegerOutOfRangeError
  /\ ModularPermission.isEnabled modularImports (sampleClient (storedSession 5))
       wideModularPlugin sampleAccount "0x11223344" []
     = (Ok false, [ReadContract (GetExecutionCall sampleAccount "0x11223344")])
  /\ ModularPermission.getStubSignature modularImports wideModularPlugin
       matchingOperation []
     = (Err IntegerOutOfRangeError, [])
  /\ ModularPermission.signUserOperation modularImports wideModularPlugin
       matchingOperation []
     = (Err IntegerOutOfRangeError,
        [SignMessage sampleSignerAddress (hashOfSample matchingOperation)]).
Proof. repeat split. Qed.

(** X6 on the sample: nonces 5 and 6. *)
Lemma enable_data_distinguishes_nonces_witness :
  textOf (resultOf (getEnableData (sampleClient (storedSession 5)) onePermission
                      (Some sampleAccount) (Some 5%Z)))
  <> textOf (resultOf (getEnableData (sampleClient (storedSession 5)) onePermission
                         (Some sampleAccount) (Some 6%Z))).
Proof.
  apply (enable_data_distinguishes_nonces (sampleClient (storedSession 5)) onePermission
           sampleAccount 5%Z 6%Z); [reflexivity | reflexivity | discriminate].
Defined.

(** X7 on the sample account. *)
Lemma getEnableData_footprint_witness :
  effectsOf (getEnableData (sampleClient (storedSession 5)) onePermission
               (Some sampleAccount) None)
  = [ReadContract (NoncesCall sampleValidator sampleAccount)].
Proof.
  apply (getEnableData_footprint (sampleClient (storedSession 5)) onePermission
           modularImports modularPlugin sampleAccount).
  discriminate.
Defined.

(** X8 on the sample: the session stored with nonce 5. *)
Lemma enabled_session_is_reported_witness :
  resultOf (isEnabled (sampleClient (storedSession 5)) onePermission
              sampleAccount "0x11223344") = Ok true.
Proof.
  apply (enabled_session_is_reported (sampleClient (storedSession 5)) onePermission
           sampleAccount "0x11223344"
           (mkExecutionDetail 0 0 zeroAddress (toLowerCase sampleValidator)) 5%Z);
    try reflexivity; discriminate.
Defined.


(** X11 on the sample: valid until 200, no valid-after. *)
Lemma validatorData_packing_witness :
  validatorDataOf (sampleArgs 200)
  = Ok (200 * 2 ^ 208 + 0 * 2 ^ 160
        + hexValue "5C06CE2b673fD5E6e56076e40DD46aB67f5a72A5")%Z.
Proof.
  apply (validatorData_packing (sampleArgs 200)); [fits6 | fits6 | reflexivity].
Defined.

(** X12 on the sample: valid until 2^48. *)
Lemma typed_data_refuses_wide_window_witness :
  getPluginsEnableTypedData (sampleArgs (2 ^ 48)) []
  = (Err SizeExceedsPaddingSizeError, []).
Proof.
  apply (typed_data_refuses_wide_window (sampleArgs (2 ^ 48)) []).
  left. split; [apply Z.leb_le | apply Z.leb_le]; reflexivity.
Defined.

(** X13 on the sample: the chain reports 4, the typed data carries 5. *)
Lemma typed_data_for_session_key_witness :
  exists typed,
    getPluginsEnableTypedData (sampleArgs 200) []
    = (Ok typed, [ReadContract (NoncesCall sampleValidator sampleAccount)])
    /\ msg_enableData (td_message typed)
       = textOf (resultOf (getEnableData (sampleClient (storedSession 5)) onePermission
                             (Some sampleAccount) (Some 5%Z))).
Proof.
  destruct (typed_data_for_session_key sampleImports (sampleClient (storedSession 5))
              (sampleParams [samplePermissionInput]) onePermission (sampleArgs 200)
              4%Z 0%Z (onePermission_built (storedSession 5)) sampleHash_length
              eq_refl eq_refl eq_refl ltac:(fits) ltac:(fits) eq_refl
              ltac:(discriminate) eq_refl ltac:(fits) ltac:(fits6) ltac:(fits6))
    as (typed & Hrun & Hdata & _).
  exists typed. split; [exact Hrun|]. rewrite Hdata. reflexivity.
Defined.

End ExtraRuns.
